(** * LiP-LLM planner: precedence-graph scheduler and LP task allocation

    A shallow embedding of [src/graph_generator.py], [src/task_allocator.py],
    [src/skill_generator.py] and [main.py].

    Conventions of the model:
    - Python [str] values are [string]s, one character per code point; the
      texts of the model are those whose code points are below 256.  The
      classes [\d] and [\s] of [re] and the white space of [str.strip] are
      given on that range as Python has them.
    - numpy floats are rationals ([Q]); [np.round] is round-half-to-even.
    - a [networkx.DiGraph] is a record of its node list (insertion order)
      and its edge list (insertion order, no repetition).
    - a Python [dict] is the list of its items in insertion order.
    - the three external services are explicit arguments: [gemini] (the
      k-th answer of [model.generate_content]), [rand] (the k-th draw of
      [np.random.rand]) and [linprog] (scipy's solver); the number of calls
      made so far and the printed lines are threaded through a [World]. *)

From Stdlib Require Import Ascii String QArith Qround Lqa.
From stdpp Require Import gmap strings list fin_maps.

Local Open Scope string_scope.
Local Open Scope list_scope.

(** ** Text primitives *)

Module Text.

(** [pat] is an initial segment of [s]: what is left after it. *)
Fixpoint drop_prefix (pat s : string) : option string :=
  match pat, s with
  | EmptyString, _ => Some s
  | String a pat', String b s' =>
      if Ascii.eqb a b then drop_prefix pat' s' else None
  | String _ _, EmptyString => None
  end.

(** Python [pat in s] on strings. *)
Fixpoint contains (pat s : string) : bool :=
  match drop_prefix pat s with
  | Some _ => true
  | None =>
      match s with
      | EmptyString => false
      | String _ s' => contains pat s'
      end
  end.

(** What follows the first occurrence of [pat] in [s]. *)
Fixpoint after_first (pat s : string) : option string :=
  match drop_prefix pat s with
  | Some rest => Some rest
  | None =>
      match s with
      | EmptyString => None
      | String _ s' => after_first pat s'
      end
  end.

(** What precedes the first occurrence of [pat] in [s] (all of [s] when
    there is none). *)
Fixpoint before_first (pat s : string) : string :=
  match drop_prefix pat s with
  | Some _ => EmptyString
  | None =>
      match s with
      | EmptyString => EmptyString
      | String c s' => String c (before_first pat s')
      end
  end.

(** [s.split(sep)[1]], defined when [sep in s]: the text between the first
    and the second occurrence of [sep]. *)
Definition split_second (sep s : string) : option string :=
  match after_first sep s with
  | Some rest => Some (before_first sep rest)
  | None => None
  end.

(** [\d] *)
Definition is_digit (c : ascii) : bool :=
  let n := nat_of_ascii c in (48 <=? n)%nat && (n <=? 57)%nat.

(** [\s], and the characters that [str.strip] removes ([str.isspace]):
    tab, line feed, vertical tab, form feed, carriage return (9..13), the
    four separators 28..31, the space, next line (133) and the no-break
    space (160). *)
Definition is_space (c : ascii) : bool :=
  let n := nat_of_ascii c in
  ((9 <=? n)%nat && (n <=? 13)%nat) || ((28 <=? n)%nat && (n <=? 32)%nat)
  || (n =? 133)%nat || (n =? 160)%nat.

(** Longest run of digits at the head of [s], and what follows it. *)
Fixpoint span_digits (s : string) : string * string :=
  match s with
  | EmptyString => (EmptyString, EmptyString)
  | String c s' =>
      if is_digit c then
        let '(ds, rest) := span_digits s' in (String c ds, rest)
      else (EmptyString, s)
  end.

Fixpoint skip_spaces (s : string) : string :=
  match s with
  | EmptyString => EmptyString
  | String c s' => if is_space c then skip_spaces s' else s
  end.

(** One match of [(\d+)\s*->\s*(\d+)] anchored at the head of [s]: the two
    groups and the text after the match.  Every quantifier is greedy and
    none of them can give a character back to what follows it (a digit is
    neither a space nor ['-'], a space is neither ['-'] nor a digit), so
    the greedy run is the only candidate. *)
Definition match_arrow (s : string) : option (string * string * string) :=
  match span_digits s with
  | (EmptyString, _) => None
  | (d1, r1) =>
      match drop_prefix "->" (skip_spaces r1) with
      | None => None
      | Some r2 =>
          match span_digits (skip_spaces r2) with
          | (EmptyString, _) => None
          | (d2, r3) => Some (d1, d2, r3)
          end
      end
  end.

(** [dependency_pattern.findall]: leftmost matches, scanning resumes where
    the previous match ended.  [fuel] bounds the number of positions
    tried; [findall] gives it one more than the length of the text. *)
Fixpoint findall_fuel (fuel : nat) (s : string) : list (string * string) :=
  match fuel with
  | O => []
  | S fuel' =>
      match s with
      | EmptyString => []
      | String _ s' =>
          match match_arrow s with
          | Some (d1, d2, rest) => (d1, d2) :: findall_fuel fuel' rest
          | None => findall_fuel fuel' s'
          end
      end
  end.

Definition findall (s : string) : list (string * string) :=
  findall_fuel (S (String.length s)) s.

(** The value of a string of decimal digits. *)
Fixpoint int_acc (acc : Z) (s : string) : Z :=
  match s with
  | EmptyString => acc
  | String c s' => int_acc (10 * acc + (Z.of_nat (nat_of_ascii c) - 48))%Z s'
  end.

(** [sys.int_info.default_max_str_digits] *)
Definition int_max_str_digits : nat := 4300.

(** [int(s)] on a non-empty string of decimal digits (a group of the
    pattern): [None] is the [ValueError] raised when [s] has more than
    [int_max_str_digits] characters, leading zeros included. *)
Definition int (s : string) : option Z :=
  if (int_max_str_digits <? String.length s)%nat then None
  else Some (int_acc 0%Z s).

(** [s.strip()] *)
Fixpoint rstrip (s : string) : string :=
  match s with
  | EmptyString => EmptyString
  | String c s' =>
      match rstrip s' with
      | EmptyString => if is_space c then EmptyString else String c EmptyString
      | t => String c t
      end
  end.

Definition strip (s : string) : string := rstrip (skip_spaces s).

End Text.

(** Python sequence indexing [l[i]]: negative indices count from the end,
    anything outside [-len, len) raises [IndexError] ([None]). *)
Definition py_index {A} (l : list A) (i : Z) : option A :=
  if (0 <=? i)%Z then l !! Z.to_nat i
  else if (- Z.of_nat (length l) <=? i)%Z then l !! Z.to_nat (Z.of_nat (length l) + i)
  else None.

(** ** dict *)

(** A Python [dict] with string keys and values: its items in insertion
    order, one item per key. *)
Module dict.

Definition t : Type := list (string * string).

Definition empty : t := [].

(** [d[k] = v]: a key that is present keeps its place and gets the new
    value, a new key goes to the end. *)
Fixpoint setitem (d : t) (k v : string) : t :=
  match d with
  | [] => [(k, v)]
  | (k', v') :: d' =>
      if bool_decide (k' = k) then (k', v) :: d' else (k', v') :: setitem d' k v
  end.

(** [list(d.values())] *)
Definition values (d : t) : list string := d.*2.

End dict.

(** ** networkx.DiGraph *)

Record Graph := {
  nodes : list string;
  edges : list (string * string);
}.

Module nx.

Definition DiGraph : Graph := {| nodes := []; edges := [] |}.

Definition add_node (g : Graph) (n : string) : Graph :=
  if bool_decide (n ∈ nodes g) then g
  else {| nodes := nodes g ++ [n]; edges := edges g |}.

Definition add_nodes_from (g : Graph) (ns : list string) : Graph :=
  foldl add_node g ns.

(** [add_edge] creates missing end points; an edge already present is
    kept once.  Self-loops are ordinary edges. *)
Definition add_edge (g : Graph) (e : string * string) : Graph :=
  let g' := add_node (add_node g e.1) e.2 in
  if bool_decide (e ∈ edges g') then g'
  else {| nodes := nodes g'; edges := edges g' ++ [e] |}.

Definition add_edges_from (g : Graph) (es : list (string * string)) : Graph :=
  foldl add_edge g es.

(** Removing a node removes the edges at it; a node that is not in the
    graph is skipped, as [remove_nodes_from] does. *)
Definition remove_node (g : Graph) (n : string) : Graph :=
  {| nodes := filter (λ m, m ≠ n) (nodes g);
     edges := filter (λ e, e.1 ≠ n ∧ e.2 ≠ n) (edges g) |}.

Definition remove_nodes_from (g : Graph) (ns : list string) : Graph :=
  foldl remove_node g ns.

Definition number_of_nodes (g : Graph) : nat := length (nodes g).

(** Number of edges into [n] (a self-loop counts). *)
Definition in_degree_of (g : Graph) (n : string) : nat :=
  length (filter (λ e, e.2 = n) (edges g)).

(** [graph.in_degree()]: the pairs (node, in-degree), in node order. *)
Definition in_degree (g : Graph) : list (string * nat) :=
  map (λ n, (n, in_degree_of g n)) (nodes g).

(** [graph.edges()]: out-edges grouped by source, sources in node order. *)
Definition edges_view (g : Graph) : list (string * string) :=
  flat_map (λ u, filter (λ e, e.1 = u) (edges g)) (nodes g).

(** [is_directed_acyclic_graph]: networkx peels off the generations of
    in-degree-0 nodes; the graph is acyclic iff that exhausts it. *)
Fixpoint peel (fuel : nat) (g : Graph) : bool :=
  match nodes g with
  | [] => true
  | _ :: _ =>
      match fuel with
      | O => false
      | S fuel' =>
          match filter (λ n, in_degree_of g n = 0%nat) (nodes g) with
          | [] => false
          | zs => peel fuel' (remove_nodes_from g zs)
          end
      end
  end.

Definition is_directed_acyclic_graph (g : Graph) : bool :=
  peel (length (nodes g)) g.

End nx.

(** [graph.nodes()] is falsy exactly on a graph without nodes. *)
Definition no_nodes (g : Graph) : bool :=
  match nodes g with [] => true | _ :: _ => false end.

(** ** The outside world *)

(** What [model.generate_content(prompt).text] gives: a text, or an
    exception somewhere on the way. *)
Inductive Reply :=
| Text (t : string)
| Failure.

Record Robot := {
  name : string;
  type : string;
}.

#[global] Instance Robot_inhabited : Inhabited Robot :=
  populate {| name := ""; type := "" |}.

(** The lines written by [print], one constructor per call site. *)
Inductive Msg :=
| ProcessingInstruction (instruction : string)
| CouldNotGenerateSkillList
| GeneratedSkillList
| SkillLine (i : nat) (skill : string)
| GeneratingDependencyGraph
| CouldNotGenerateGraph
| Dependencies (es : list (string * string))
| Simulating
| Step (n : nat)
| ExecutableSkills (l : list string)
| ErrorNoExecutableSkills
| Assignments (a : dict.t)
| NoTasksAssigned
| CompletedTasks (l : list string)
| RemainingTasks (n : nat)
| PlanningComplete
| DagGenerated
| CycleDetected (attempt : nat)
| ErrorGeneratingGraph
| NoAcyclicGraphAfterAttempts
| OptimizationFailed
| InvalidSkill (s : string)
| ErrorCallingGemini.

Record World := {
  llm_calls : nat;
  rng_calls : nat;
  stdout : list Msg;
}.

Definition world0 : World := {| llm_calls := 0; rng_calls := 0; stdout := [] |}.

Definition print (m : Msg) (w : World) : World :=
  {| llm_calls := llm_calls w; rng_calls := rng_calls w; stdout := stdout w ++ [m] |}.

Definition prints (ms : list Msg) (w : World) : World := foldl (λ w m, print m w) w ms.

Definition llm_called (w : World) : World :=
  {| llm_calls := S (llm_calls w); rng_calls := rng_calls w; stdout := stdout w |}.

Definition rng_drawn (n : nat) (w : World) : World :=
  {| llm_calls := llm_calls w; rng_calls := rng_calls w + n; stdout := stdout w |}.

(** ** src/skill_generator.py *)

Definition OBJECTS : list string :=
  ["red block"; "blue block"; "green block"; "yellow block"; "blue bowl"].

Definition LOCATIONS : list string :=
  ["middle of the table"; "corner of the table"; "red block"; "blue block";
   "green block"; "yellow block"; "blue bowl"].

Definition get_skill_set : list string :=
  (obj ← OBJECTS;
   loc ← LOCATIONS;
   if bool_decide (obj ≠ loc)
   then ["pick_and_place(" +:+ obj +:+ ", " +:+ loc +:+ ")"] else [])
  ++ ["transport(table)"] ++ ["done"].

Section Planner.

Variable gemini : nat → Reply.

Definition choose_best_skill (skill_set : list string) (w : World)
  : option string * World :=
  let reply := gemini (llm_calls w) in
  let w := llm_called w in
  match reply with
  | Text t =>
      let chosen_skill := Text.strip t in
      if bool_decide (chosen_skill ∈ skill_set) then (Some chosen_skill, w)
      else (None, print (InvalidSkill chosen_skill) w)
  | Failure => (None, print ErrorCallingGemini w)
  end.

(** [list.remove]: the first occurrence goes. *)
Fixpoint list_remove (s : string) (l : list string) : list string :=
  match l with
  | [] => []
  | a :: l' => if bool_decide (a = s) then l' else a :: list_remove s l'
  end.

(** The [while True] loop of [generate_skill_list]; [None] when [fuel]
    iterations did not reach a [break]. *)
Fixpoint generate_skill_loop (fuel : nat)
    (generated_skills remaining_skills : list string) (w : World)
  : option (list string * World) :=
  match fuel with
  | O => None
  | S fuel' =>
      let '(best_skill, w) := choose_best_skill remaining_skills w in
      match best_skill with
      | None => Some (generated_skills, w)
      | Some best_skill =>
          if bool_decide (best_skill = "done") then Some (generated_skills, w)
          else
            let generated_skills := generated_skills ++ [best_skill] in
            let remaining_skills :=
              if bool_decide (best_skill ∈ remaining_skills)
              then list_remove best_skill remaining_skills
              else remaining_skills in
            generate_skill_loop fuel' generated_skills remaining_skills w
      end
  end.

Definition generate_skill_list (fuel : nat) (skill_set : list string) (w : World)
  : option (list string * World) :=
  generate_skill_loop fuel [] skill_set w.

(** ** src/graph_generator.py *)

(** [None] is an exception: the [ValueError] of [int] or the
    [IndexError] of [skill_list[...]]. *)
Definition parse_dependencies (response_text : string) (skill_list : list string)
  : option (list (string * string)) :=
  if Text.contains "Dependencies:" response_text then
    match Text.split_second "Dependencies:" response_text with
    | None => None
    | Some dependency_section =>
        mapM (λ '(pred_idx, succ_idx),
                p ← Text.int pred_idx;
                u ← py_index skill_list (p - 1);
                s ← Text.int succ_idx;
                v ← py_index skill_list (s - 1);
                Some (u, v))
             (Text.findall dependency_section)
    end
  else Some [].

(** The body of the [try] block of one attempt: [None] when it raises,
    otherwise the graph built from this attempt's answer alone and the
    verdict of the acyclicity test. *)
Definition graph_attempt (reply : Reply) (skill_list : list string)
  : option (Graph * bool) :=
  match reply with
  | Failure => None
  | Text t =>
      let graph := nx.add_nodes_from nx.DiGraph skill_list in
      match parse_dependencies t skill_list with
      | None => None
      | Some edges =>
          let graph := nx.add_edges_from graph edges in
          Some (graph, nx.is_directed_acyclic_graph graph)
      end
  end.

Fixpoint graph_attempts (attempts : list nat) (skill_list : list string) (w : World)
  : Graph * World :=
  match attempts with
  | [] => (nx.DiGraph, print NoAcyclicGraphAfterAttempts w)
  | attempt :: rest =>
      let reply := gemini (llm_calls w) in
      let w := llm_called w in
      match graph_attempt reply skill_list with
      | Some (graph, true) => (graph, print DagGenerated w)
      | Some (_, false) =>
          graph_attempts rest skill_list (print (CycleDetected (attempt + 1)) w)
      | None => (nx.DiGraph, print ErrorGeneratingGraph w)
      end
  end.

Definition generate_dependency_graph (skill_list : list string) (w : World)
  : Graph * World :=
  match skill_list with
  | [] => (nx.DiGraph, w)
  | _ :: _ => graph_attempts (seq 0 3) skill_list w
  end.

End Planner.

(** ** src/task_allocator.py *)

Definition get_executable_skills (graph : Graph) : list string :=
  (filter (λ p, p.2 = 0%nat) (nx.in_degree graph)).*1.

(** numpy helpers *)
Module np.

Definition zeros (rows cols : nat) : list (list Q) := replicate rows (replicate cols 0%Q).

Definition ones (n : nat) : list Q := replicate n 1%Q.

(** [A[i, j] = v] *)
Definition set2 (A : list (list Q)) (i j : nat) (v : Q) : list (list Q) :=
  alter (λ row, <[j := v]> row) i A.

Definition flatten (A : list (list Q)) : list Q := concat A.

(** [np.round]: to the nearest integer, a tie goes to the even one. *)
Definition round (q : Q) : Z :=
  let f := Qfloor q in
  match (q - inject_Z f ?= 1 # 2)%Q with
  | Lt => f
  | Gt => (f + 1)%Z
  | Eq => if Z.even f then f else (f + 1)%Z
  end.

(** [a.reshape((rows, cols))]: [None] is the [ValueError] raised when the
    sizes do not agree. *)
Definition reshape {A} (rows cols : nat) (a : list A) : option (list (list A)) :=
  if bool_decide (length a = (rows * cols)%nat)
  then Some (map (λ r, take cols (drop (r * cols) a)) (seq 0 rows))
  else None.

(** [np.where(row == v)[0]], counting positions from [i]. *)
Fixpoint where_eq (i : nat) (row : list Z) (v : Z) : list nat :=
  match row with
  | [] => []
  | a :: row' =>
      if (a =? v)%Z then i :: where_eq (S i) row' v else where_eq (S i) row' v
  end.

End np.

(** The arguments of [scipy.optimize.linprog] and the part of its result
    that is read. *)
Module scipy.

Record LinProg := {
  c : list Q;
  A_ub : list (list Q);
  b_ub : list Q;
  bounds : list (Q * Q);
}.

Record OptimizeResult := {
  success : bool;
  x : list Q;
}.

End scipy.

(** The capability test and weight of one (robot, skill) pair, given the
    drawn distance. *)
Definition pair_weight (robot : Robot) (skill : string) (simulated_distance : Q) : Q :=
  let weight := (1 / (simulated_distance + (1 # 1000000)))%Q in
  if bool_decide (type robot = "arm_robot") && Text.contains "pick_and_place" skill
  then weight
  else if bool_decide (type robot = "mobile_robot") && Text.contains "transport" skill
  then weight
  else 0%Q.

Section Allocation.

Variable rand : nat → Q.
Variable linprog : scipy.LinProg → option scipy.OptimizeResult.

(** One draw per pair, rows first; [k] draws were made before the call. *)
Definition calculate_weights (k : nat) (robots : list Robot) (skills : list string)
  : list (list Q) :=
  let num_skills := length skills in
  imap (λ r_idx robot,
          imap (λ s_idx skill,
                  pair_weight robot skill (rand (k + (r_idx * num_skills + s_idx))))
               skills)
       robots.

(** The skill constraints: row [k] has a 1 at [j * num_skills + k] for
    every robot [j]. *)
Definition A_eq_skill (num_robots num_skills : nat) : list (list Q) :=
  foldl (λ A k,
           foldl (λ A j, np.set2 A k (j * num_skills + k) 1%Q) A (seq 0 num_robots))
        (np.zeros num_skills (num_robots * num_skills)) (seq 0 num_skills).

(** The robot constraints: row [j] has a 1 at [j * num_skills + k] for
    every skill [k]. *)
Definition A_eq_robot (num_robots num_skills : nat) : list (list Q) :=
  foldl (λ A j,
           foldl (λ A k, np.set2 A j (j * num_skills + k) 1%Q) A (seq 0 num_skills))
        (np.zeros num_robots (num_robots * num_skills)) (seq 0 num_robots).

(** The linear program handed to the solver for a weight matrix. *)
Definition allocation_problem (num_robots num_skills : nat) (weights : list (list Q))
  : scipy.LinProg :=
  {| scipy.c := map Qopp (np.flatten weights);
     scipy.A_ub := A_eq_skill num_robots num_skills ++ A_eq_robot num_robots num_skills;
     scipy.b_ub := np.ones num_skills ++ np.ones num_robots;
     scipy.bounds := replicate (num_robots * num_skills) (0%Q, 1%Q) |}.

(** Lines 96-99, the body of the decoding loop: a robot whose row has a 1
    is entered under its name with the skill of the first such column. *)
Definition decode_step (robots : list Robot) (executable_skills : list string)
    (assignment_matrix : list (list Z)) (assignments : dict.t)
    (r_idx : nat) : dict.t :=
  match np.where_eq 0 (assignment_matrix !!! r_idx) 1%Z with
  | [] => assignments
  | skill_index :: _ =>
      dict.setitem assignments (name (robots !!! r_idx))
        (executable_skills !!! skill_index)
  end.

(** Lines 94-99: one pass over the robots, in order. *)
Definition decode_assignments (robots : list Robot) (executable_skills : list string)
    (assignment_matrix : list (list Z)) : dict.t :=
  foldl (decode_step robots executable_skills assignment_matrix)
        dict.empty (seq 0 (length robots)).

(** [None] is an exception leaving [solve_task_allocation] (from the
    solver or from [reshape]). *)
Definition solve_task_allocation (robots : list Robot) (executable_skills : list string)
    (w : World) : option dict.t * World :=
  let num_robots := length robots in
  let num_skills := length executable_skills in
  if bool_decide (num_skills = 0%nat) then (Some dict.empty, w)
  else
    let weights := calculate_weights (rng_calls w) robots executable_skills in
    let w := rng_drawn (num_robots * num_skills) w in
    match linprog (allocation_problem num_robots num_skills weights) with
    | None => (None, w)
    | Some result =>
        if negb (scipy.success result) then (Some dict.empty, print OptimizationFailed w)
        else
          match np.reshape num_robots num_skills (map np.round (scipy.x result)) with
          | None => (None, w)
          | Some assignment_matrix =>
              (Some (decode_assignments robots executable_skills assignment_matrix), w)
          end
    end.

End Allocation.

(** ** main.py *)

(** How the planner stopped: [return], an uncaught exception, or the
    model's iteration budget ran out before the Python loop did. *)
Inductive Outcome :=
| Returned
| Raised
| OutOfFuel.

Inductive Round :=
| RoundBreak (w : World)
| RoundContinue (graph : Graph) (w : World)
| RoundRaise (w : World).

Section Driver.

Variable gemini : nat → Reply.
Variable rand : nat → Q.
Variable linprog : scipy.LinProg → option scipy.OptimizeResult.

(** The body of the [while] loop, lines 36-59. *)
Definition planner_round (robots : list Robot) (graph : Graph) (step_counter : nat)
    (w : World) : Round :=
  let w := print (Step step_counter) w in
  let executable_skills := get_executable_skills graph in
  let w := print (ExecutableSkills executable_skills) w in
  match executable_skills with
  | [] => RoundBreak (print ErrorNoExecutableSkills w)
  | _ :: _ =>
      match solve_task_allocation rand linprog robots executable_skills w with
      | (None, w) => RoundRaise w
      | (Some assignments, w) =>
          let w := print (Assignments assignments) w in
          let completed_tasks := dict.values assignments in
          match completed_tasks with
          | [] => RoundContinue graph (print NoTasksAssigned w)
          | _ :: _ =>
              let graph := nx.remove_nodes_from graph completed_tasks in
              RoundContinue graph
                (print (RemainingTasks (length (nodes graph)))
                   (print (CompletedTasks completed_tasks) w))
          end
      end
  end.

(** The [while] loop, lines 34-59, followed by line 61 when the loop is
    left through its test or through [break].  The result carries the
    graph at the exit and the number of rounds started. *)
Fixpoint planner_loop (fuel : nat) (robots : list Robot) (graph : Graph)
    (step_counter : nat) (w : World) : Outcome * Graph * nat * World :=
  if (0 <? nx.number_of_nodes graph)%nat then
    match fuel with
    | O => (OutOfFuel, graph, step_counter, w)
    | S fuel' =>
        let step_counter := S step_counter in
        match planner_round robots graph step_counter w with
        | RoundBreak w => (Returned, graph, step_counter, print PlanningComplete w)
        | RoundContinue graph w => planner_loop fuel' robots graph step_counter w
        | RoundRaise w => (Raised, graph, step_counter, w)
        end
    end
  else (Returned, graph, step_counter, print PlanningComplete w).

(** Lines 20-22: the header and the numbered skills. *)
Definition skill_list_printed (skill_list : list string) (w : World) : World :=
  prints (imap (λ i skill, SkillLine (S i) skill) skill_list)
         (print GeneratedSkillList w).

Definition main_planner (fuel : nat) (instruction : string) (robots : list Robot)
    (w : World) : Outcome * World :=
  let w := print (ProcessingInstruction instruction) w in
  let skill_set := get_skill_set in
  match generate_skill_list gemini fuel skill_set w with
  | None => (OutOfFuel, w)
  | Some (skill_list, w) =>
      match skill_list with
      | [] => (Returned, print CouldNotGenerateSkillList w)
      | _ :: _ =>
          let w := skill_list_printed skill_list w in
          let w := print GeneratingDependencyGraph w in
          let '(graph, w) := generate_dependency_graph gemini skill_list w in
          if no_nodes graph then (Returned, print CouldNotGenerateGraph w)
          else
            let w := print (Dependencies (nx.edges_view graph)) w in
            let w := print Simulating w in
            let '(o, _, _, w) := planner_loop fuel robots graph 0 w in
            (o, w)
      end
  end.

End Driver.

(** * Vocabulary of the statements *)

(** The items of a [dict] as a finite map. *)
Definition as_map (d : dict.t) : gmap string string := list_to_map d.

(** The lists printed by line 58 and the step numbers printed by line 37,
    in the order of printing. *)
Definition completed_lines (out : list Msg) : list (list string) :=
  omap (λ m, match m with CompletedTasks l => Some l | _ => None end) out.

Definition step_lines (out : list Msg) : list nat :=
  omap (λ m, match m with Step n => Some n | _ => None end) out.


(** The column chosen for a row: the first one holding a 1. *)
Definition first_one (row : list Z) : option nat := head (np.where_eq 0 row 1%Z).

(** What networkx maintains: no node twice, edges between nodes. *)
Definition wf_graph (g : Graph) : Prop :=
  NoDup (nodes g) ∧ ∀ u v, (u, v) ∈ edges g → u ∈ nodes g ∧ v ∈ nodes g.

(** A topological numbering exists. *)
Definition acyclic (g : Graph) : Prop :=
  ∃ rank : string → nat, ∀ u v, (u, v) ∈ edges g → (rank u < rank v)%nat.

(** The capability test of [calculate_weights], lines 35-38. *)
Definition can_perform (robot : Robot) (skill : string) : bool :=
  (bool_decide (type robot = "arm_robot") && Text.contains "pick_and_place" skill)
  || (bool_decide (type robot = "mobile_robot") && Text.contains "transport" skill).

(** The contract of [scipy.optimize.linprog]: minimise [c . x] subject to
    [A_ub x <= b_ub] and the bounds. *)
Definition dot (a b : list Q) : Q := foldr Qplus 0%Q (zip_with Qmult a b).

Definition lp_feasible (lp : scipy.LinProg) (x : list Q) : Prop :=
  length x = length (scipy.bounds lp)
  ∧ Forall2 (λ row b, (dot row x <= b)%Q) (scipy.A_ub lp) (scipy.b_ub lp)
  ∧ Forall2 (λ v bd, (bd.1 <= v)%Q ∧ (v <= bd.2)%Q) x (scipy.bounds lp).

Definition lp_optimal (lp : scipy.LinProg) (x : list Q) : Prop :=
  lp_feasible lp x
  ∧ ∀ y, lp_feasible lp y → (dot (scipy.c lp) x <= dot (scipy.c lp) y)%Q.

(** The solver answers [lp] with a vertex of the assignment polytope: it
    reports success and an optimal solution whose entries are 0 or 1. *)
Definition solver_integral_optimum
    (linprog : scipy.LinProg → option scipy.OptimizeResult) (lp : scipy.LinProg) : Prop :=
  ∃ res, linprog lp = Some res ∧ scipy.success res = true
         ∧ lp_optimal lp (scipy.x res)
         ∧ Forall (λ v, (v == 0)%Q ∨ (v == 1)%Q) (scipy.x res).

(** Entries and shapes of matrices, for the constraint matrices. *)
Definition get2 (A : list (list Q)) (i j : nat) : option Q :=
  A !! i ≫= λ row, row !! j.

Definition has_shape (rows cols : nat) (A : list (list Q)) : Prop :=
  length A = rows ∧ Forall (λ row, length row = cols) A.

Definition binary (row : list Q) : Prop := Forall (λ v, v = 0%Q ∨ v = 1%Q) row.

Definition ones_at (ps : list (nat * nat)) (A : list (list Q)) : list (list Q) :=
  foldl (λ A p, np.set2 A p.1 p.2 1%Q) A ps.

(** The solution that gives the first pair everything. *)
Definition unit0 (n : nat) : list Q := 1%Q :: replicate (n - 1) 0%Q.

(** A run of rounds that respects the precedence edges: the tasks of each
    round are executable in the graph that the earlier rounds left. *)
Fixpoint respects (g : Graph) (rounds : list (list string)) : Prop :=
  match rounds with
  | [] => True
  | tasks :: rest =>
      (∀ t, t ∈ tasks → t ∈ get_executable_skills g)
      ∧ respects (nx.remove_nodes_from g tasks) rest
  end.

(** Each round of a run removes at least one node from the graph that
    the earlier rounds left. *)
Fixpoint shrinks (g : Graph) (rounds : list (list string)) : Prop :=
  match rounds with
  | [] => True
  | tasks :: rest =>
      (nx.number_of_nodes (nx.remove_nodes_from g tasks) < nx.number_of_nodes g)%nat
      ∧ shrinks (nx.remove_nodes_from g tasks) rest
  end.

(** Strings made of digits only, and of white space only. *)
Fixpoint all_digits (s : string) : bool :=
  match s with
  | EmptyString => true
  | String c s' => Text.is_digit c && all_digits s'
  end.

Fixpoint all_space (s : string) : bool :=
  match s with
  | EmptyString => true
  | String c s' => Text.is_space c && all_space s'
  end.

(** An edge index on which [parse_dependencies] raises: [int] refuses it,
    or it is above the number of skills. *)
Definition bad_index (skill_list : list string) (idx : string) : Prop :=
  match Text.int idx with
  | Some i => (Z.of_nat (length skill_list) < i)%Z
  | None => True
  end.

#[global] Instance bad_index_dec skill_list idx : Decision (bad_index skill_list idx).
Proof. unfold bad_index. destruct (Text.int idx); apply _. Defined.

(** The number that a group of the pattern denotes. *)
Definition value (idx : string) : Z := Text.int_acc 0%Z idx.

(** The skill that an edge index of the oracle's answer denotes when it
    is at most the number of skills: index [i >= 1] is the [i]-th skill,
    index 0 is the last one. *)
Definition skill_of_index (skill_list : list string) (i : Z) : string :=
  if bool_decide (i = 0%Z) then skill_list !!! (length skill_list - 1)%nat
  else skill_list !!! Z.to_nat (i - 1).

(** * Properties *)

(** ** The frontier extractor *)

Lemma in_degree_of_zero (g : Graph) (n : string) :
  nx.in_degree_of g n = 0%nat ↔ ∀ u, (u, n) ∉ edges g.
Proof.
  unfold nx.in_degree_of. rewrite length_zero_iff_nil. split.
  - intros Hnil u Hin.
    assert (Hf : (u, n) ∈ filter (λ e : string * string, e.2 = n) (edges g))
      by (apply list_elem_of_filter; done).
    rewrite Hnil in Hf. by apply not_elem_of_nil in Hf.
  - intros Hno. apply elem_of_nil_inv. intros [u v] Hin.
    apply list_elem_of_filter in Hin as [Hv Hin]. simpl in Hv. subst v.
    by apply (Hno u).
Qed.

Lemma get_executable_skills_filter (g : Graph) :
  get_executable_skills g = filter (λ n, nx.in_degree_of g n = 0%nat) (nodes g).
Proof.
  unfold get_executable_skills, nx.in_degree.
  induction (nodes g) as [|n l IH]; [done|].
  cbn [map]. rewrite !filter_cons. cbn [snd].
  destruct (decide (nx.in_degree_of g n = 0%nat)); cbn; by rewrite IH.
Qed.

Lemma elem_of_get_executable_skills (g : Graph) (n : string) :
  n ∈ get_executable_skills g ↔ n ∈ nodes g ∧ ∀ u, (u, n) ∉ edges g.
Proof.
  rewrite get_executable_skills_filter, list_elem_of_filter, in_degree_of_zero.
  tauto.
Qed.

(** C6. The frontier extractor returns the nodes of the graph that no edge
    enters, each once and in node order; it yields nothing on the empty
    graph.  It takes the graph as a value and returns only the list, so the
    caller's graph is the one it had. *)
Theorem get_executable_skills_in_degree_zero (g : Graph) :
  (∀ n, n ∈ get_executable_skills g ↔ n ∈ nodes g ∧ ∀ u, (u, n) ∉ edges g)
  ∧ get_executable_skills g = filter (λ n, nx.in_degree_of g n = 0%nat) (nodes g)
  ∧ (NoDup (nodes g) → NoDup (get_executable_skills g))
  ∧ get_executable_skills nx.DiGraph = [].
Proof.
  split; [apply elem_of_get_executable_skills|].
  split; [apply get_executable_skills_filter|].
  split; [|done].
  rewrite get_executable_skills_filter. apply NoDup_filter.
Qed.

Lemma get_executable_skills_in_degree_zero_witness :
  let a := "pick_and_place(blue block, middle of the table)" in
  let b := "pick_and_place(red block, blue block)" in
  let c := "pick_and_place(green block, corner of the table)" in
  let g := {| nodes := [a; b; c]; edges := [(a, b)] |} in
  get_executable_skills g = [a; c] ∧ NoDup (get_executable_skills g).
Proof.
  intros a b c g.
  destruct (get_executable_skills_in_degree_zero g) as (_ & Hf & Hnd & _).
  split.
  - rewrite Hf. by vm_compute.
  - apply Hnd. apply (bool_decide_unpack _). by vm_compute.
Defined.

(** ** Decoding the rounded solution *)

Lemma where_eq_first (row : list Z) (v : Z) :
  ∀ k i rest, np.where_eq k row v = i :: rest →
    (k ≤ i)%nat ∧ row !! (i - k)%nat = Some v
    ∧ ∀ j, (j < i - k)%nat → row !! j ≠ Some v.
Proof.
  induction row as [|a row IH]; intros k i rest; cbn; [done|].
  destruct (Z.eqb_spec a v) as [->|Hne].
  - intros [= <- _]. replace (k - k)%nat with 0%nat by lia.
    split; [lia|]. split; [done|]. intros j Hj. lia.
  - intros Hw. apply IH in Hw as (Hle & Hat & Hlow).
    split; [lia|].
    replace (i - k)%nat with (S (i - S k)) by lia.
    split; [done|]. intros [|j] Hj; cbn; [congruence|].
    apply Hlow. lia.
Qed.

Lemma where_eq_nil (row : list Z) (v : Z) :
  ∀ k, np.where_eq k row v = [] → ∀ j, row !! j ≠ Some v.
Proof.
  induction row as [|a row IH]; intros k; cbn; [done|].
  destruct (Z.eqb_spec a v) as [->|Hne]; [done|].
  intros Hw [|j]; cbn; [congruence|]. by eapply IH.
Qed.

(** Facts about [dict]. *)
Lemma as_map_setitem (d : dict.t) (k v : string) :
  as_map (dict.setitem d k v) = <[k := v]> (as_map d).
Proof.
  unfold as_map. induction d as [|[k' v'] d IH]; cbn [dict.setitem]; [done|].
  case_bool_decide as Hk.
  - subst k'. cbn. by rewrite insert_insert_eq.
  - cbn. rewrite IH. by rewrite insert_insert_ne.
Qed.

Lemma setitem_keys (d : dict.t) (k v : string) :
  (dict.setitem d k v).*1 = if bool_decide (k ∈ d.*1) then d.*1 else d.*1 ++ [k].
Proof.
  induction d as [|[k' v'] d IH]; cbn [dict.setitem].
  - rewrite bool_decide_eq_false_2; [done|]. cbn. apply not_elem_of_nil.
  - destruct (decide (k' = k)) as [->|Hk].
    + rewrite (bool_decide_eq_true_2 (k = k)) by done.
      rewrite bool_decide_eq_true_2; [done|]. cbn. by left.
    + rewrite (bool_decide_eq_false_2 (k' = k)) by done.
      cbn [fmap list_fmap fst]. rewrite IH.
      destruct (decide (k ∈ d.*1)) as [Hin|Hin].
      * rewrite (bool_decide_eq_true_2 (k ∈ d.*1)) by done.
        rewrite bool_decide_eq_true_2; [done|]. by right.
      * rewrite (bool_decide_eq_false_2 (k ∈ d.*1)) by done.
        rewrite bool_decide_eq_false_2; [done|].
        intros [?|?]%elem_of_cons; [by subst|done].
Qed.

Lemma setitem_keys_NoDup (d : dict.t) (k v : string) :
  NoDup d.*1 → NoDup (dict.setitem d k v).*1.
Proof.
  intros Hnd. rewrite setitem_keys. case_bool_decide as Hk; [done|].
  apply NoDup_app. split; [done|]. split; [|apply NoDup_singleton].
  intros x Hx ->%list_elem_of_singleton. done.
Qed.

Lemma elem_of_dict (d : dict.t) (k v : string) :
  NoDup d.*1 → (k, v) ∈ d ↔ as_map d !! k = Some v.
Proof. apply elem_of_list_to_map. Qed.

Lemma dict_length (d : dict.t) : NoDup d.*1 → length d = size (as_map d).
Proof.
  unfold as_map. induction d as [|[k v] d IH]; cbn.
  - intros _. by rewrite map_size_empty.
  - intros [Hk Hnd]%NoDup_cons. rewrite map_size_insert_None.
    + by rewrite <- IH.
    + by apply not_elem_of_list_to_map_1.
Qed.

Lemma dict_values_nil (d : dict.t) : dict.values d = [] ↔ d = [].
Proof. unfold dict.values. split; [apply fmap_nil_inv|by intros ->]. Qed.

Lemma elem_of_dict_values (d : dict.t) (v : string) :
  v ∈ dict.values d ↔ ∃ k, (k, v) ∈ d.
Proof.
  unfold dict.values. rewrite list_elem_of_fmap. split.
  - intros ([k v'] & -> & Hin). by exists k.
  - intros [k Hin]. by exists (k, v).
Qed.

Section Decode.

Variables (robots : list Robot) (skills : list string) (matrix : list (list Z)).

Let step := decode_step robots skills matrix.

Lemma as_map_decode_step (a : dict.t) (r : nat) :
  as_map (step a r)
  = match np.where_eq 0 (matrix !!! r) 1%Z with
    | [] => as_map a
    | i :: _ => <[name (robots !!! r) := skills !!! i]> (as_map a)
    end.
Proof.
  unfold step, decode_step. destruct (np.where_eq 0 (matrix !!! r) 1%Z); [done|].
  apply as_map_setitem.
Qed.

(** Rows without a 1 under the name [n] leave the entry of [n] alone. *)
Lemma decode_fold_untouched (n : string) (rs : list nat) :
  ∀ a : dict.t,
    (∀ r, r ∈ rs → name (robots !!! r) = n →
          np.where_eq 0 (matrix !!! r) 1%Z = []) →
    as_map (foldl step a rs) !! n = as_map a !! n.
Proof.
  induction rs as [|r rs IH]; intros a Hno; [done|].
  cbn [foldl]. rewrite IH by (intros r' Hr'; apply Hno; by right).
  rewrite as_map_decode_step.
  destruct (np.where_eq 0 (matrix !!! r) 1%Z) as [|i rest] eqn:Hw; [done|].
  destruct (decide (name (robots !!! r) = n)) as [Hn|Hn].
  - rewrite Hno in Hw; [done|by left|done].
  - by rewrite lookup_insert_ne.
Qed.

(** The entry of a name is written by the last row of that name that has
    a 1. *)
Lemma decode_fold_last (rs1 rs2 : list nat) (r i : nat) (rest : list nat)
    (a : dict.t) :
  np.where_eq 0 (matrix !!! r) 1%Z = i :: rest →
  (∀ r', r' ∈ rs2 → name (robots !!! r') = name (robots !!! r) →
         np.where_eq 0 (matrix !!! r') 1%Z = []) →
  as_map (foldl step a (rs1 ++ r :: rs2)) !! name (robots !!! r) = Some (skills !!! i).
Proof.
  intros Hw Hlater. rewrite foldl_app. cbn [foldl].
  rewrite decode_fold_untouched by done.
  rewrite as_map_decode_step, Hw. by rewrite lookup_insert_eq.
Qed.

(** Every entry was written by some row. *)
Lemma decode_fold_inv (n s : string) (rs : list nat) :
  ∀ a : dict.t,
    as_map (foldl step a rs) !! n = Some s →
    as_map a !! n = Some s
    ∨ ∃ r i rest, r ∈ rs ∧ name (robots !!! r) = n
        ∧ np.where_eq 0 (matrix !!! r) 1%Z = i :: rest ∧ s = skills !!! i.
Proof.
  induction rs as [|r rs IH]; intros a Hl; [by left|].
  cbn [foldl] in Hl. apply IH in Hl as [Hl|(r' & i & rest & Hin & Hn & Hw & Hs)].
  - rewrite as_map_decode_step in Hl.
    destruct (np.where_eq 0 (matrix !!! r) 1%Z) as [|i rest] eqn:Hw; [by left|].
    destruct (decide (name (robots !!! r) = n)) as [Hn|Hn].
    + subst n. rewrite lookup_insert_eq in Hl. injection Hl as <-.
      right. exists r, i, rest. repeat split; [by left|done].
    + rewrite lookup_insert_ne in Hl by done. by left.
  - right. exists r', i, rest. repeat split; [by right|done..].
Qed.

Lemma decode_fold_dom (rs : list nat) :
  ∀ a : dict.t,
    dom (as_map (foldl step a rs))
    ⊆ dom (as_map a) ∪ list_to_set ((λ r, name (robots !!! r)) <$> rs).
Proof.
  induction rs as [|r rs IH]; intros a; cbn [foldl fmap list_fmap list_to_set].
  - apply union_subseteq_l.
  - intros n Hn. apply IH in Hn. apply elem_of_union in Hn as [Hn|Hn].
    + rewrite as_map_decode_step in Hn.
      destruct (np.where_eq 0 (matrix !!! r) 1%Z).
      * apply elem_of_union. by left.
      * rewrite dom_insert in Hn. apply elem_of_union in Hn as [Hn|Hn].
        -- apply elem_of_union. right. apply elem_of_union. by left.
        -- apply elem_of_union. by left.
    + apply elem_of_union. right. apply elem_of_union. by right.
Qed.

(** The keys stay pairwise distinct. *)
Lemma decode_fold_NoDup (rs : list nat) :
  ∀ a : dict.t, NoDup a.*1 → NoDup (foldl step a rs).*1.
Proof.
  induction rs as [|r rs IH]; intros a Ha; [done|].
  cbn [foldl]. apply IH. unfold step, decode_step.
  destruct (np.where_eq 0 (matrix !!! r) 1%Z); [done|by apply setitem_keys_NoDup].
Qed.

(** A key enters the dict when the first row of its name with a 1 is
    decoded: the keys written by [rs] follow those of [a], in the order
    of their first such rows. *)
Lemma decode_fold_keys (rs : list nat) :
  ∀ a : dict.t,
    (foldl step a rs).*1
    = foldl (λ ks r, match np.where_eq 0 (matrix !!! r) 1%Z with
                     | [] => ks
                     | _ :: _ => if bool_decide (name (robots !!! r) ∈ ks) then ks
                                 else ks ++ [name (robots !!! r)]
                     end) a.*1 rs.
Proof.
  induction rs as [|r rs IH]; intros a; [done|].
  cbn [foldl]. rewrite IH. f_equal. unfold step, decode_step.
  destruct (np.where_eq 0 (matrix !!! r) 1%Z); [done|apply setitem_keys].
Qed.

End Decode.

Lemma decode_keys_NoDup (robots : list Robot) (skills : list string)
    (matrix : list (list Z)) :
  NoDup (decode_assignments robots skills matrix).*1.
Proof. apply decode_fold_NoDup. constructor. Qed.

Lemma elem_of_decode (robots : list Robot) (skills : list string)
    (matrix : list (list Z)) (n s : string) :
  (n, s) ∈ decode_assignments robots skills matrix
  ↔ as_map (decode_assignments robots skills matrix) !! n = Some s.
Proof. apply elem_of_dict, decode_keys_NoDup. Qed.

Lemma names_of_indices (robots : list Robot) :
  (λ r, name (robots !!! r)) <$> seq 0 (length robots) = name <$> robots.
Proof.
  apply list_eq. intros i. rewrite !list_lookup_fmap.
  destruct (decide (i < length robots)%nat) as [Hi|Hi].
  - rewrite lookup_seq_lt by done. cbn.
    destruct (lookup_lt_is_Some_2 robots i Hi) as [rb Hrb].
    rewrite Hrb. cbn. by rewrite (list_lookup_total_correct _ _ _ Hrb).
  - rewrite lookup_seq_ge by lia. rewrite lookup_ge_None_2 by lia. done.
Qed.

Lemma first_one_Some (row : list Z) (i : nat) :
  first_one row = Some i ↔ row !! i = Some 1%Z ∧ ∀ j, (j < i)%nat → row !! j ≠ Some 1%Z.
Proof.
  unfold first_one. split.
  - destruct (np.where_eq 0 row 1%Z) as [|i' rest] eqn:Hw; [done|].
    intros [= ->]. apply where_eq_first in Hw as (_ & Hat & Hlow).
    rewrite Nat.sub_0_r in Hat, Hlow. done.
  - intros [Hat Hlow].
    destruct (np.where_eq 0 row 1%Z) as [|i' rest] eqn:Hw.
    + by apply (where_eq_nil _ _ _ Hw) in Hat.
    + apply where_eq_first in Hw as (_ & Hat' & Hlow').
      rewrite Nat.sub_0_r in Hat', Hlow'. cbn. f_equal.
      destruct (Nat.lt_trichotomy i' i) as [Hlt|[->|Hlt]]; [|done|].
      * by apply Hlow in Hlt.
      * by apply Hlow' in Hlt.
Qed.

Lemma first_one_None (row : list Z) :
  first_one row = None ↔ ∀ j, row !! j ≠ Some 1%Z.
Proof.
  unfold first_one. split.
  - destruct (np.where_eq 0 row 1%Z) eqn:Hw; [|done].
    intros _. by eapply where_eq_nil.
  - intros Hno. destruct (np.where_eq 0 row 1%Z) as [|i rest] eqn:Hw; [done|].
    apply where_eq_first in Hw as (_ & Hat & _). by apply Hno in Hat.
Qed.

Lemma first_one_exists (row : list Z) (j : nat) :
  row !! j = Some 1%Z → ∃ i, (i ≤ j)%nat ∧ first_one row = Some i.
Proof.
  intros Hj. destruct (first_one row) as [i|] eqn:Hf.
  - exists i. split; [|done]. apply first_one_Some in Hf as [_ Hlow].
    destruct (decide (i ≤ j)%nat); [done|]. exfalso. apply (Hlow j); [lia|done].
  - exfalso. by apply (proj1 (first_one_None row) Hf j).
Qed.

Lemma where_eq_head_nil (row : list Z) :
  first_one row = None → np.where_eq 0 row 1%Z = [].
Proof. unfold first_one. by destruct (np.where_eq 0 row 1%Z). Qed.

Lemma where_eq_head_cons (row : list Z) (i : nat) :
  first_one row = Some i → ∃ rest, np.where_eq 0 row 1%Z = i :: rest.
Proof.
  unfold first_one. destruct (np.where_eq 0 row 1%Z) as [|i' rest]; [done|].
  intros [= ->]. by exists rest.
Qed.

(** The entry under a name is the choice of the last robot of that name
    whose row has a 1. *)
Lemma decode_lookup_last (robots : list Robot) (skills : list string)
    (matrix : list (list Z)) (r i : nat) :
  (r < length robots)%nat →
  first_one (matrix !!! r) = Some i →
  (∀ r', (r < r')%nat → name (robots !!! r') = name (robots !!! r) →
         first_one (matrix !!! r') = None) →
  (name (robots !!! r), skills !!! i) ∈ decode_assignments robots skills matrix.
Proof.
  intros Hr Hi Hlater. apply elem_of_decode. unfold decode_assignments.
  replace (length robots) with (r + S (length robots - S r))%nat by lia.
  rewrite seq_app. cbn [seq]. rewrite Nat.add_0_l.
  destruct (where_eq_head_cons _ _ Hi) as [rest Hw].
  eapply decode_fold_last; [exact Hw|].
  intros r' Hr' Hn. apply where_eq_head_nil, Hlater; [|done].
  apply elem_of_seq in Hr'. lia.
Qed.

Lemma decode_lookup_inv (robots : list Robot) (skills : list string)
    (matrix : list (list Z)) (n s : string) :
  (n, s) ∈ decode_assignments robots skills matrix →
  ∃ r i, (r < length robots)%nat ∧ name (robots !!! r) = n
         ∧ first_one (matrix !!! r) = Some i ∧ s = skills !!! i.
Proof.
  intros Hl%elem_of_decode.
  apply decode_fold_inv in Hl as [Hl|(r & i & rest & Hin & Hn & Hw & Hs)].
  - done.
  - exists r, i. apply elem_of_seq in Hin. split; [lia|]. split; [done|].
    split; [|done]. unfold first_one. by rewrite Hw.
Qed.

(** Each name has one entry. *)
Lemma decode_functional (robots : list Robot) (skills : list string)
    (matrix : list (list Z)) (n s1 s2 : string) :
  (n, s1) ∈ decode_assignments robots skills matrix →
  (n, s2) ∈ decode_assignments robots skills matrix → s1 = s2.
Proof. intros H1%elem_of_decode H2%elem_of_decode. congruence. Qed.

(** No more entries than distinct names. *)
Lemma decode_length (robots : list Robot) (skills : list string)
    (matrix : list (list Z)) :
  (length (decode_assignments robots skills matrix)
   ≤ size (list_to_set (name <$> robots) : gset string))%nat.
Proof.
  rewrite dict_length by apply decode_keys_NoDup. rewrite <- size_dom.
  apply subseteq_size. unfold decode_assignments. etrans; [apply decode_fold_dom|].
  rewrite names_of_indices. apply union_least; [|done].
  unfold as_map. cbn. rewrite dom_empty. apply empty_subseteq.
Qed.

(** ** Graphs: well-formedness and acyclicity *)

Lemma elem_of_nodes_remove_node g n m :
  m ∈ nodes (nx.remove_node g n) ↔ m ∈ nodes g ∧ m ≠ n.
Proof. unfold nx.remove_node. cbn. rewrite list_elem_of_filter. tauto. Qed.

Lemma elem_of_edges_remove_node g n u v :
  (u, v) ∈ edges (nx.remove_node g n) ↔ (u, v) ∈ edges g ∧ u ≠ n ∧ v ≠ n.
Proof. unfold nx.remove_node. cbn. rewrite list_elem_of_filter. cbn. tauto. Qed.

Lemma elem_of_nodes_remove_nodes_from ns :
  ∀ g m, m ∈ nodes (nx.remove_nodes_from g ns) ↔ m ∈ nodes g ∧ m ∉ ns.
Proof.
  induction ns as [|n ns IH]; intros g m; cbn.
  - split; [|tauto]. intros H. split; [done|]. apply not_elem_of_nil.
  - rewrite IH, elem_of_nodes_remove_node, not_elem_of_cons. tauto.
Qed.

Lemma elem_of_edges_remove_nodes_from ns :
  ∀ g u v, (u, v) ∈ edges (nx.remove_nodes_from g ns)
           ↔ (u, v) ∈ edges g ∧ (u ∉ ns) ∧ (v ∉ ns).
Proof.
  induction ns as [|n ns IH]; intros g u v; cbn.
  - split; [|tauto]. intros H. repeat split; [done|apply not_elem_of_nil..].
  - rewrite IH, elem_of_edges_remove_node, !not_elem_of_cons. tauto.
Qed.

Lemma length_nodes_remove_nodes_from ns :
  ∀ g, (length (nodes (nx.remove_nodes_from g ns)) ≤ length (nodes g))%nat.
Proof.
  induction ns as [|n ns IH]; intros g; cbn; [done|].
  etrans; [apply IH|]. unfold nx.remove_node. cbn. apply length_filter.
Qed.

Lemma length_nodes_remove_nodes_from_lt ns :
  ∀ g n, n ∈ ns → n ∈ nodes g →
    (length (nodes (nx.remove_nodes_from g ns)) < length (nodes g))%nat.
Proof.
  induction ns as [|n' ns IH]; intros g n Hin Hg; [by apply elem_of_nil in Hin|].
  cbn. destruct (decide (n = n')) as [->|Hne].
  - eapply Nat.le_lt_trans; [apply length_nodes_remove_nodes_from|].
    unfold nx.remove_node. cbn. eapply length_filter_lt; [exact Hg|]. tauto.
  - apply elem_of_cons in Hin as [?|Hin]; [done|].
    eapply Nat.lt_le_trans; [eapply (IH _ n); [done|]|].
    + apply elem_of_nodes_remove_node. done.
    + unfold nx.remove_node. cbn. apply length_filter.
Qed.

Lemma wf_remove_node g n : wf_graph g → wf_graph (nx.remove_node g n).
Proof.
  intros [Hnd Hed]. split.
  - unfold nx.remove_node. cbn. by apply NoDup_filter.
  - intros u v Huv. apply elem_of_edges_remove_node in Huv as (Huv & Hu & Hv).
    apply Hed in Huv as [? ?]. rewrite !elem_of_nodes_remove_node. done.
Qed.

Lemma wf_remove_nodes_from ns : ∀ g, wf_graph g → wf_graph (nx.remove_nodes_from g ns).
Proof.
  induction ns as [|n ns IH]; intros g Hwf; cbn; [done|].
  apply IH. by apply wf_remove_node.
Qed.

Lemma acyclic_remove_nodes_from g ns : acyclic g → acyclic (nx.remove_nodes_from g ns).
Proof.
  intros [rank Hrank]. exists rank. intros u v Huv.
  apply elem_of_edges_remove_nodes_from in Huv as [Huv _]. by apply Hrank.
Qed.

Lemma wf_add_node g n : wf_graph g → wf_graph (nx.add_node g n).
Proof.
  intros [Hnd Hed]. unfold nx.add_node. case_bool_decide as Hin; [done|].
  split; cbn.
  - apply NoDup_app. split; [done|]. split; [|apply NoDup_singleton].
    intros x Hx ->%list_elem_of_singleton. done.
  - intros u v Huv. apply Hed in Huv as [? ?]. rewrite !elem_of_app. tauto.
Qed.

Lemma elem_of_nodes_add_node g n m :
  m ∈ nodes (nx.add_node g n) ↔ m ∈ nodes g ∨ m = n.
Proof.
  unfold nx.add_node. case_bool_decide as Hin; cbn.
  - split; [tauto|]. intros [?| ->]; done.
  - rewrite elem_of_app, list_elem_of_singleton. done.
Qed.

Lemma edges_add_node g n : edges (nx.add_node g n) = edges g.
Proof. unfold nx.add_node. by case_bool_decide. Qed.

Lemma wf_add_nodes_from ns : ∀ g, wf_graph g → wf_graph (nx.add_nodes_from g ns).
Proof.
  induction ns as [|n ns IH]; intros g Hwf; cbn; [done|].
  apply IH. by apply wf_add_node.
Qed.

Lemma wf_add_edge g e : wf_graph g → wf_graph (nx.add_edge g e).
Proof.
  intros Hwf. unfold nx.add_edge.
  assert (Hwf' : wf_graph (nx.add_node (nx.add_node g e.1) e.2))
    by (by do 2 apply wf_add_node).
  case_bool_decide as Hin; [done|].
  destruct Hwf' as [Hnd Hed]. split; cbn; [done|].
  intros u v Huv. apply elem_of_app in Huv as [Huv|Huv%list_elem_of_singleton].
  - by apply Hed.
  - subst e. cbn. rewrite !elem_of_nodes_add_node. tauto.
Qed.

Lemma wf_add_edges_from es : ∀ g, wf_graph g → wf_graph (nx.add_edges_from g es).
Proof.
  induction es as [|e es IH]; intros g Hwf; cbn; [done|].
  apply IH. by apply wf_add_edge.
Qed.

Lemma wf_empty : wf_graph nx.DiGraph.
Proof. split; [apply NoDup_nil_2|]. intros u v H. by apply elem_of_nil in H. Qed.

(** The peeling test only accepts graphs that have a topological
    numbering: a node gets the number of the generation it leaves in. *)
Lemma peel_sound (fuel : nat) :
  ∀ g, wf_graph g → nx.peel fuel g = true → acyclic g.
Proof.
  induction fuel as [|fuel IH]; intros g Hwf Hp.
  - cbn in Hp. destruct (nodes g) as [|n l] eqn:Hn; [|done].
    exists (λ _, 0%nat). intros u v Huv. apply Hwf in Huv as [Hu _].
    rewrite Hn in Hu. by apply elem_of_nil in Hu.
  - cbn in Hp. destruct (nodes g) as [|n l] eqn:Hn.
    { exists (λ _, 0%nat). intros u v Huv. apply Hwf in Huv as [Hu _].
      rewrite Hn in Hu. by apply elem_of_nil in Hu. }
    rewrite <- Hn in Hp.
    remember (filter (λ n, nx.in_degree_of g n = 0%nat) (nodes g)) as zs eqn:Hzs.
    assert (Hzero : ∀ v, v ∈ zs → ∀ u, (u, v) ∉ edges g).
    { intros v Hv. rewrite Hzs in Hv. apply list_elem_of_filter in Hv as [Hdeg _].
      by apply in_degree_of_zero. }
    clear Hzs. destruct zs as [|z zs']; [done|].
    pose proof (IH _ (wf_remove_nodes_from (z :: zs') g Hwf) Hp) as [rank Hrank].
    exists (λ m, if decide (m ∈ (z :: zs')) then 0%nat else S (rank m)).
    intros u v Huv.
    assert (Hv : v ∉ (z :: zs')).
    { intros Hv. exact (Hzero v Hv u Huv). }
    rewrite (decide_False (P := v ∈ (z :: zs'))) by done.
    destruct (decide (u ∈ (z :: zs'))) as [Hu|Hu]; [lia|].
    apply ->Nat.succ_lt_mono. apply Hrank.
    by apply elem_of_edges_remove_nodes_from.
Qed.

Lemma is_directed_acyclic_graph_sound g :
  wf_graph g → nx.is_directed_acyclic_graph g = true → acyclic g.
Proof. apply peel_sound. Qed.

(** A non-empty list has an element of least rank. *)
Lemma least_rank (rank : string → nat) (l : list string) :
  l ≠ [] → ∃ m, m ∈ l ∧ ∀ x, x ∈ l → (rank m ≤ rank x)%nat.
Proof.
  induction l as [|a l IH]; [done|]. intros _.
  destruct l as [|b l].
  - exists a. split; [by left|]. intros x ->%list_elem_of_singleton. done.
  - destruct IH as (m & Hm & Hleast); [done|].
    destruct (decide (rank a ≤ rank m)%nat) as [Hle|Hgt].
    + exists a. split; [by left|]. intros x [->|Hx]%elem_of_cons; [done|].
      etrans; [exact Hle|]. by apply Hleast.
    + exists m. split; [by right|]. intros x [->|Hx]%elem_of_cons; [lia|].
      by apply Hleast.
Qed.

(** A non-empty acyclic graph has a node that no edge enters. *)
Lemma frontier_nonempty g :
  wf_graph g → acyclic g → nodes g ≠ [] → get_executable_skills g ≠ [].
Proof.
  intros [_ Hed] [rank Hrank] Hne.
  destruct (least_rank rank (nodes g) Hne) as (m & Hm & Hleast).
  assert (Hin : m ∈ get_executable_skills g).
  { apply elem_of_get_executable_skills. split; [done|]. intros u Hu.
    pose proof (Hrank _ _ Hu) as Hlt. apply Hed in Hu as [Hu _].
    apply Hleast in Hu. lia. }
  intros Hnil. rewrite Hnil in Hin. by apply elem_of_nil in Hin.
Qed.

(** ** The graph builder *)

Lemma py_index_elem_of {A} (l : list A) (i : Z) (a : A) :
  py_index l i = Some a → a ∈ l.
Proof.
  unfold py_index. repeat case_match; try done; apply list_elem_of_lookup_2.
Qed.

(** An index above the length raises. *)
Lemma py_index_above {A} (l : list A) (i : Z) :
  (Z.of_nat (length l) ≤ i)%Z → py_index l i = None.
Proof.
  intros Hi. unfold py_index.
  destruct (Z.leb_spec 0 i); [|lia]. apply lookup_ge_None_2. lia.
Qed.

Lemma parse_dependencies_elem_of (t : string) (skill_list : list string)
    (es : list (string * string)) :
  parse_dependencies t skill_list = Some es →
  ∀ u v, (u, v) ∈ es → u ∈ skill_list ∧ v ∈ skill_list.
Proof.
  unfold parse_dependencies. destruct (Text.contains _ t).
  - destruct (Text.split_second _ t) as [sec|]; [|done].
    intros HM%mapM_Some_1 u v Huv.
    apply list_elem_of_lookup_1 in Huv as [i Hi].
    destruct (Forall2_lookup_r _ _ _ _ _ HM Hi) as ([p s] & _ & Hf).
    cbn in Hf.
    destruct (Text.int p) as [ip|]; [|done]. cbn in Hf.
    destruct (py_index skill_list (ip - 1)) as [u'|] eqn:Hu; [|done]. cbn in Hf.
    destruct (Text.int s) as [js|]; [|done]. cbn in Hf.
    destruct (py_index skill_list (js - 1)) as [v'|] eqn:Hv; [|done].
    cbn in Hf. injection Hf as -> ->.
    split; by eapply py_index_elem_of.
  - intros [= <-] u v Huv. by apply elem_of_nil in Huv.
Qed.

Lemma elem_of_nodes_add_nodes_from ns :
  ∀ g m, m ∈ nodes (nx.add_nodes_from g ns) ↔ m ∈ nodes g ∨ m ∈ ns.
Proof.
  induction ns as [|n ns IH]; intros g m; cbn.
  - rewrite elem_of_nil. tauto.
  - rewrite IH, elem_of_nodes_add_node, elem_of_cons. tauto.
Qed.

Lemma elem_of_nodes_add_edge g e m :
  m ∈ nodes (nx.add_edge g e) ↔ m ∈ nodes g ∨ m = e.1 ∨ m = e.2.
Proof.
  unfold nx.add_edge. case_bool_decide; cbn; rewrite !elem_of_nodes_add_node; tauto.
Qed.

Lemma elem_of_edges_add_edge g e e' :
  e' ∈ edges (nx.add_edge g e) ↔ e' ∈ edges g ∨ e' = e.
Proof.
  unfold nx.add_edge. rewrite !edges_add_node.
  case_bool_decide as Hin; cbn; rewrite ?edges_add_node.
  - split; [tauto|]. intros [?| ->]; done.
  - rewrite elem_of_app, list_elem_of_singleton. done.
Qed.

Lemma elem_of_nodes_add_edges_from es :
  ∀ g m, m ∈ nodes (nx.add_edges_from g es)
         ↔ m ∈ nodes g ∨ ∃ e, e ∈ es ∧ (m = e.1 ∨ m = e.2).
Proof.
  induction es as [|e es IH]; intros g m; cbn.
  - split; [tauto|]. intros [?|(e & He & _)]; [done|]. by apply elem_of_nil in He.
  - rewrite IH, elem_of_nodes_add_edge. split.
    + intros [[?|?]|(e' & He' & ?)]; [by left| |].
      * right. exists e. split; [by left|done].
      * right. exists e'. split; [by right|done].
    + intros [?|(e' & [->|He']%elem_of_cons & ?)]; [tauto|tauto|].
      right. by exists e'.
Qed.

Lemma elem_of_edges_add_edges_from es :
  ∀ g e, e ∈ edges (nx.add_edges_from g es) ↔ e ∈ edges g ∨ e ∈ es.
Proof.
  induction es as [|e' es IH]; intros g e; cbn.
  - rewrite elem_of_nil. tauto.
  - rewrite IH, elem_of_edges_add_edge, elem_of_cons. tauto.
Qed.

(** A node with a self-loop is never peeled off, so the test rejects the
    graph. *)
Lemma peel_self_loop (fuel : nat) :
  ∀ g u, u ∈ nodes g → (u, u) ∈ edges g → nx.peel fuel g = false.
Proof.
  induction fuel as [|fuel IH]; intros g u Hu Huu; cbn.
  - destruct (nodes g); [by apply elem_of_nil in Hu|done].
  - destruct (nodes g) as [|n l] eqn:Hn; [by apply elem_of_nil in Hu|].
    rewrite <- Hn.
    remember (filter (λ n, nx.in_degree_of g n = 0%nat) (nodes g)) as zs eqn:Hzs.
    assert (Hnot : u ∉ zs).
    { rewrite Hzs. intros [Hdeg _]%list_elem_of_filter.
      exact (proj1 (in_degree_of_zero g u) Hdeg u Huu). }
    clear Hzs. destruct zs as [|z zs']; [done|].
    apply (IH _ u).
    + apply (elem_of_nodes_remove_nodes_from (z :: zs')). by rewrite Hn.
    + by apply (elem_of_edges_remove_nodes_from (z :: zs')).
Qed.

(** What one attempt yields, when it yields a graph: the skills as nodes,
    the parsed edges as edges, nothing kept from another attempt. *)
Lemma graph_attempt_Some (reply : Reply) (skill_list : list string) (g : Graph) (b : bool) :
  graph_attempt reply skill_list = Some (g, b) →
  ∃ t es, reply = Text t ∧ parse_dependencies t skill_list = Some es
    ∧ g = nx.add_edges_from (nx.add_nodes_from nx.DiGraph skill_list) es
    ∧ b = nx.is_directed_acyclic_graph g
    ∧ wf_graph g
    ∧ (∀ n, n ∈ nodes g ↔ n ∈ skill_list)
    ∧ (∀ e, e ∈ edges g ↔ e ∈ es).
Proof.
  unfold graph_attempt. destruct reply as [t|]; [|done].
  destruct (parse_dependencies t skill_list) as [es|] eqn:Hp; [|done].
  intros [= <- <-]. exists t, es.
  assert (Hnoedge : ∀ l g, edges g = [] → edges (nx.add_nodes_from g l) = []).
  { induction l as [|s l IH]; intros g Hg; [done|].
    cbn. apply IH. by rewrite edges_add_node. }
  do 4 (split; [done|]).
  split; [apply wf_add_edges_from, wf_add_nodes_from, wf_empty|].
  split.
  - intros n. split.
    + intros Hn. apply elem_of_nodes_add_edges_from in Hn as [Hn|(e & He & Hm)].
      * apply elem_of_nodes_add_nodes_from in Hn as [Hn|Hn]; [|done].
        by apply elem_of_nil in Hn.
      * destruct e as [u v].
        destruct (parse_dependencies_elem_of _ _ _ Hp u v He) as [? ?].
        by destruct Hm as [->| ->].
    + intros Hn. apply elem_of_nodes_add_edges_from. left.
      apply elem_of_nodes_add_nodes_from. by right.
  - intros e. rewrite elem_of_edges_add_edges_from, Hnoedge by done.
    rewrite elem_of_nil. tauto.
Qed.

Lemma contains_after_first (pat s : string) :
  Text.contains pat s = true ↔ is_Some (Text.after_first pat s).
Proof.
  induction s as [|c s IH]; cbn.
  - destruct (Text.drop_prefix pat ""); split; try done; try (by eexists);
      by intros [? ?].
  - destruct (Text.drop_prefix pat (String c s)); [|done].
    split; [by eexists|done].
Qed.

(** An edge index above the number of skills, or one that [int] refuses,
    makes [parse_dependencies] raise. *)
Lemma parse_dependencies_out_of_range (t sec p s : string) (skill_list : list string) :
  Text.split_second "Dependencies:" t = Some sec →
  (p, s) ∈ Text.findall sec →
  bad_index skill_list p ∨ bad_index skill_list s →
  parse_dependencies t skill_list = None.
Proof.
  intros Hsec Hin Hout. unfold parse_dependencies.
  assert (Hc : Text.contains "Dependencies:" t = true).
  { apply contains_after_first. unfold Text.split_second in Hsec.
    destruct (Text.after_first "Dependencies:" t); [by eexists|done]. }
  rewrite Hc, Hsec. apply mapM_None, Exists_exists. exists (p, s). split; [done|].
  cbn. unfold bad_index in Hout. destruct Hout as [Hp|Hs].
  - destruct (Text.int p) as [ip|]; [|done]. cbn.
    by rewrite (py_index_above skill_list (ip - 1)) by lia.
  - destruct (Text.int p) as [ip|]; [|done]. cbn.
    destruct (py_index skill_list (ip - 1)); [|done]. cbn.
    destruct (Text.int s) as [js|]; [|done]. cbn.
    by rewrite (py_index_above skill_list (js - 1)) by lia.
Qed.

(** A parsed self-loop is put into the graph and fails the test. *)
Lemma graph_attempt_self_loop (t : string) (skill_list : list string)
    (es : list (string * string)) (u : string) :
  parse_dependencies t skill_list = Some es → (u, u) ∈ es →
  ∃ g, graph_attempt (Text t) skill_list = Some (g, false) ∧ (u, u) ∈ edges g.
Proof.
  intros Hp Hu. unfold graph_attempt. rewrite Hp. eexists. split.
  - f_equal. f_equal. apply peel_self_loop with (u := u).
    + apply elem_of_nodes_add_edges_from. right. exists (u, u). split; [done|by left].
    + apply elem_of_edges_add_edges_from. by right.
  - apply elem_of_edges_add_edges_from. by right.
Qed.

Section Builder.

Variable gemini : nat → Reply.

(** Attempts whose graph is cyclic are passed over, one oracle call
    each. *)
Lemma graph_attempts_skip (skill_list : list string) (n : nat) :
  ∀ attempts w,
    (n ≤ length attempts)%nat →
    (∀ i, (i < n)%nat →
       ∃ g, graph_attempt (gemini (llm_calls w + i)) skill_list = Some (g, false)) →
    ∃ w', llm_calls w' = (llm_calls w + n)%nat ∧ rng_calls w' = rng_calls w
        ∧ graph_attempts gemini attempts skill_list w
          = graph_attempts gemini (drop n attempts) skill_list w'.
Proof.
  induction n as [|n IH]; intros attempts w Hlen Hcyc.
  - exists w. rewrite Nat.add_0_r. done.
  - destruct attempts as [|a attempts]; [cbn in Hlen; lia|].
    destruct (Hcyc 0%nat) as [g Hg]; [lia|]. rewrite Nat.add_0_r in Hg.
    cbn [graph_attempts drop]. rewrite Hg.
    destruct (IH attempts (print (CycleDetected (a + 1)) (llm_called w)))
      as (w' & Hc & Hr & Heq).
    + cbn in Hlen. lia.
    + intros i Hi. cbn. destruct (Hcyc (S i)) as [g' Hg']; [lia|].
      exists g'. rewrite <- Hg'. f_equal. f_equal. lia.
    + exists w'. cbn in Hc, Hr. split; [lia|]. done.
Qed.

(** The builder's result is the empty graph or a graph that one attempt
    built and the test accepted; at most three oracle calls are made. *)
Lemma graph_attempts_result (skill_list : list string) :
  ∀ attempts w,
    let r := graph_attempts gemini attempts skill_list w in
    (r.1 = nx.DiGraph
     ∨ ∃ k, (llm_calls w ≤ k < llm_calls w + length attempts)%nat
            ∧ graph_attempt (gemini k) skill_list = Some (r.1, true))
    ∧ (llm_calls w ≤ llm_calls r.2 ≤ llm_calls w + length attempts)%nat.
Proof.
  induction attempts as [|a attempts IH]; intros w; cbn.
  - split; [by left|lia].
  - destruct (graph_attempt (gemini (llm_calls w)) skill_list) as [[g [|]]|] eqn:Hg; cbn.
    + split; [|lia]. right. exists (llm_calls w). split; [lia|done].
    + specialize (IH (print (CycleDetected (a + 1)) (llm_called w))).
      cbn in IH. destruct IH as [[Hl|(k & Hk & Hgk)] Hcalls].
      * split; [by left|lia].
      * split; [|lia]. right. exists k. split; [lia|done].
    + split; [by left|lia].
Qed.

End Builder.

Lemma generate_dependency_graph_attempts (gemini : nat → Reply)
    (skill_list : list string) (w : World) :
  skill_list ≠ [] →
  generate_dependency_graph gemini skill_list w
  = graph_attempts gemini (seq 0 3) skill_list w.
Proof. by destruct skill_list. Qed.

(** When the builder comes back without nodes, the driver prints its
    abort line and returns; the round loop is not entered. *)
Lemma main_planner_no_graph (gemini : nat → Reply) (rand : nat → Q)
    (linprog : scipy.LinProg → option scipy.OptimizeResult)
    (fuel : nat) (instruction : string) (robots : list Robot)
    (w0 w1 : World) (skill_list : list string) :
  generate_skill_list gemini fuel get_skill_set
    (print (ProcessingInstruction instruction) w0) = Some (skill_list, w1) →
  skill_list ≠ [] →
  let r := generate_dependency_graph gemini skill_list
             (print GeneratingDependencyGraph (skill_list_printed skill_list w1)) in
  nodes r.1 = [] →
  main_planner gemini rand linprog fuel instruction robots w0
  = (Returned, print CouldNotGenerateGraph r.2).
Proof.
  intros Hsl Hne r Hnodes. unfold main_planner. rewrite Hsl.
  destruct skill_list as [|s l]; [done|].
  fold r. destruct r as [g w2]. cbn in Hnodes. unfold no_nodes. by rewrite Hnodes.
Qed.

(** C2 (as the code has it). The builder validates no edge.  A self-loop
    that the oracle names is put into the graph, so that attempt fails the
    acyclicity test; an index above [len(skills)] (or one that [int]
    refuses) makes [parse_dependencies] raise, the builder catches it and
    answers with the empty graph at once.  The builder itself always returns: the empty
    graph, or a graph over exactly the given skills that one attempt built
    and the test accepted (it then has a topological numbering), after at
    most three oracle calls. *)
Theorem builder_returns_without_validating (gemini : nat → Reply)
    (skill_list : list string) (w : World) :
  let r := generate_dependency_graph gemini skill_list w in
  (r.1 = nx.DiGraph
   ∨ (wf_graph r.1 ∧ nx.is_directed_acyclic_graph r.1 = true ∧ acyclic r.1
      ∧ ∀ n, n ∈ nodes r.1 ↔ n ∈ skill_list))
  ∧ (llm_calls w ≤ llm_calls r.2 ≤ llm_calls w + 3)%nat
  ∧ (∀ t es u, parse_dependencies t skill_list = Some es → (u, u) ∈ es →
       ∃ g, graph_attempt (Text t) skill_list = Some (g, false) ∧ (u, u) ∈ edges g)
  ∧ (∀ t sec p s,
       skill_list ≠ [] →
       gemini (llm_calls w) = Text t →
       Text.split_second "Dependencies:" t = Some sec →
       (p, s) ∈ Text.findall sec →
       bad_index skill_list p ∨ bad_index skill_list s →
       parse_dependencies t skill_list = None
       ∧ r = (nx.DiGraph, print ErrorGeneratingGraph (llm_called w))).
Proof.
  intros r. split; [|split; [|split]].
  - subst r. destruct skill_list as [|s l]; [by left|].
    rewrite generate_dependency_graph_attempts by done.
    destruct (graph_attempts_result gemini (s :: l) (seq 0 3) w) as [[Hl|(k & _ & Hk)] _];
      [by left|right].
    apply graph_attempt_Some in Hk as (t & es & _ & _ & _ & Hdag & Hwf & Hn & _).
    split; [done|]. split; [done|]. split; [|done].
    by apply is_directed_acyclic_graph_sound.
  - subst r. destruct skill_list as [|s l]; [cbn; lia|].
    rewrite generate_dependency_graph_attempts by done.
    apply (graph_attempts_result gemini (s :: l) (seq 0 3) w).
  - intros t es u Hp Hu. by eapply graph_attempt_self_loop.
  - intros t sec p s Hne Hg Hsec Hin Hout.
    pose proof (parse_dependencies_out_of_range _ _ _ _ _ Hsec Hin Hout) as Hnone.
    split; [done|]. subst r.
    rewrite generate_dependency_graph_attempts by done.
    cbn. rewrite Hg. cbn. by rewrite Hnone.
Qed.

Lemma builder_returns_without_validating_witness :
  let skill_list := ["pick_and_place(red block, blue bowl)"; "transport(table)"] in
  generate_dependency_graph (λ _, Text "Dependencies: 1 -> 5") skill_list world0
  = (nx.DiGraph, print ErrorGeneratingGraph (llm_called world0)).
Proof.
  intros skill_list.
  pose proof (builder_returns_without_validating
                (λ _, Text "Dependencies: 1 -> 5") skill_list world0) as (_ & _ & _ & H).
  destruct (H "Dependencies: 1 -> 5" " 1 -> 5" "1" "5") as [_ Hr].
  - done.
  - reflexivity.
  - reflexivity.
  - vm_compute. by left.
  - right. vm_compute. reflexivity.
  - exact Hr.
Defined.

(** C2 fails as stated.  With two skills: the oracle's self-loop [1 -> 1]
    is an edge of the graph that is tested, the test rejects it, and after
    three such answers the builder gives up; the out-of-range edge
    [1 -> 5] is not dropped either, [parse_dependencies] raises on it and
    the builder gives up after that one answer, although without the edge
    the graph would have been accepted. *)
Lemma builder_keeps_self_loop_and_raises_out_of_range :
  let red := "pick_and_place(red block, blue bowl)" in
  let skill_list := [red; "transport(table)"] in
  parse_dependencies "Dependencies: 1 -> 1" skill_list = Some [(red, red)]
  ∧ graph_attempt (Text "Dependencies: 1 -> 1") skill_list
    = Some ({| nodes := skill_list; edges := [(red, red)] |}, false)
  ∧ generate_dependency_graph (λ _, Text "Dependencies: 1 -> 1") skill_list world0
    = (nx.DiGraph,
       {| llm_calls := 3; rng_calls := 0;
          stdout := [CycleDetected 1; CycleDetected 2; CycleDetected 3;
                     NoAcyclicGraphAfterAttempts] |})
  ∧ parse_dependencies "Dependencies: 1 -> 5" skill_list = None
  ∧ generate_dependency_graph (λ _, Text "Dependencies: 1 -> 5") skill_list world0
    = (nx.DiGraph,
       {| llm_calls := 1; rng_calls := 0; stdout := [ErrorGeneratingGraph] |})
  ∧ graph_attempt (Text "Dependencies: None") skill_list
    = Some ({| nodes := skill_list; edges := [] |}, true).
Proof. vm_compute. done. Qed.

(** C3 (as the code has it). After [n] attempts whose graph was cyclic
    ([n] at most 3), each of which cost one oracle call and left nothing
    behind: with [n = 3] the builder gives up and returns the empty graph;
    with [n < 3] an acyclic next attempt is returned as it was built from
    that answer alone, and a raising next attempt (an oracle error or a
    parse error) ends the builder at once with the empty graph, without a
    further attempt.  On a graph without nodes the driver prints that no
    dependency graph could be generated and returns without entering the
    round loop. *)
Theorem builder_retries_cycles_only (gemini : nat → Reply)
    (skill_list : list string) (w : World) (n : nat) :
  skill_list ≠ [] → (n ≤ 3)%nat →
  (∀ i, (i < n)%nat →
     ∃ g, graph_attempt (gemini (llm_calls w + i)) skill_list = Some (g, false)) →
  let r := generate_dependency_graph gemini skill_list w in
  (n = 3%nat →
     r.1 = nx.DiGraph ∧ llm_calls r.2 = (llm_calls w + 3)%nat
     ∧ last (stdout r.2) = Some NoAcyclicGraphAfterAttempts)
  ∧ (∀ g, (n < 3)%nat →
       graph_attempt (gemini (llm_calls w + n)) skill_list = Some (g, true) →
       r.1 = g ∧ llm_calls r.2 = (llm_calls w + n + 1)%nat
       ∧ last (stdout r.2) = Some DagGenerated)
  ∧ ((n < 3)%nat →
       graph_attempt (gemini (llm_calls w + n)) skill_list = None →
       r.1 = nx.DiGraph ∧ llm_calls r.2 = (llm_calls w + n + 1)%nat
       ∧ last (stdout r.2) = Some ErrorGeneratingGraph)
  ∧ (∀ rand linprog fuel instruction robots w0 w1,
       generate_skill_list gemini fuel get_skill_set
         (print (ProcessingInstruction instruction) w0) = Some (skill_list, w1) →
       w = print GeneratingDependencyGraph (skill_list_printed skill_list w1) →
       nodes r.1 = [] →
       main_planner gemini rand linprog fuel instruction robots w0
       = (Returned, print CouldNotGenerateGraph r.2)).
Proof.
  intros Hne Hn Hcyc r.
  destruct (graph_attempts_skip gemini skill_list n (seq 0 3) w) as (w' & Hc & _ & Heq);
    [cbn; lia|done|].
  assert (Hr : r = graph_attempts gemini (drop n (seq 0 3)) skill_list w').
  { subst r. by rewrite generate_dependency_graph_attempts. }
  split; [|split; [|split]].
  - intros ->. rewrite Hr. cbn. split; [done|]. split; [lia|]. by rewrite last_snoc.
  - intros g Hlt Hg. rewrite Hr.
    destruct (drop n (seq 0 3)) as [|a rest] eqn:Hd.
    { apply (f_equal length) in Hd. rewrite length_drop in Hd. cbn in Hd. lia. }
    cbn. rewrite Hc, Hg. cbn. split; [done|]. split; [lia|]. by rewrite last_snoc.
  - intros Hlt Hg. rewrite Hr.
    destruct (drop n (seq 0 3)) as [|a rest] eqn:Hd.
    { apply (f_equal length) in Hd. rewrite length_drop in Hd. cbn in Hd. lia. }
    cbn. rewrite Hc, Hg. cbn. split; [done|]. split; [lia|]. by rewrite last_snoc.
  - intros rand linprog fuel instruction robots w0 w1 Hsl -> Hnodes.
    by apply main_planner_no_graph.
Qed.

Lemma builder_retries_cycles_only_witness :
  let skill_list := ["pick_and_place(blue block, middle of the table)";
                     "pick_and_place(red block, blue block)"] in
  let gemini := λ k, match k with
                     | O => Text "Dependencies: 1 -> 2 2 -> 1"
                     | _ => Text "Dependencies: 1 -> 2"
                     end in
  (generate_dependency_graph gemini skill_list world0).1
  = {| nodes := skill_list;
       edges := [("pick_and_place(blue block, middle of the table)",
                  "pick_and_place(red block, blue block)")] |}.
Proof.
  intros skill_list gemini.
  pose proof (builder_retries_cycles_only gemini skill_list world0 1) as H.
  destruct H as (_ & H & _).
  - done.
  - lia.
  - intros [|i] Hi; [|lia]. eexists. vm_compute. reflexivity.
  - apply H; [lia|]. vm_compute. reflexivity.
Defined.

(** C3 fails as stated for oracle errors: the first call fails, the second
    would have given an acyclic graph, but the builder makes no second
    call and returns the empty graph. *)
Lemma builder_gives_up_on_oracle_error :
  let skill_list := ["pick_and_place(blue block, middle of the table)";
                     "pick_and_place(red block, blue block)"] in
  let gemini := λ k, match k with
                     | O => Failure
                     | _ => Text "Dependencies: 1 -> 2"
                     end in
  generate_dependency_graph gemini skill_list world0
  = (nx.DiGraph, {| llm_calls := 1; rng_calls := 0; stdout := [ErrorGeneratingGraph] |})
  ∧ ∃ g, graph_attempt (gemini 1%nat) skill_list = Some (g, true).
Proof. split; [by vm_compute|]. eexists. vm_compute. reflexivity. Qed.

(** C8 (as the code has it). On the empty skill list the builder returns
    the empty graph without asking the oracle.  The driver does not get
    that far: when skill generation yields no skill it prints that no skill
    list could be generated and returns; nothing else is printed after
    that, in particular not the completion line. *)
Theorem empty_skill_list_aborts (gemini : nat → Reply) (rand : nat → Q)
    (linprog : scipy.LinProg → option scipy.OptimizeResult)
    (fuel : nat) (instruction : string) (robots : list Robot) (w0 w1 : World) :
  generate_skill_list gemini fuel get_skill_set
    (print (ProcessingInstruction instruction) w0) = Some ([], w1) →
  generate_dependency_graph gemini [] w1 = (nx.DiGraph, w1)
  ∧ main_planner gemini rand linprog fuel instruction robots w0
    = (Returned, print CouldNotGenerateSkillList w1)
  ∧ last (stdout (main_planner gemini rand linprog fuel instruction robots w0).2)
    = Some CouldNotGenerateSkillList.
Proof.
  intros Hsl. split; [done|].
  assert (Hm : main_planner gemini rand linprog fuel instruction robots w0
               = (Returned, print CouldNotGenerateSkillList w1)).
  { unfold main_planner. by rewrite Hsl. }
  split; [done|]. rewrite Hm. cbn. by rewrite last_snoc.
Qed.

Lemma empty_skill_list_aborts_witness :
  main_planner (λ _, Text "done") (λ _, 0%Q) (λ _, None) 1 "Do nothing." [] world0
  = (Returned,
     {| llm_calls := 1; rng_calls := 0;
        stdout := [ProcessingInstruction "Do nothing."; CouldNotGenerateSkillList] |}).
Proof.
  refine (proj1 (proj2 (empty_skill_list_aborts (λ _, Text "done") (λ _, 0%Q)
            (λ _, None) 1 "Do nothing." [] world0
            {| llm_calls := 1; rng_calls := 0;
               stdout := [ProcessingInstruction "Do nothing."] |} _))).
  vm_compute. reflexivity.
Defined.

(** C8 fails as stated: with an oracle that answers "done" at once the
    skill list is empty, and the driver's output is the abort line, without
    the completion line. *)
Lemma empty_skill_list_not_complete :
  generate_skill_list (λ _, Text "done") 1 get_skill_set
    (print (ProcessingInstruction "Do nothing.") world0)
  = Some ([], {| llm_calls := 1; rng_calls := 0;
                 stdout := [ProcessingInstruction "Do nothing."] |})
  ∧ (PlanningComplete ∉
      stdout (main_planner (λ _, Text "done") (λ _, 0%Q) (λ _, None) 1
                "Do nothing." [] world0).2)
  ∧ (CouldNotGenerateSkillList ∈
      stdout (main_planner (λ _, Text "done") (λ _, 0%Q) (λ _, None) 1
                "Do nothing." [] world0).2).
Proof.
  split; [by vm_compute|].
  assert (H : stdout (main_planner (λ _, Text "done") (λ _, 0%Q) (λ _, None) 1
                "Do nothing." [] world0).2
              = [ProcessingInstruction "Do nothing."; CouldNotGenerateSkillList])
    by (by vm_compute).
  rewrite H. split.
  - intros Hin. apply elem_of_cons in Hin as [?|Hin]; [done|].
    apply list_elem_of_singleton in Hin. done.
  - right. left.
Qed.

(** ** The round loop *)

Section Loop.

Variable rand : nat → Q.
Variable linprog : scipy.LinProg → option scipy.OptimizeResult.

(** Lines 43-45 and 61: with nodes left and nothing executable the loop
    is left by [break], and the line after the loop is printed. *)
Lemma planner_loop_break (fuel : nat) (robots : list Robot) (g : Graph)
    (k : nat) (w : World) :
  nodes g ≠ [] → get_executable_skills g = [] →
  planner_loop rand linprog (S fuel) robots g k w
  = (Returned, g, S k,
     print PlanningComplete
       (print ErrorNoExecutableSkills
          (print (ExecutableSkills []) (print (Step (S k)) w)))).
Proof.
  intros Hne Hex. cbn. unfold nx.number_of_nodes.
  destruct (nodes g) as [|n l] eqn:Hn; [done|]. cbn.
  unfold planner_round. by rewrite Hex.
Qed.

(** Lines 53-55: a round whose assignment is empty changes nothing but
    the output, so when the solver's answer does not depend on what was
    printed or drawn before, every further round is the same round. *)
Lemma planner_loop_stalls (robots : list Robot) (g : Graph) :
  nodes g ≠ [] → get_executable_skills g ≠ [] →
  (∀ w, (solve_task_allocation rand linprog robots (get_executable_skills g) w).1
        = Some dict.empty) →
  ∀ fuel k w, ∃ w',
    planner_loop rand linprog fuel robots g k w = (OutOfFuel, g, (k + fuel)%nat, w').
Proof.
  intros Hne Hex Hsolve. induction fuel as [|fuel IH]; intros k w.
  - exists w. cbn. unfold nx.number_of_nodes.
    destruct (nodes g); [done|]. cbn. by rewrite Nat.add_0_r.
  - cbn. unfold nx.number_of_nodes.
    destruct (nodes g) as [|n l] eqn:Hn; [done|]. cbn.
    unfold planner_round.
    destruct (get_executable_skills g) as [|s ss] eqn:Hf; [done|].
    specialize (Hsolve (print (ExecutableSkills (s :: ss)) (print (Step (S k)) w))).
    destruct (solve_task_allocation rand linprog robots (s :: ss) _) as [o w1].
    cbn in Hsolve. subst o. cbn.
    destruct (IH (S k) (print NoTasksAssigned (print (Assignments dict.empty) w1)))
      as [w' Hw'].
    exists w'. rewrite Hw'. f_equal. f_equal. lia.
Qed.

End Loop.

(** Lines 43-45 and 61 taken by themselves: were the loop entered with
    the two-node cycle, it would find nothing executable, print the error
    line, leave the loop through [break] and then print the completion
    line.  [main_planner] never enters the loop with such a graph (see
    [planner_loop_completion] below). *)
Lemma cyclic_graph_ends_with_completion_line (rand : nat → Q)
    (linprog : scipy.LinProg → option scipy.OptimizeResult)
    (fuel : nat) (robots : list Robot) :
  let g := {| nodes := ["pick_and_place(red block, blue block)";
                        "pick_and_place(blue block, red block)"];
              edges := [("pick_and_place(red block, blue block)",
                         "pick_and_place(blue block, red block)");
                        ("pick_and_place(blue block, red block)",
                         "pick_and_place(red block, blue block)")] |} in
  wf_graph g
  ∧ get_executable_skills g = []
  ∧ planner_loop rand linprog (S fuel) robots g 0 world0
    = (Returned, g, 1%nat,
       {| llm_calls := 0; rng_calls := 0;
          stdout := [Step 1; ExecutableSkills []; ErrorNoExecutableSkills;
                     PlanningComplete] |}).
Proof.
  intros g. split; [|split].
  - split.
    + apply NoDup_cons. split; [|apply NoDup_singleton].
      intros H%list_elem_of_singleton. done.
    + intros u v Huv. subst g. cbn in *.
      apply elem_of_cons in Huv as [[= -> ->]|Huv].
      { split; [by left|by right; left]. }
      apply list_elem_of_singleton in Huv as [= -> ->].
      split; [by right; left|by left].
  - by vm_compute.
  - rewrite planner_loop_break; [done|done|by vm_compute].
Qed.

(** ** Rounding *)

Lemma round_one_inv (q : Q) : np.round q = 1%Z → (1 # 2 < q)%Q ∧ (q < 3 # 2)%Q.
Proof.
  unfold np.round. pose proof (Qfloor_le q) as Hlo. pose proof (Qlt_floor q) as Hhi.
  rewrite inject_Z_plus in Hhi.
  destruct (q - inject_Z (Qfloor q) ?= 1 # 2)%Q eqn:Hc.
  - apply Qeq_alt in Hc. destruct (Z.even (Qfloor q)) eqn:He; intros H.
    + rewrite H in He. done.
    + assert (Qfloor q = 0%Z) as H0 by lia. rewrite H0 in He. done.
  - apply Qlt_alt in Hc. intros H. rewrite H in *.
    change (inject_Z 1) with 1%Q in *. split; lra.
  - apply Qgt_alt in Hc. intros H.
    assert (Qfloor q = 0%Z) as H0 by lia. rewrite H0 in *.
    change (inject_Z 0) with 0%Q in *. change (inject_Z 1) with 1%Q in *.
    split; lra.
Qed.

Lemma round_one (q : Q) : (q == 1)%Q → np.round q = 1%Z.
Proof.
  intros Hq. unfold np.round.
  assert (Hf : Qfloor q = 1%Z) by (rewrite Hq; apply (Qfloor_Z 1)).
  rewrite Hf. change (inject_Z 1) with 1%Q.
  destruct (q - 1 ?= 1 # 2)%Q eqn:Hc; [|done|].
  - apply Qeq_alt in Hc. lra.
  - apply Qgt_alt in Hc. lra.
Qed.

(** ** The constraint matrices *)

Lemma zeros_shape rows cols : has_shape rows cols (np.zeros rows cols).
Proof.
  unfold np.zeros. split; [apply length_replicate|].
  apply Forall_replicate. apply length_replicate.
Qed.

Lemma zeros_binary rows cols : Forall binary (np.zeros rows cols).
Proof. apply Forall_replicate. apply Forall_replicate. by left. Qed.

Lemma set2_shape rows cols A i j v :
  has_shape rows cols A → has_shape rows cols (np.set2 A i j v).
Proof.
  intros [Hl Hr]. unfold np.set2. split; [by rewrite length_alter|].
  apply Forall_alter; [done|]. intros row _ Hrow. by rewrite length_insert.
Qed.

Lemma set2_binary A i j : Forall binary A → Forall binary (np.set2 A i j 1%Q).
Proof.
  intros HA. unfold np.set2. apply Forall_alter; [done|].
  intros row _ Hrow. unfold binary.
  destruct (decide (j < length row)%nat) as [Hj|Hj].
  - apply Forall_insert; [done|by right].
  - by rewrite list_insert_ge by lia.
Qed.

Lemma get2_set2_eq rows cols A i j v :
  has_shape rows cols A → (i < rows)%nat → (j < cols)%nat →
  get2 (np.set2 A i j v) i j = Some v.
Proof.
  intros [Hl Hr] Hi Hj. unfold get2, np.set2.
  destruct (lookup_lt_is_Some_2 A i) as [row Hrow]; [lia|].
  rewrite list_lookup_alter_eq, Hrow. cbn.
  apply list_lookup_insert_eq.
  rewrite Forall_forall in Hr. rewrite (Hr row); [done|].
  by eapply list_elem_of_lookup_2.
Qed.

Lemma get2_set2_keep A i j i' j' :
  get2 A i' j' = Some 1%Q → get2 (np.set2 A i j 1%Q) i' j' = Some 1%Q.
Proof.
  unfold get2, np.set2. intros H.
  destruct (A !! i') as [row|] eqn:Hrow; [|done]. cbn in H.
  destruct (decide (i = i')) as [->|Hne].
  - rewrite list_lookup_alter_eq, Hrow. cbn.
    destruct (decide (j = j')) as [->|Hnj].
    + apply list_lookup_insert_eq. by eapply lookup_lt_Some.
    + by rewrite list_lookup_insert_ne.
  - rewrite list_lookup_alter_ne by done. by rewrite Hrow.
Qed.

Lemma ones_at_shape rows cols ps :
  ∀ A, has_shape rows cols A → has_shape rows cols (ones_at ps A).
Proof.
  induction ps as [|p ps IH]; intros A HA; [done|].
  cbn. apply IH. by apply set2_shape.
Qed.

Lemma ones_at_binary ps : ∀ A, Forall binary A → Forall binary (ones_at ps A).
Proof.
  induction ps as [|p ps IH]; intros A HA; [done|].
  cbn. apply IH. by apply set2_binary.
Qed.

Lemma ones_at_keep ps :
  ∀ A i j, get2 A i j = Some 1%Q → get2 (ones_at ps A) i j = Some 1%Q.
Proof.
  induction ps as [|p ps IH]; intros A i j H; [done|].
  cbn. apply IH. by apply get2_set2_keep.
Qed.

Lemma ones_at_elem rows cols ps :
  ∀ A i j, has_shape rows cols A → (i, j) ∈ ps → (i < rows)%nat → (j < cols)%nat →
    get2 (ones_at ps A) i j = Some 1%Q.
Proof.
  induction ps as [|p ps IH]; intros A i j HA Hin Hi Hj; [by apply elem_of_nil in Hin|].
  cbn. apply elem_of_cons in Hin as [<-|Hin].
  - apply ones_at_keep. cbn. by eapply get2_set2_eq.
  - eapply IH; [by apply set2_shape|done..].
Qed.

(** The two nested loops that fill a constraint matrix write a 1 at each
    position of a list. *)
Lemma nested_loops_ones_at (f : nat → nat → nat * nat) (outer inner : list nat) :
  ∀ A, foldl (λ A a, foldl (λ A b, np.set2 A (f a b).1 (f a b).2 1%Q) A inner) A outer
       = ones_at (a ← outer; b ← inner; [f a b]) A.
Proof.
  induction outer as [|a outer IH]; intros A; [done|].
  cbn [foldl]. rewrite IH. unfold ones_at. cbn [mbind list_bind].
  rewrite foldl_app. f_equal.
  clear IH. revert A. induction inner as [|b inner IHi]; intros A; [done|].
  cbn. apply IHi.
Qed.

Lemma A_eq_skill_ones_at num_robots num_skills :
  A_eq_skill num_robots num_skills
  = ones_at (k ← seq 0 num_skills; j ← seq 0 num_robots; [(k, j * num_skills + k)%nat])
            (np.zeros num_skills (num_robots * num_skills)).
Proof.
  unfold A_eq_skill.
  apply (nested_loops_ones_at (λ k j, (k, j * num_skills + k)%nat)).
Qed.

Lemma A_eq_robot_ones_at num_robots num_skills :
  A_eq_robot num_robots num_skills
  = ones_at (j ← seq 0 num_robots; k ← seq 0 num_skills; [(j, j * num_skills + k)%nat])
            (np.zeros num_robots (num_robots * num_skills)).
Proof.
  unfold A_eq_robot.
  apply (nested_loops_ones_at (λ j k, (j, j * num_skills + k)%nat)).
Qed.

Lemma A_eq_skill_shape nr ns : has_shape ns (nr * ns) (A_eq_skill nr ns).
Proof. rewrite A_eq_skill_ones_at. apply ones_at_shape, zeros_shape. Qed.

Lemma A_eq_robot_shape nr ns : has_shape nr (nr * ns) (A_eq_robot nr ns).
Proof. rewrite A_eq_robot_ones_at. apply ones_at_shape, zeros_shape. Qed.

Lemma A_eq_skill_binary nr ns : Forall binary (A_eq_skill nr ns).
Proof. rewrite A_eq_skill_ones_at. apply ones_at_binary, zeros_binary. Qed.

Lemma A_eq_robot_binary nr ns : Forall binary (A_eq_robot nr ns).
Proof. rewrite A_eq_robot_ones_at. apply ones_at_binary, zeros_binary. Qed.

(** Row [k] of the skill constraints has a 1 in the column of every pair
    (robot [j], skill [k]). *)
Lemma A_eq_skill_one nr ns j k :
  (j < nr)%nat → (k < ns)%nat →
  get2 (A_eq_skill nr ns) k (j * ns + k) = Some 1%Q.
Proof.
  intros Hj Hk. rewrite A_eq_skill_ones_at.
  eapply ones_at_elem; [apply zeros_shape| |done|].
  - apply list_elem_of_bind. exists k. split; [|apply elem_of_seq; lia].
    apply list_elem_of_bind. exists j. split; [by left|apply elem_of_seq; lia].
  - apply Nat.lt_le_trans with (j * ns + ns)%nat; [lia|].
    replace (j * ns + ns)%nat with (S j * ns)%nat by lia.
    by apply Nat.mul_le_mono_r.
Qed.

(** ** Dot products *)

Lemma dot_cons a row v x : dot (a :: row) (v :: x) = (a * v + dot row x)%Q.
Proof. reflexivity. Qed.

Lemma dot_nil_r row : dot row [] = 0%Q.
Proof. by destruct row. Qed.

Lemma dot_nonneg row x :
  binary row → Forall (λ v, (0 <= v)%Q) x → (0 <= dot row x)%Q.
Proof.
  intros Hrow. revert x. induction Hrow as [|a row Ha Hrow IH]; intros x Hx.
  - cbn. lra.
  - destruct Hx as [|v x Hv Hx]; [rewrite dot_nil_r; lra|].
    rewrite dot_cons. specialize (IH x Hx).
    destruct Ha as [-> | ->]; lra.
Qed.

Lemma dot_ge_one row x i v :
  binary row → Forall (λ v, (0 <= v)%Q) x →
  row !! i = Some 1%Q → x !! i = Some v → (v <= dot row x)%Q.
Proof.
  intros Hrow. revert x i. induction Hrow as [|a row Ha Hrow IH]; intros x i Hx Hi Hv.
  - done.
  - destruct Hx as [|v' x Hv' Hx]; [done|]. rewrite dot_cons.
    destruct i as [|i]; cbn in Hi, Hv.
    + injection Hi as ->. injection Hv as ->.
      pose proof (dot_nonneg row x Hrow Hx). lra.
    + specialize (IH x i Hx Hi Hv). destruct Ha as [-> | ->]; lra.
Qed.

Lemma dot_ge_two row x i1 i2 v1 v2 :
  binary row → Forall (λ v, (0 <= v)%Q) x → i1 ≠ i2 →
  row !! i1 = Some 1%Q → row !! i2 = Some 1%Q →
  x !! i1 = Some v1 → x !! i2 = Some v2 → (v1 + v2 <= dot row x)%Q.
Proof.
  intros Hrow. revert x i1 i2.
  induction Hrow as [|a row Ha Hrow IH]; intros x i1 i2 Hx Hne H1 H2 Hv1 Hv2.
  - done.
  - destruct Hx as [|v' x Hv' Hx]; [done|]. rewrite dot_cons.
    destruct i1 as [|i1], i2 as [|i2]; cbn in H1, H2, Hv1, Hv2; [done| | |].
    + injection H1 as ->. injection Hv1 as ->.
      pose proof (dot_ge_one row x i2 v2 Hrow Hx H2 Hv2). lra.
    + injection H2 as ->. injection Hv2 as ->.
      pose proof (dot_ge_one row x i1 v1 Hrow Hx H1 Hv1). lra.
    + assert (i1 ≠ i2) by congruence.
      specialize (IH x i1 i2 Hx H H1 H2 Hv1 Hv2). destruct Ha as [-> | ->]; lra.
Qed.

Lemma dot_zeros_r row n : (dot row (replicate n 0%Q) == 0)%Q.
Proof.
  revert n. induction row as [|a row IH]; intros n; [reflexivity|].
  destruct n as [|n]; [reflexivity|]. cbn [replicate]. rewrite dot_cons, IH. lra.
Qed.

Lemma dot_all_zero c x : Forall (λ v, (v == 0)%Q) x → (dot c x == 0)%Q.
Proof.
  intros Hx. revert c. induction Hx as [|v x Hv Hx IH]; intros c.
  - rewrite dot_nil_r. reflexivity.
  - destruct c as [|a c]; [reflexivity|]. rewrite dot_cons, IH, Hv. lra.
Qed.

(** ** Reshaping *)

Lemma reshape_lookup {A} (rows cols : nat) (a : list A) (M : list (list A)) (r : nat) :
  np.reshape rows cols a = Some M → (r < rows)%nat →
  M !! r = Some (take cols (drop (r * cols) a)).
Proof.
  unfold np.reshape. case_bool_decide; [|done]. intros [= <-] Hr.
  rewrite list_lookup_fmap, lookup_seq_lt by done. done.
Qed.

Lemma reshape_entry {A} `{!Inhabited A} (rows cols : nat) (a : list A)
    (M : list (list A)) (r k : nat) (v : A) :
  np.reshape rows cols a = Some M → (r < rows)%nat →
  (M !!! r) !! k = Some v ↔ (k < cols)%nat ∧ a !! (r * cols + k)%nat = Some v.
Proof.
  intros HM Hr. rewrite (list_lookup_total_correct _ _ _ (reshape_lookup _ _ _ _ _ HM Hr)).
  rewrite lookup_take_Some, lookup_drop. tauto.
Qed.

(** ** What feasibility of the solver's answer gives *)

Lemma Forall2_replicate_r_inv {A B} (P : A → B → Prop) (l : list A) (n : nat) (b : B) :
  Forall2 P l (replicate n b) → Forall (λ a, P a b) l.
Proof.
  revert l. induction n as [|n IH]; intros l H; inversion H; subst; constructor; auto.
Qed.

Section Feasible.

Variables (nr ns : nat) (W : list (list Q)) (x : list Q).
Hypothesis Hfeas : lp_feasible (allocation_problem nr ns W) x.

Lemma feasible_length : length x = (nr * ns)%nat.
Proof. destruct Hfeas as (Hl & _ & _). cbn in Hl. by rewrite length_replicate in Hl. Qed.

Lemma feasible_bounds : Forall (λ v, (0 <= v)%Q ∧ (v <= 1)%Q) x.
Proof.
  destruct Hfeas as (_ & _ & Hb). cbn in Hb.
  by apply Forall2_replicate_r_inv in Hb.
Qed.

Lemma feasible_nonneg : Forall (λ v, (0 <= v)%Q) x.
Proof. eapply Forall_impl; [apply feasible_bounds|]. by intros v [? _]. Qed.

Lemma feasible_skill_row (k : nat) :
  (k < ns)%nat →
  ∃ row, A_eq_skill nr ns !! k = Some row ∧ binary row ∧ (dot row x <= 1)%Q.
Proof.
  intros Hk. destruct Hfeas as (_ & HA & _). cbn in HA.
  destruct (A_eq_skill_shape nr ns) as [Hlen _].
  destruct (lookup_lt_is_Some_2 (A_eq_skill nr ns) k) as [row Hrow]; [lia|].
  exists row. split; [done|]. split.
  - eapply Forall_lookup_1; [apply A_eq_skill_binary|done].
  - destruct (Forall2_lookup_l _ _ _ k row HA) as (b & Hb & Hle).
    { by rewrite lookup_app_l by lia. }
    rewrite lookup_app_l in Hb by (unfold np.ones; rewrite length_replicate; lia).
    apply lookup_replicate_1 in Hb as [-> _]. done.
Qed.

(** Two robots cannot both have more than a half of one skill. *)
Lemma column_exclusive (r1 r2 k : nat) (v1 v2 : Q) :
  (r1 < nr)%nat → (r2 < nr)%nat → (k < ns)%nat →
  x !! (r1 * ns + k)%nat = Some v1 → x !! (r2 * ns + k)%nat = Some v2 →
  (1 # 2 < v1)%Q → (1 # 2 < v2)%Q → r1 = r2.
Proof.
  intros Hr1 Hr2 Hk Hv1 Hv2 Hh1 Hh2.
  destruct (decide (r1 = r2)) as [|Hne]; [done|]. exfalso.
  destruct (feasible_skill_row k Hk) as (row & Hrow & Hbin & Hle).
  pose proof (A_eq_skill_one nr ns r1 k Hr1 Hk) as H1.
  pose proof (A_eq_skill_one nr ns r2 k Hr2 Hk) as H2.
  unfold get2 in H1, H2. rewrite Hrow in H1, H2. cbn in H1, H2.
  assert (Hidx : (r1 * ns + k)%nat ≠ (r2 * ns + k)%nat) by nia.
  pose proof (dot_ge_two row x _ _ v1 v2 Hbin feasible_nonneg Hidx H1 H2 Hv1 Hv2).
  lra.
Qed.

End Feasible.

(** ** The assignment returned by [solve_task_allocation] *)

Lemma reshape_length {A} (rows cols : nat) (a : list A) (M : list (list A)) :
  np.reshape rows cols a = Some M → length M = rows.
Proof.
  unfold np.reshape. case_bool_decide; [|done]. intros [= <-].
  by rewrite length_map, length_seq.
Qed.

(** An entry of the decoded assignment comes from a robot of that name and
    the first column of its row that rounds to 1. *)
Lemma decode_entry (robots : list Robot) (skills : list string) (x : list Q)
    (M : list (list Z)) (n s : string) :
  np.reshape (length robots) (length skills) (map np.round x) = Some M →
  (n, s) ∈ decode_assignments robots skills M →
  ∃ r k v, (r < length robots)%nat ∧ (k < length skills)%nat
    ∧ name (robots !!! r) = n ∧ skills !! k = Some s
    ∧ x !! (r * length skills + k)%nat = Some v ∧ np.round v = 1%Z.
Proof.
  intros HM Hl. apply decode_lookup_inv in Hl as (r & k & Hr & Hn & Hf & ->).
  apply first_one_Some in Hf as [Hat _].
  apply (reshape_entry _ _ _ _ _ _ _ HM Hr) in Hat as [Hk Hx].
  change (map np.round x) with (np.round <$> x) in Hx.
  rewrite list_lookup_fmap in Hx.
  destruct (x !! (r * length skills + k)%nat) as [v|] eqn:Hv; [|done].
  cbn in Hx. injection Hx as Hround.
  exists r, k, v. repeat split; try done.
  by apply list_lookup_lookup_total_lt.
Qed.

Section Solve.

Variable rand : nat → Q.
Variable linprog : scipy.LinProg → option scipy.OptimizeResult.

(** The ways [solve_task_allocation] returns a mapping. *)
Lemma solve_task_allocation_Some (robots : list Robot) (skills : list string)
    (w : World) (asg : dict.t) :
  (solve_task_allocation rand linprog robots skills w).1 = Some asg →
  asg = []
  ∨ ∃ res M,
      linprog (allocation_problem (length robots) (length skills)
                 (calculate_weights rand (rng_calls w) robots skills)) = Some res
      ∧ scipy.success res = true
      ∧ np.reshape (length robots) (length skills) (map np.round (scipy.x res)) = Some M
      ∧ asg = decode_assignments robots skills M.
Proof.
  unfold solve_task_allocation. case_bool_decide.
  { cbn. intros [= <-]. by left. }
  destruct (linprog _) as [res|] eqn:Hres; [|done].
  destruct (scipy.success res) eqn:Hs; cbn.
  - destruct (np.reshape _ _ _) as [M|] eqn:HM; [|done]. cbn.
    intros [= <-]. right. by exists res, M.
  - intros [= <-]. by left.
Qed.

(** A successful answer that reshapes is decoded. *)
Lemma solve_task_allocation_decoded (robots : list Robot) (skills : list string)
    (w : World) (res : scipy.OptimizeResult) (M : list (list Z)) :
  skills ≠ [] →
  linprog (allocation_problem (length robots) (length skills)
             (calculate_weights rand (rng_calls w) robots skills)) = Some res →
  scipy.success res = true →
  np.reshape (length robots) (length skills) (map np.round (scipy.x res)) = Some M →
  (solve_task_allocation rand linprog robots skills w).1
  = Some (decode_assignments robots skills M).
Proof.
  intros Hne Hres Hs HM. unfold solve_task_allocation.
  rewrite bool_decide_eq_false_2 by (by destruct skills).
  by rewrite Hres, Hs, HM.
Qed.

Lemma solve_task_allocation_keys (robots : list Robot) (skills : list string)
    (w : World) (asg : dict.t) :
  (solve_task_allocation rand linprog robots skills w).1 = Some asg → NoDup asg.*1.
Proof.
  intros [->|(res & M & _ & _ & _ & ->)]%solve_task_allocation_Some.
  - constructor.
  - apply decode_keys_NoDup.
Qed.

End Solve.

Lemma names_distinct (robots : list Robot) (r r' : nat) :
  NoDup (name <$> robots) → (r < length robots)%nat → (r' < length robots)%nat →
  name (robots !!! r') = name (robots !!! r) → r' = r.
Proof.
  intros Hnd Hr Hr' Hn.
  apply (NoDup_lookup _ _ _ (name (robots !!! r)) Hnd).
  - rewrite list_lookup_fmap, (list_lookup_lookup_total_lt robots r') by done.
    cbn. by rewrite Hn.
  - by rewrite list_lookup_fmap, (list_lookup_lookup_total_lt robots r) by done.
Qed.

(** C9. Whatever the solver answered, once its answer is rounded and
    reshaped to the matrix [M]: the assignment returned by
    [solve_task_allocation] is the decoding of [M], a function of the
    matrix, the robots and the skills alone.  When the row of a robot
    holds a 1 (in one column or in several), the robot's name is entered
    with the skill of the lowest such column, and that entry is in the
    returned assignment unless a later robot of the same name also has a
    1 in its row; with pairwise distinct names it always is.  Every entry
    of the result arises this way, and each name has one entry. *)
Theorem solve_task_allocation_lowest_column (rand : nat → Q)
    (linprog : scipy.LinProg → option scipy.OptimizeResult)
    (robots : list Robot) (skills : list string) (w : World)
    (res : scipy.OptimizeResult) (M : list (list Z)) (r j : nat) :
  skills ≠ [] →
  linprog (allocation_problem (length robots) (length skills)
             (calculate_weights rand (rng_calls w) robots skills)) = Some res →
  scipy.success res = true →
  np.reshape (length robots) (length skills) (map np.round (scipy.x res)) = Some M →
  (r < length robots)%nat →
  (M !!! r) !! j = Some 1%Z →
  ∃ asg,
    (solve_task_allocation rand linprog robots skills w).1 = Some asg
    ∧ asg = decode_assignments robots skills M
    ∧ (∃ i s, (i ≤ j)%nat
         ∧ (M !!! r) !! i = Some 1%Z
         ∧ (∀ i', (i' < i)%nat → (M !!! r) !! i' ≠ Some 1%Z)
         ∧ skills !! i = Some s
         ∧ ((∀ r', (r < r')%nat → name (robots !!! r') = name (robots !!! r) →
                   ∀ j', (M !!! r') !! j' ≠ Some 1%Z) →
            (name (robots !!! r), s) ∈ asg)
         ∧ (NoDup (name <$> robots) → (name (robots !!! r), s) ∈ asg))
    ∧ (∀ n s, (n, s) ∈ asg →
         ∃ r' i', (r' < length robots)%nat ∧ name (robots !!! r') = n
           ∧ (M !!! r') !! i' = Some 1%Z
           ∧ (∀ k, (k < i')%nat → (M !!! r') !! k ≠ Some 1%Z)
           ∧ skills !! i' = Some s)
    ∧ (∀ n s1 s2, (n, s1) ∈ asg → (n, s2) ∈ asg → s1 = s2).
Proof.
  intros Hne Hres Hsucc HM Hr Hj.
  exists (decode_assignments robots skills M).
  split; [by apply (solve_task_allocation_decoded rand linprog robots skills w res M)|]. split; [done|].
  split; [|split].
  - destruct (first_one_exists _ _ Hj) as (i & Hij & Hi).
    pose proof (proj1 (first_one_Some _ _) Hi) as [Hat Hlow].
    pose proof (proj1 (reshape_entry _ _ _ _ _ _ _ HM Hr) Hat) as [Hi_lt _].
    assert (Hlater : (∀ r', (r < r')%nat → name (robots !!! r') = name (robots !!! r) →
                        ∀ j', (M !!! r') !! j' ≠ Some 1%Z) →
                     (name (robots !!! r), skills !!! i) ∈ decode_assignments robots skills M).
    { intros Hl. apply decode_lookup_last; [done..|].
      intros r' Hr' Hn. apply first_one_None. by apply Hl. }
    exists i, (skills !!! i). do 3 (split; [done|]).
    split; [by apply list_lookup_lookup_total_lt|]. split; [done|].
    intros Hnd. apply Hlater. intros r' Hr' Hn j'.
    destruct (decide (r' < length robots)%nat) as [Hlt|Hge].
    + pose proof (names_distinct robots r r' Hnd Hr Hlt Hn). lia.
    + assert (Hrow : M !! r' = None).
      { apply lookup_ge_None_2. rewrite (reshape_length _ _ _ _ HM). lia. }
      rewrite list_lookup_total_alt, Hrow. cbn. by rewrite lookup_nil.
  - intros n s Hl. apply decode_lookup_inv in Hl as (r' & i' & Hr' & Hn & Hf & Hs).
    apply first_one_Some in Hf as [Hat Hlow].
    pose proof (proj1 (reshape_entry _ _ _ _ _ _ _ HM Hr') Hat) as [Hi' _].
    exists r', i'. do 4 (split; [done|]). subst s.
    by apply list_lookup_lookup_total_lt.
  - apply decode_functional.
Qed.

Lemma solve_task_allocation_lowest_column_witness :
  let robots := [ {| name := "Arm_Robot_1"; type := "arm_robot" |};
                  {| name := "Arm_Robot_2"; type := "arm_robot" |} ] in
  let skills := ["pick_and_place(red block, blue block)";
                 "pick_and_place(green block, corner of the table)"] in
  let linprog := λ _ : scipy.LinProg,
      Some {| scipy.success := true; scipy.x := [1; 1; 0; 1]%Q |} in
  ∃ asg, (solve_task_allocation (λ _, 1 # 2)%Q linprog robots skills world0).1 = Some asg
    ∧ asg = [("Arm_Robot_1", "pick_and_place(red block, blue block)");
             ("Arm_Robot_2", "pick_and_place(green block, corner of the table)")]
    ∧ ∀ n s1 s2, (n, s1) ∈ asg → (n, s2) ∈ asg → s1 = s2.
Proof.
  intros robots skills linprog.
  destruct (solve_task_allocation_lowest_column (λ _, 1 # 2)%Q linprog robots skills
              world0 {| scipy.success := true; scipy.x := [1; 1; 0; 1]%Q |}
              [[1; 1]; [0; 1]]%Z 0 1)
    as (asg & Hsolve & Hasg & _ & _ & Hfun).
  - done.
  - reflexivity.
  - reflexivity.
  - by vm_compute.
  - cbn. lia.
  - reflexivity.
  - exists asg. split; [exact Hsolve|]. split; [|exact Hfun].
    rewrite Hasg. by vm_compute.
Defined.

(** C10. Two robots of one name, both with a 1 in their rows (and no
    later robot of that name with a 1): the assignment returned by
    [solve_task_allocation] holds, under that name, the later robot's
    skill and nothing else, so the earlier robot's choice is gone; the
    keys are pairwise distinct names of robots, and there are no more
    entries than distinct names. *)
Theorem solve_task_allocation_same_name_overwrites (rand : nat → Q)
    (linprog : scipy.LinProg → option scipy.OptimizeResult)
    (robots : list Robot) (skills : list string) (w : World)
    (res : scipy.OptimizeResult) (M : list (list Z)) (r1 r2 i1 i2 : nat) :
  skills ≠ [] →
  linprog (allocation_problem (length robots) (length skills)
             (calculate_weights rand (rng_calls w) robots skills)) = Some res →
  scipy.success res = true →
  np.reshape (length robots) (length skills) (map np.round (scipy.x res)) = Some M →
  (r1 < r2)%nat → (r2 < length robots)%nat →
  name (robots !!! r1) = name (robots !!! r2) →
  first_one (M !!! r1) = Some i1 →
  first_one (M !!! r2) = Some i2 →
  (∀ r', (r2 < r')%nat → name (robots !!! r') = name (robots !!! r2) →
         first_one (M !!! r') = None) →
  ∃ asg s2,
    (solve_task_allocation rand linprog robots skills w).1 = Some asg
    ∧ skills !! i2 = Some s2
    ∧ (name (robots !!! r1), s2) ∈ asg
    ∧ (∀ s, (name (robots !!! r1), s) ∈ asg → s = s2)
    ∧ NoDup asg.*1
    ∧ (∀ n, n ∈ asg.*1 → n ∈ name <$> robots)
    ∧ (length asg ≤ size (list_to_set (name <$> robots) : gset string))%nat.
Proof.
  intros Hne Hres Hsucc HM Hlt Hr2 Hname _ H2 Hlater.
  exists (decode_assignments robots skills M), (skills !!! i2).
  split; [by apply (solve_task_allocation_decoded rand linprog robots skills w res M)|].
  pose proof (proj1 (first_one_Some _ _) H2) as [Hat _].
  pose proof (proj1 (reshape_entry _ _ _ _ _ _ _ HM Hr2) Hat) as [Hi2 _].
  assert (Hin : (name (robots !!! r1), skills !!! i2) ∈ decode_assignments robots skills M).
  { rewrite Hname. by apply decode_lookup_last. }
  split; [by apply list_lookup_lookup_total_lt|]. split; [done|].
  split; [intros s Hs; by eapply decode_functional|].
  split; [apply decode_keys_NoDup|]. split; [|apply decode_length].
  intros n [[n' s] [-> Hns]]%list_elem_of_fmap. cbn.
  apply decode_lookup_inv in Hns as (r & _ & Hr & <- & _).
  apply list_elem_of_fmap. exists (robots !!! r). split; [done|].
  by apply list_elem_of_lookup_total_2.
Qed.

Lemma solve_task_allocation_same_name_overwrites_witness :
  let robots := [ {| name := "Arm_Robot_1"; type := "arm_robot" |};
                  {| name := "Arm_Robot_1"; type := "arm_robot" |} ] in
  let skills := ["pick_and_place(red block, blue block)";
                 "pick_and_place(green block, corner of the table)"] in
  let linprog := λ _ : scipy.LinProg,
      Some {| scipy.success := true; scipy.x := [1; 0; 0; 1]%Q |} in
  ∃ asg, (solve_task_allocation (λ _, 1 # 2)%Q linprog robots skills world0).1 = Some asg
    ∧ ("Arm_Robot_1", "pick_and_place(green block, corner of the table)") ∈ asg
    ∧ (length asg ≤ 1)%nat.
Proof.
  intros robots skills linprog.
  destruct (solve_task_allocation_same_name_overwrites (λ _, 1 # 2)%Q linprog robots
              skills world0 {| scipy.success := true; scipy.x := [1; 0; 0; 1]%Q |}
              [[1; 0]; [0; 1]]%Z 0 1 0 1)
    as (asg & s2 & Hsolve & Hs2 & Hin & _ & _ & _ & Hlen).
  - done.
  - reflexivity.
  - reflexivity.
  - by vm_compute.
  - lia.
  - cbn. lia.
  - reflexivity.
  - reflexivity.
  - reflexivity.
  - intros [|[|r']] Hr' _; [lia..|]. reflexivity.
  - exists asg. split; [exact Hsolve|]. injection Hs2 as <-. split; [exact Hin|].
    etrans; [exact Hlen|].
    cbn. rewrite union_idemp_L, union_empty_r_L, size_singleton. lia.
Defined.

(** X21. Lines 61-101 for an answer of the solver that satisfies the
    constraints it was given, the frontier skills being pairwise distinct:
    the returned assignment gives each robot name one skill and each skill
    one robot name, and every selected pair is a robot and a skill whose
    entry of the solution rounds to 1 (it lies strictly between 1/2 and
    3/2).  The weight of the pair is not looked at. *)
Theorem solve_task_allocation_exclusive (rand : nat → Q)
    (linprog : scipy.LinProg → option scipy.OptimizeResult)
    (robots : list Robot) (skills : list string) (w : World)
    (asg : dict.t) :
  NoDup skills →
  (solve_task_allocation rand linprog robots skills w).1 = Some asg →
  (∀ res,
     linprog (allocation_problem (length robots) (length skills)
                (calculate_weights rand (rng_calls w) robots skills)) = Some res →
     scipy.success res = true →
     lp_feasible (allocation_problem (length robots) (length skills)
                    (calculate_weights rand (rng_calls w) robots skills))
                 (scipy.x res)) →
  (∀ n s1 s2, (n, s1) ∈ asg → (n, s2) ∈ asg → s1 = s2)
  ∧ (∀ n1 n2 s, (n1, s) ∈ asg → (n2, s) ∈ asg → n1 = n2)
  ∧ (∀ n s, (n, s) ∈ asg →
       ∃ r k res v,
         (r < length robots)%nat ∧ name (robots !!! r) = n ∧ skills !! k = Some s
         ∧ linprog (allocation_problem (length robots) (length skills)
                      (calculate_weights rand (rng_calls w) robots skills)) = Some res
         ∧ scipy.x res !! (r * length skills + k)%nat = Some v
         ∧ np.round v = 1%Z ∧ (1 # 2 < v)%Q ∧ (v < 3 # 2)%Q).
Proof.
  intros Hnd Hsolve Hfeas.
  apply solve_task_allocation_Some in Hsolve as [->|(res & M & Hres & Hs & HM & ->)].
  { repeat split; intros *; by intros ?%elem_of_nil. }
  specialize (Hfeas res Hres Hs). split; [apply decode_functional|]. split.
  - intros n1 n2 s H1 H2.
    destruct (decode_entry _ _ _ _ _ _ HM H1) as (r1 & k1 & v1 & Hr1 & Hk1 & <- & Hs1 & Hx1 & Hv1).
    destruct (decode_entry _ _ _ _ _ _ HM H2) as (r2 & k2 & v2 & Hr2 & Hk2 & <- & Hs2 & Hx2 & Hv2).
    pose proof (NoDup_lookup _ _ _ _ Hnd Hs1 Hs2) as <-.
    apply round_one_inv in Hv1 as [Hv1 _]. apply round_one_inv in Hv2 as [Hv2 _].
    by rewrite (column_exclusive _ _ _ _ Hfeas r1 r2 k1 v1 v2).
  - intros n s Hl.
    destruct (decode_entry _ _ _ _ _ _ HM Hl) as (r & k & v & Hr & Hk & Hn & Hsk & Hx & Hv).
    exists r, k, res, v. pose proof (round_one_inv _ Hv) as [? ?]. done.
Qed.

Lemma solve_task_allocation_exclusive_witness :
  let robots := [ {| name := "Arm_Robot_1"; type := "arm_robot" |};
                  {| name := "Mobile_Robot_1"; type := "mobile_robot" |} ] in
  let skills := ["pick_and_place(red block, blue block)"; "transport(table)"] in
  let linprog := λ _ : scipy.LinProg,
      Some {| scipy.success := true; scipy.x := [1; 0; 0; 1]%Q |} in
  ∃ asg, (solve_task_allocation (λ _, 1 # 2)%Q linprog robots skills world0).1 = Some asg
    ∧ ("Arm_Robot_1", "pick_and_place(red block, blue block)") ∈ asg
    ∧ ∀ n1 n2 s, (n1, s) ∈ asg → (n2, s) ∈ asg → n1 = n2.
Proof.
  intros robots skills linprog. eexists. split; [vm_compute; reflexivity|].
  split; [by left|].
  refine (proj1 (proj2 (solve_task_allocation_exclusive (λ _, 1 # 2)%Q linprog
            robots skills world0 _ _ _ _))).
  - apply (bool_decide_unpack _). by vm_compute.
  - vm_compute. reflexivity.
  - intros res [= <-] _. split; [reflexivity|]. split.
    + repeat constructor; by vm_compute.
    + repeat constructor; by vm_compute.
Defined.

(** The decoding does not read the weights.  One mobile robot and one
    pick-and-place skill: the pair is incompatible and its weight is 0
    whatever distance is drawn, so the objective is constant and both
    [x = 0] and [x = 1] are optimal for the program handed to the solver.
    Were [x = 1] the answer, the pair would be returned; which optimal
    solution [linprog] returns is not decided by this code. *)
Lemma zero_weight_pair_depends_on_solver :
  let robots := [ {| name := "Mobile_Robot_1"; type := "mobile_robot" |} ] in
  let skills := ["pick_and_place(red block, blue block)"] in
  let answer := λ x (_ : scipy.LinProg),
      Some {| scipy.success := true; scipy.x := [x] |} in
  let rand := λ _ : nat, (1 # 2)%Q in
  calculate_weights rand 0 robots skills = [[0%Q]]
  ∧ lp_optimal (allocation_problem 1 1 (calculate_weights rand 0 robots skills)) [1%Q]
  ∧ lp_optimal (allocation_problem 1 1 (calculate_weights rand 0 robots skills)) [0%Q]
  ∧ (solve_task_allocation rand (answer 1%Q) robots skills world0).1
    = Some [("Mobile_Robot_1", "pick_and_place(red block, blue block)")]
  ∧ (solve_task_allocation rand (answer 0%Q) robots skills world0).1 = Some [].
Proof.
  intros robots skills answer rand. split; [by vm_compute|].
  assert (Hopt : ∀ v, (0 <= v)%Q → (v <= 1)%Q →
            lp_optimal (allocation_problem 1 1 (calculate_weights rand 0 robots skills)) [v]).
  { intros v H0 H1. split.
    - split; [reflexivity|]. split; repeat constructor; cbn; unfold dot; cbn; lra.
    - intros y (Hlen & _ & _). cbn in Hlen.
      destruct y as [|y0 [|? ?]]; [done| |done].
      assert (Hw : calculate_weights rand 0 robots skills = [[0%Q]]) by (by vm_compute).
      rewrite Hw. cbn. unfold dot. cbn. lra. }
  split; [apply Hopt; lra|]. split; [apply Hopt; lra|].
  split; vm_compute; reflexivity.
Qed.

(** C5 (what the code does). One mobile robot, one pick-and-place skill,
    a solver that answers with the optimal solution [x = 0]: every round
    has a non-empty frontier and an empty assignment, prints the waiting
    line and starts over on the same graph.  No number of rounds ends the
    loop, and the driver run with an oracle that names this skill does not
    return either, whatever budget it is given. *)
Theorem stalled_round_repeats_forever (rand : nat → Q) (fuel : nat) :
  let robots := [ {| name := "Mobile_Robot_1"; type := "mobile_robot" |} ] in
  let skill := "pick_and_place(red block, blue block)" in
  let g := {| nodes := [skill]; edges := [] |} in
  let linprog := λ _ : scipy.LinProg,
      Some {| scipy.success := true; scipy.x := [0]%Q |} in
  let gemini := λ k, match k with
                     | 0%nat => Text skill
                     | 1%nat => Text "done"
                     | _ => Text "Dependencies: None"
                     end in
  get_executable_skills g = [skill]
  ∧ (∀ k, lp_optimal (allocation_problem 1 1 (calculate_weights rand k robots [skill]))
            [0%Q])
  ∧ (∀ k w, ∃ w', planner_loop rand linprog fuel robots g k w
                  = (OutOfFuel, g, (k + fuel)%nat, w'))
  ∧ (main_planner gemini rand linprog (S (S fuel))
       "Stack the red block on the blue block." robots world0).1 = OutOfFuel.
Proof.
  intros robots skill g linprog gemini.
  assert (Hsolve : ∀ w, (solve_task_allocation rand linprog robots
                           (get_executable_skills g) w).1 = Some dict.empty).
  { intros w. vm_compute. reflexivity. }
  assert (Hstall : ∀ fuel k w, ∃ w', planner_loop rand linprog fuel robots g k w
                                     = (OutOfFuel, g, (k + fuel)%nat, w')).
  { apply planner_loop_stalls; [done|by vm_compute|done]. }
  split; [by vm_compute|]. split; [|split; [apply Hstall|]].
  - intros k. split.
    + split; [reflexivity|]. split; repeat constructor; by vm_compute.
    + intros y (Hlen & _ & _). cbn in Hlen.
      destruct y as [|y0 [|? ?]]; [done| |done].
      assert (Hw : calculate_weights rand k robots [skill] = [[0%Q]]) by (by vm_compute).
      rewrite Hw. vm_compute. destruct y0 as [[|p|p] d]; done.
  - unfold main_planner.
    assert (∃ w1, generate_skill_list gemini (S (S fuel)) get_skill_set
                    (print (ProcessingInstruction "Stack the red block on the blue block.")
                       world0) = Some ([skill], w1) ∧ llm_calls w1 = 2%nat)
      as (w1 & Hsl & Hc1) by (eexists; split; vm_compute; reflexivity).
    rewrite Hsl.
    assert (generate_dependency_graph gemini [skill]
              (print GeneratingDependencyGraph (skill_list_printed [skill] w1))
            = (g, print DagGenerated
                    (llm_called (print GeneratingDependencyGraph
                                   (skill_list_printed [skill] w1))))) as Hg.
    { cbn. rewrite Hc1. by vm_compute. }
    rewrite Hg. cbn [no_nodes nodes g].
    match goal with
    | |- context [planner_loop rand linprog ?f robots g ?k ?w] =>
        destruct (Hstall f k w) as [w' Hw']
    end.
    by rewrite Hw'.
Qed.

(** ** What a round may assign and remove *)

Lemma size_list_to_set_le (l : list string) :
  (size (list_to_set l : gset string) ≤ length l)%nat.
Proof.
  induction l as [|x l IH]; cbn [list_to_set length].
  - by rewrite size_empty.
  - rewrite size_union_alt, size_singleton.
    assert (size (list_to_set l ∖ {[x]} : gset string) ≤ size (list_to_set l : gset string))%nat
      by (apply subseteq_size, subseteq_difference_l; done).
    lia.
Qed.

Section Rounds.

Variable rand : nat → Q.
Variable linprog : scipy.LinProg → option scipy.OptimizeResult.

Lemma solve_task_allocation_world (robots : list Robot) (skills : list string) (w : World) :
  let r := solve_task_allocation rand linprog robots skills w in
  llm_calls r.2 = llm_calls w
  ∧ rng_calls r.2
    = (if decide (skills = []) then rng_calls w
       else rng_calls w + length robots * length skills)%nat
  ∧ (stdout r.2 = stdout w ∨ stdout r.2 = stdout w ++ [OptimizationFailed]).
Proof.
  unfold solve_task_allocation. destruct skills as [|s ss]; [cbn; by auto|].
  rewrite bool_decide_eq_false_2 by done.
  rewrite (decide_False (P := s :: ss = [])) by done.
  destruct (linprog _) as [res|]; [|cbn; by auto].
  destruct (scipy.success res); cbn [negb].
  - destruct (np.reshape _ _ _); cbn; by auto.
  - cbn; by auto.
Qed.

Lemma solve_task_allocation_values (robots : list Robot) (skills : list string)
    (w : World) (asg : dict.t) (n s : string) :
  (solve_task_allocation rand linprog robots skills w).1 = Some asg →
  (n, s) ∈ asg →
  (∃ r, (r < length robots)%nat ∧ name (robots !!! r) = n) ∧ s ∈ skills.
Proof.
  intros Hsolve Hl.
  apply solve_task_allocation_Some in Hsolve as [->|(res & M & _ & _ & HM & ->)].
  { by apply elem_of_nil in Hl. }
  destruct (decode_entry _ _ _ _ _ _ HM Hl) as (r & k & _ & Hr & _ & Hn & Hk & _).
  split; [by exists r|by eapply list_elem_of_lookup_2].
Qed.

(** X4. Lines 92-101, whatever the solver answers: every entry of the
    returned assignment has the name of a robot of the list as key and a
    skill of the list it was given (the frontier) as value; there are no
    more entries than robots.  One random number is drawn per pair unless
    the skill list is empty, and then nothing is drawn. *)
Theorem solve_task_allocation_entries (robots : list Robot) (skills : list string)
    (w : World) (asg : dict.t) :
  (solve_task_allocation rand linprog robots skills w).1 = Some asg →
  (∀ n s, (n, s) ∈ asg →
     (∃ robot, robot ∈ robots ∧ name robot = n) ∧ s ∈ skills)
  ∧ (length asg ≤ length robots)%nat
  ∧ rng_calls (solve_task_allocation rand linprog robots skills w).2
    = (if decide (skills = []) then rng_calls w
       else rng_calls w + length robots * length skills)%nat.
Proof.
  intros Hsolve. split; [|split].
  - intros n s Hl.
    destruct (solve_task_allocation_values _ _ _ _ _ _ Hsolve Hl) as [(r & Hr & Hn) Hs].
    split; [|done]. exists (robots !!! r). split; [|done].
    by apply list_elem_of_lookup_total_2.
  - apply solve_task_allocation_Some in Hsolve as [->|(res & M & _ & _ & HM & ->)].
    { cbn. lia. }
    etrans; [apply decode_length|].
    etrans; [apply size_list_to_set_le|]. by rewrite length_fmap.
  - apply solve_task_allocation_world.
Qed.

End Rounds.

Lemma solve_task_allocation_entries_witness :
  let robots := [ {| name := "Arm_Robot_1"; type := "arm_robot" |};
                  {| name := "Mobile_Robot_1"; type := "mobile_robot" |} ] in
  let skills := ["pick_and_place(red block, blue block)"; "transport(table)"] in
  let linprog := λ _ : scipy.LinProg,
      Some {| scipy.success := true; scipy.x := [1; 1; 0; 17]%Q |} in
  ∃ asg, (solve_task_allocation (λ _, 1 # 2)%Q linprog robots skills world0).1 = Some asg
    ∧ (length asg ≤ 2)%nat.
Proof.
  intros robots skills linprog. eexists. split; [vm_compute; reflexivity|].
  refine (proj1 (proj2 (solve_task_allocation_entries (λ _, 1 # 2)%Q linprog
            robots skills world0 _ _))).
  vm_compute. reflexivity.
Defined.

(** ** The schedule produced by the round loop *)

Lemma not_elem_of_stdout_print (m m' : Msg) (w : World) :
  m ≠ m' → m ∉ stdout w → m ∉ stdout (print m' w).
Proof.
  intros Hne Hw. cbn. rewrite elem_of_app, list_elem_of_singleton. tauto.
Qed.

Ltac quiet :=
  repeat (apply not_elem_of_stdout_print; [by auto|]); try done.

Lemma not_elem_of_stdout_prints (m : Msg) (ms : list Msg) :
  ∀ w, m ∉ ms → m ∉ stdout w → m ∉ stdout (prints ms w).
Proof.
  induction ms as [|m' ms IH]; intros w Hms Hw; [done|].
  cbn. apply not_elem_of_cons in Hms as [Hne Hms].
  apply IH; [done|]. by apply not_elem_of_stdout_print.
Qed.

(** In a run that respects the edges, the predecessor of a task was done
    in an earlier round. *)
Lemma respects_precedence (rounds : list (list string)) :
  ∀ g, respects g rounds →
    ∀ u v i tasks, (u, v) ∈ edges g → rounds !! i = Some tasks → v ∈ tasks →
      ∃ j tasks', (j < i)%nat ∧ rounds !! j = Some tasks' ∧ u ∈ tasks'.
Proof.
  induction rounds as [|tasks0 rounds IH]; intros g Hres u v i tasks Huv Hi Hv; [done|].
  destruct Hres as [Hfr Hres]. destruct i as [|i]; cbn in Hi.
  - injection Hi as ->. apply Hfr, elem_of_get_executable_skills in Hv as [_ Hno].
    by apply Hno in Huv.
  - destruct (decide (u ∈ tasks0)) as [Hu|Hu].
    { exists 0%nat, tasks0. split; [lia|done]. }
    assert (Hv0 : v ∉ tasks0).
    { intros Hv0. apply Hfr, elem_of_get_executable_skills in Hv0 as [_ Hno].
      by apply Hno in Huv. }
    destruct (IH _ Hres u v i tasks) as (j & tasks' & Hj & Hlk & Hin); [|done..|].
    { by apply elem_of_edges_remove_nodes_from. }
    exists (S j), tasks'. split; [lia|done].
Qed.

Lemma respects_nodes (rounds : list (list string)) :
  ∀ g, respects g rounds → ∀ t, t ∈ concat rounds → t ∈ nodes g.
Proof.
  induction rounds as [|tasks0 rounds IH]; intros g Hres t Ht; cbn in Ht.
  - by apply elem_of_nil in Ht.
  - destruct Hres as [Hfr Hres]. apply elem_of_app in Ht as [Ht|Ht].
    + by apply Hfr, elem_of_get_executable_skills in Ht as [? _].
    + apply (IH _ Hres) in Ht. by apply elem_of_nodes_remove_nodes_from in Ht as [? _].
Qed.

Section Schedule.

Variable rand : nat → Q.
Variable linprog : scipy.LinProg → option scipy.OptimizeResult.

Lemma completed_lines_print (m : Msg) (w : World) :
  completed_lines (stdout (print m w))
  = completed_lines (stdout w)
    ++ match m with CompletedTasks l => [l] | _ => [] end.
Proof. unfold completed_lines. cbn. rewrite omap_app. by destruct m. Qed.

Lemma step_lines_print (m : Msg) (w : World) :
  step_lines (stdout (print m w))
  = step_lines (stdout w) ++ match m with Step n => [n] | _ => [] end.
Proof. unfold step_lines. cbn. rewrite omap_app. by destruct m. Qed.

Lemma solve_task_allocation_lines (robots : list Robot) (skills : list string)
    (w : World) :
  let r := solve_task_allocation rand linprog robots skills w in
  completed_lines (stdout r.2) = completed_lines (stdout w)
  ∧ step_lines (stdout r.2) = step_lines (stdout w).
Proof.
  intros r. destruct (solve_task_allocation_world rand linprog robots skills w)
    as (_ & _ & [Hs|Hs]);
    fold r in Hs; rewrite Hs; [done|].
  unfold completed_lines, step_lines. rewrite !omap_app. cbn. by rewrite !app_nil_r.
Qed.

Lemma planner_round_Break (robots : list Robot) (g : Graph) (k : nat) (w w1 : World) :
  planner_round rand linprog robots g k w = RoundBreak w1 →
  get_executable_skills g = [].
Proof.
  unfold planner_round. destruct (get_executable_skills g) as [|s ss]; [done|].
  destruct (solve_task_allocation _ _ _ _ _) as [[asg|] w2]; [|done].
  by destruct (dict.values asg).
Qed.

Lemma planner_round_world (robots : list Robot) (g : Graph) (k : nat) (w : World)
    (m : Msg) :
  (m ∉ stdout w) →
  (∀ n, m ≠ Step n) → (∀ l, m ≠ ExecutableSkills l) → (∀ a, m ≠ Assignments a) →
  (∀ l, m ≠ CompletedTasks l) → (∀ n, m ≠ RemainingTasks n) →
  (m ≠ NoTasksAssigned) → (m ≠ OptimizationFailed) →
  ∀ g1 w1, planner_round rand linprog robots g k w = RoundContinue g1 w1 →
    (m ∉ stdout w1) ∧ llm_calls w1 = llm_calls w.
Proof.
  intros Hw H1 H2 H3 H4 H5 H6 H7 g1 w1. unfold planner_round.
  destruct (get_executable_skills g) as [|s ss]; [done|].
  set (w0 := print (ExecutableSkills (s :: ss)) (print (Step k) w)).
  assert (Hw0 : m ∉ stdout w0) by (unfold w0; quiet).
  pose proof (solve_task_allocation_world rand linprog robots (s :: ss) w0) as (Hl & _ & Hs).
  destruct (solve_task_allocation rand linprog robots (s :: ss) w0) as [[asg|] w2]; [|done].
  cbn in Hl, Hs.
  assert (Hw2 : m ∉ stdout w2).
  { destruct Hs as [-> | ->]; [done|].
    rewrite elem_of_app, list_elem_of_singleton. tauto. }
  destruct (dict.values asg) as [|t ts]; intros [= <- <-].
  - split; [quiet|done].
  - split; [quiet|done].
Qed.

(** A round that goes on: the tasks it completed are frontier skills (the
    values of the assignment, in the order of the dict), the graph lost
    them, line 37 printed the step and line 58 printed the tasks unless
    there were none. *)
Lemma planner_round_Continue (robots : list Robot) (g : Graph) (k : nat) (w w1 : World)
    (g1 : Graph) :
  planner_round rand linprog robots g k w = RoundContinue g1 w1 →
  ∃ tasks, g1 = nx.remove_nodes_from g tasks
           ∧ (∀ t, t ∈ tasks → t ∈ get_executable_skills g)
           ∧ completed_lines (stdout w1)
             = completed_lines (stdout w) ++ match tasks with [] => [] | _ => [tasks] end
           ∧ step_lines (stdout w1) = step_lines (stdout w) ++ [k]
           ∧ (tasks ≠ [] → ∃ out, stdout w1 = out ++ [RemainingTasks (length (nodes g1))]).
Proof.
  unfold planner_round.
  destruct (get_executable_skills g) as [|s ss] eqn:Hf; [done|].
  set (w0 := print (ExecutableSkills (s :: ss)) (print (Step k) w)).
  pose proof (solve_task_allocation_lines robots (s :: ss) w0) as [Hc Hst].
  destruct (solve_task_allocation _ _ _ _ _) as [[asg|] w2] eqn:Hsolve; [|done].
  cbn [snd] in Hc, Hst.
  assert (Hval : ∀ t, t ∈ dict.values asg → t ∈ s :: ss).
  { intros t [n Hin]%elem_of_dict_values.
    eapply (solve_task_allocation_values rand linprog robots (s :: ss)); [|exact Hin].
    by rewrite Hsolve. }
  assert (Hc0 : completed_lines (stdout w2) = completed_lines (stdout w)).
  { rewrite Hc. unfold w0. by rewrite !completed_lines_print, !app_nil_r. }
  assert (Hs0 : step_lines (stdout w2) = step_lines (stdout w) ++ [k]).
  { rewrite Hst. unfold w0. by rewrite !step_lines_print, !app_nil_r. }
  destruct (dict.values asg) as [|t ts]; intros [= <- <-].
  - exists []. split; [done|]. split; [by intros t Ht%elem_of_nil|].
    rewrite !completed_lines_print, !step_lines_print, !app_nil_r. done.
  - exists (t :: ts). split; [done|]. split; [done|].
    rewrite !completed_lines_print, !step_lines_print, !app_nil_r.
    split; [by rewrite Hc0|]. split; [done|]. intros _. by eexists.
Qed.

End Schedule.

(** ** Progress of a round *)

Lemma pair_weight_can_perform (robot : Robot) (skill : string) (d : Q) :
  pair_weight robot skill d
  = if can_perform robot skill then (1 / (d + (1 # 1000000)))%Q else 0%Q.
Proof.
  unfold pair_weight, can_perform.
  destruct (bool_decide (type robot = "arm_robot") && Text.contains "pick_and_place" skill);
    [done|].
  by destruct (bool_decide (type robot = "mobile_robot") && Text.contains "transport" skill).
Qed.

(** A pair the robot can perform has a positive weight, whatever distance
    in [0, 1) is drawn. *)
Lemma pair_weight_pos (robot : Robot) (skill : string) (d : Q) :
  can_perform robot skill = true → (0 <= d)%Q → (0 < pair_weight robot skill d)%Q.
Proof.
  intros Hc Hd. rewrite pair_weight_can_perform, Hc.
  unfold Qdiv. rewrite Qmult_1_l. apply Qinv_lt_0_compat. lra.
Qed.

Lemma pair_weight_zero (robot : Robot) (skill : string) (d : Q) :
  can_perform robot skill = false → pair_weight robot skill d = 0%Q.
Proof. intros Hc. by rewrite pair_weight_can_perform, Hc. Qed.

Lemma dot_unit0_le_one row n : binary row → (dot row (unit0 n) <= 1)%Q.
Proof.
  intros Hrow. unfold unit0. destruct Hrow as [|a row Ha Hrow]; [cbn; lra|].
  rewrite dot_cons, dot_zeros_r. destruct Ha as [-> | ->]; lra.
Qed.

Lemma unit0_feasible (nr ns : nat) (W : list (list Q)) :
  (0 < nr * ns)%nat → lp_feasible (allocation_problem nr ns W) (unit0 (nr * ns)).
Proof.
  intros Hpos. split; [|split]; cbn.
  - rewrite !length_replicate. lia.
  - apply Forall2_app.
    + apply Forall2_replicate_r; [apply A_eq_skill_shape|].
      eapply Forall_impl; [apply A_eq_skill_binary|].
      intros row Hrow. by apply dot_unit0_le_one.
    + apply Forall2_replicate_r; [apply A_eq_robot_shape|].
      eapply Forall_impl; [apply A_eq_robot_binary|].
      intros row Hrow. by apply dot_unit0_le_one.
  - apply Forall2_replicate_r; [unfold unit0; cbn; rewrite length_replicate; lia|].
    unfold unit0. constructor; [cbn; lra|].
    apply Forall_replicate. cbn. lra.
Qed.

Section Progress.

Variable rand : nat → Q.
Variable linprog : scipy.LinProg → option scipy.OptimizeResult.
Hypothesis rand_nonneg : ∀ i, (0 <= rand i)%Q.

(** With a positive weight on the first pair, an optimal solution with
    entries 0 or 1 has an entry 1. *)
Lemma integral_optimum_has_one (k : nat) (r0 : Robot) (rs : list Robot)
    (s0 : string) (ss : list string) (x : list Q) :
  can_perform r0 s0 = true →
  lp_optimal (allocation_problem (length (r0 :: rs)) (length (s0 :: ss))
                (calculate_weights rand k (r0 :: rs) (s0 :: ss))) x →
  Forall (λ v, (v == 0)%Q ∨ (v == 1)%Q) x →
  ∃ idx v, x !! idx = Some v ∧ (v == 1)%Q.
Proof.
  intros Hc [Hfeas Hopt] Hint.
  set (nr := length (r0 :: rs)) in *. set (ns := length (s0 :: ss)) in *.
  set (W := calculate_weights rand k (r0 :: rs) (s0 :: ss)) in *.
  assert (Hpos : (0 < nr * ns)%nat) by (subst nr ns; cbn; lia).
  specialize (Hopt _ (unit0_feasible nr ns W Hpos)).
  assert (Hc0 : ∃ c', scipy.c (allocation_problem nr ns W)
                      = (- pair_weight r0 s0 (rand (k + (0 * ns + 0))))%Q :: c')
    by (eexists; reflexivity).
  destruct Hc0 as [c' Hc0]. rewrite Hc0 in Hopt.
  unfold unit0 in Hopt. rewrite (dot_cons _ c' _ (replicate _ _)), dot_zeros_r in Hopt.
  pose proof (pair_weight_pos r0 s0 _ Hc (rand_nonneg (k + (0 * ns + 0)))) as Hw.
  destruct (Forall_Exists_dec (λ v, (v == 0)%Q) (λ v, ¬ (v == 0)%Q)
              (λ v, Qeq_dec v 0) x) as [Hall|Hex].
  - rewrite (dot_all_zero _ x Hall) in Hopt. lra.
  - apply Exists_exists in Hex as (v & Hin & Hv).
    apply list_elem_of_lookup_1 in Hin as [idx Hidx].
    exists idx, v. split; [done|].
    destruct (Forall_lookup_1 _ _ _ _ Hint Hidx); [done|done].
Qed.

Lemma decode_nonempty (robots : list Robot) (skills : list string)
    (M : list (list Z)) (r i : nat) :
  (r < length robots)%nat → first_one (M !!! r) = Some i →
  decode_assignments robots skills M ≠ [].
Proof.
  intros Hr Hi. unfold decode_assignments.
  assert (Hin : r ∈ seq 0 (length robots)) by (apply elem_of_seq; lia).
  assert (Hset : ∀ (d : dict.t) k v, dict.setitem d k v ≠ []).
  { intros [|[k' v'] d] k v; cbn; [done|]. by case_bool_decide. }
  assert (Hgen : ∀ rs (a : dict.t),
             (a ≠ [] ∨ r ∈ rs) → foldl (decode_step robots skills M) a rs ≠ []).
  { induction rs as [|r' rs IH]; intros a [Ha|Hrs]; cbn [foldl];
      [done|by apply elem_of_nil in Hrs| |].
    - apply IH. left. unfold decode_step.
      destruct (np.where_eq 0 (M !!! r') 1%Z); [done|apply Hset].
    - apply IH. apply elem_of_cons in Hrs as [<-|Hrs]; [left|by right].
      unfold decode_step. destruct (where_eq_head_cons _ _ Hi) as [rest ->].
      apply Hset. }
  apply Hgen. by right.
Qed.

(** The round's assignment: not empty, and made of frontier skills. *)
Lemma solve_task_allocation_progress (robots : list Robot) (skills : list string)
    (w : World) :
  robots ≠ [] → skills ≠ [] →
  (∀ robot skill, robot ∈ robots → skill ∈ skills → can_perform robot skill = true) →
  solver_integral_optimum linprog
    (allocation_problem (length robots) (length skills)
       (calculate_weights rand (rng_calls w) robots skills)) →
  ∃ asg w', solve_task_allocation rand linprog robots skills w = (Some asg, w')
    ∧ asg ≠ [] ∧ ∀ n s, (n, s) ∈ asg → s ∈ skills.
Proof.
  intros Hr Hs Hcan (res & Hres & Hsucc & Hopt & Hint).
  destruct robots as [|r0 rs]; [done|]. destruct skills as [|s0 ss]; [done|].
  destruct (integral_optimum_has_one (rng_calls w) r0 rs s0 ss (scipy.x res))
    as (idx & v & Hidx & Hv); [apply Hcan; by left|done|done|].
  set (robots := r0 :: rs) in *. set (skills := s0 :: ss) in *.
  pose proof (feasible_length _ _ _ _ (proj1 Hopt)) as Hlen.
  assert (Hns : (0 < length skills)%nat) by (subst skills; cbn; lia).
  unfold solve_task_allocation. rewrite bool_decide_eq_false_2 by lia.
  rewrite Hres, Hsucc. cbn [negb].
  destruct (np.reshape (length robots) (length skills) (map np.round (scipy.x res)))
    as [M|] eqn:HM.
  2:{ unfold np.reshape in HM. rewrite length_map, bool_decide_eq_true_2 in HM; done. }
  eexists _, _. split; [reflexivity|]. split.
  - pose proof (lookup_lt_Some _ _ _ Hidx) as Hlt. rewrite Hlen in Hlt.
    assert (Hr0 : (idx / length skills < length robots)%nat).
    { apply Nat.Div0.div_lt_upper_bound. lia. }
    assert (Hat : (M !!! (idx / length skills)%nat) !! (idx mod length skills)%nat
                  = Some 1%Z).
    { apply (reshape_entry _ _ _ _ _ _ _ HM Hr0). split.
      - apply Nat.mod_upper_bound. lia.
      - replace (idx / length skills * length skills + idx mod length skills)%nat
          with idx by (pose proof (Nat.div_mod_eq idx (length skills)); lia).
        change (map np.round (scipy.x res)) with (np.round <$> scipy.x res).
        rewrite list_lookup_fmap, Hidx. cbn. by rewrite round_one. }
    destruct (first_one_exists _ _ Hat) as (i & _ & Hi).
    by eapply decode_nonempty.
  - intros n s Hl.
    destruct (decode_entry _ _ _ _ _ _ HM Hl) as (_ & k & _ & _ & _ & _ & Hk & _).
    by eapply list_elem_of_lookup_2.
Qed.

End Progress.

(** ** Termination of the round loop *)

Lemma remove_nodes_from_app g l1 l2 :
  nx.remove_nodes_from (nx.remove_nodes_from g l1) l2 = nx.remove_nodes_from g (l1 ++ l2).
Proof. unfold nx.remove_nodes_from. by rewrite foldl_app. Qed.

Section Termination.

Variable rand : nat → Q.
Variable linprog : scipy.LinProg → option scipy.OptimizeResult.
Variables (robots : list Robot) (g : Graph).

Hypothesis g_wf : wf_graph g.
Hypothesis g_acyclic : acyclic g.
Hypothesis robots_nonempty : robots ≠ [].
Hypothesis rand_nonneg : ∀ i, (0 <= rand i)%Q.
Hypothesis fully_connected :
  ∀ robot skill, robot ∈ robots → skill ∈ nodes g → can_perform robot skill = true.
Hypothesis solver_ok :
  ∀ completed j,
    let frontier := get_executable_skills (nx.remove_nodes_from g completed) in
    frontier ≠ [] →
    solver_integral_optimum linprog
      (allocation_problem (length robots) (length frontier)
         (calculate_weights rand j robots frontier)).

(** One round on what is left of the graph completes at least one task. *)
Lemma planner_round_progress (completed : list string) (k : nat) (w : World) :
  let g1 := nx.remove_nodes_from g completed in
  nodes g1 ≠ [] →
  ∃ tasks w', planner_round rand linprog robots g1 k w
              = RoundContinue (nx.remove_nodes_from g1 tasks) w'
    ∧ (∀ t, t ∈ tasks → t ∈ get_executable_skills g1)
    ∧ (nx.number_of_nodes (nx.remove_nodes_from g1 tasks) < nx.number_of_nodes g1)%nat
    ∧ completed_lines (stdout w') = completed_lines (stdout w) ++ [tasks]
    ∧ step_lines (stdout w') = step_lines (stdout w) ++ [k].
Proof.
  intros g1 Hne.
  assert (Hwf : wf_graph g1) by (by apply wf_remove_nodes_from).
  assert (Hac : acyclic g1) by (by apply acyclic_remove_nodes_from).
  pose proof (frontier_nonempty g1 Hwf Hac Hne) as Hfr.
  assert (Hstep : ∃ g2 w2, planner_round rand linprog robots g1 k w = RoundContinue g2 w2
                    ∧ (length (nodes g2) < length (nodes g1))%nat).
  { unfold planner_round.
    destruct (get_executable_skills g1) as [|s ss] eqn:Hf; [done|].
    rewrite <- Hf in *.
    set (w1 := print (ExecutableSkills _) _).
    destruct (solve_task_allocation_progress rand linprog rand_nonneg robots
                (get_executable_skills g1) w1) as (asg & w' & Hsolve & Hnon & Hval);
      [done|done| |by apply solver_ok|].
    { intros robot skill Hr Hs. apply fully_connected; [done|].
      apply elem_of_get_executable_skills in Hs as [Hs _].
      by apply elem_of_nodes_remove_nodes_from in Hs as [Hs _]. }
    rewrite Hsolve.
    destruct (dict.values asg) as [|t ts] eqn:Htasks.
    { apply dict_values_nil in Htasks. done. }
    eexists _, _. split; [reflexivity|].
    assert (Ht : t ∈ dict.values asg) by (rewrite Htasks; by left).
    apply elem_of_dict_values in Ht as [n Hin]. apply Hval in Hin.
    apply elem_of_get_executable_skills in Hin as [Hin _].
    apply (length_nodes_remove_nodes_from_lt (t :: ts) g1 t); [by left|done]. }
  destruct Hstep as (g2 & w2 & Hround & Hlt).
  destruct (planner_round_Continue rand linprog robots g1 k w w2 g2 Hround)
    as (tasks & -> & Hfrontier & Hc & Hs & _).
  exists tasks, w2. split; [done|]. split; [done|]. split; [done|]. split; [|done].
  destruct tasks as [|t ts]; [cbn in Hlt; lia|done].
Qed.

Lemma planner_loop_from (fuel : nat) :
  ∀ completed k w,
    let g1 := nx.remove_nodes_from g completed in
    (length (nodes g1) ≤ fuel)%nat →
    ∃ rounds w',
      planner_loop rand linprog fuel robots g1 k w
      = (Returned, nx.remove_nodes_from g1 (concat rounds), (k + length rounds)%nat, w')
      ∧ nodes (nx.remove_nodes_from g1 (concat rounds)) = []
      ∧ (length rounds ≤ length (nodes g1))%nat
      ∧ completed_lines (stdout w') = completed_lines (stdout w) ++ rounds
      ∧ step_lines (stdout w') = step_lines (stdout w) ++ seq (S k) (length rounds)
      ∧ respects g1 rounds ∧ shrinks g1 rounds
      ∧ last (stdout w') = Some PlanningComplete.
Proof.
  assert (Hbase : ∀ fuel (g1 : Graph) k w, nodes g1 = [] →
            ∃ rounds w',
              planner_loop rand linprog fuel robots g1 k w
              = (Returned, nx.remove_nodes_from g1 (concat rounds),
                 (k + length rounds)%nat, w')
              ∧ nodes (nx.remove_nodes_from g1 (concat rounds)) = []
              ∧ (length rounds ≤ length (nodes g1))%nat
              ∧ completed_lines (stdout w') = completed_lines (stdout w) ++ rounds
              ∧ step_lines (stdout w') = step_lines (stdout w) ++ seq (S k) (length rounds)
              ∧ respects g1 rounds ∧ shrinks g1 rounds
              ∧ last (stdout w') = Some PlanningComplete).
  { intros fuel' g1 k w Hn. exists [], (print PlanningComplete w).
    change (nx.remove_nodes_from g1 (concat [])) with g1.
    split.
    { destruct fuel'; cbn [planner_loop]; unfold nx.number_of_nodes; rewrite Hn;
        cbn [length Nat.ltb Nat.leb]; by rewrite Nat.add_0_r. }
    split; [done|]. split; [cbn; lia|].
    rewrite completed_lines_print, step_lines_print, !app_nil_r.
    do 4 (split; [done|]). cbn. by rewrite last_snoc. }
  induction fuel as [|fuel IH]; intros completed k w g1 Hlen.
  - apply Hbase. destruct (nodes g1); [done|cbn in Hlen; lia].
  - destruct (decide (nodes g1 = [])) as [Hn0|Hn0]; [by apply Hbase|].
    destruct (nodes g1) as [|n l] eqn:Hn; [done|].
    + destruct (planner_round_progress completed (S k) w)
        as (tasks & w1 & Hround & Hfr & Hlt & Hc1 & Hs1).
      { fold g1. by rewrite Hn. }
      fold g1 in Hround, Hlt, Hfr.
      cbn [planner_loop]. unfold nx.number_of_nodes in Hlt |- *. rewrite Hn.
      cbn [length Nat.ltb Nat.leb]. rewrite Hround.
      rewrite Hn in Hlt.
      assert (Hg2 : nx.remove_nodes_from g1 tasks
                    = nx.remove_nodes_from g (completed ++ tasks)).
      { unfold g1. by rewrite remove_nodes_from_app. }
      destruct (IH (completed ++ tasks) (S k) w1)
        as (rounds & w' & Hloop & Hg' & Hr & Hc & Hs & Hres & Hsh & Hlast).
      { rewrite <- Hg2. cbn in Hlt, Hlen |- *. lia. }
      cbn zeta in Hloop, Hg', Hr, Hres, Hsh. rewrite <- Hg2 in Hloop, Hg', Hr, Hres, Hsh.
      exists (tasks :: rounds), w'. cbn [concat length].
      rewrite <- remove_nodes_from_app, Hloop.
      split; [do 2 f_equal; lia|]. split; [done|].
      split; [cbn in Hlt, Hr |- *; lia|].
      split; [rewrite Hc, Hc1, <- app_assoc; done|].
      split; [rewrite Hs, Hs1, <- app_assoc; done|].
      split; [done|]. split; [|done].
      split; [|done]. unfold nx.number_of_nodes. rewrite Hn. done.
Qed.

End Termination.

(** C7. A well-formed acyclic graph of N nodes, at least one robot, every
    robot able to perform every skill, distances drawn from [0, 1), a
    solver that answers each round's program with a 0/1 optimum.  Given
    at least N iterations, the round loop returns, having run rounds that
    are exactly the [Completed Tasks] lines it printed, one [Step] line
    each: there are at most N of them, each completed frontier skills of
    the graph left by the rounds before it and removed at least one node,
    every node of the graph was completed, the graph returned is the
    graph without the completed tasks and has no node left, and the
    completion line is the last one printed. *)
Theorem planner_loop_completes (rand : nat → Q)
    (linprog : scipy.LinProg → option scipy.OptimizeResult)
    (robots : list Robot) (g : Graph) (fuel k : nat) (w : World) :
  wf_graph g → acyclic g → robots ≠ [] →
  (∀ i, (0 <= rand i)%Q) →
  (∀ robot skill, robot ∈ robots → skill ∈ nodes g → can_perform robot skill = true) →
  (∀ completed j,
     let frontier := get_executable_skills (nx.remove_nodes_from g completed) in
     frontier ≠ [] →
     solver_integral_optimum linprog
       (allocation_problem (length robots) (length frontier)
          (calculate_weights rand j robots frontier))) →
  (nx.number_of_nodes g ≤ fuel)%nat →
  ∃ (rounds : list (list string)) (w' : World),
    planner_loop rand linprog fuel robots g k w
    = (Returned, nx.remove_nodes_from g (concat rounds), (k + length rounds)%nat, w')
    ∧ nx.number_of_nodes (nx.remove_nodes_from g (concat rounds)) = 0%nat
    ∧ (length rounds ≤ nx.number_of_nodes g)%nat
    ∧ completed_lines (stdout w') = completed_lines (stdout w) ++ rounds
    ∧ step_lines (stdout w') = step_lines (stdout w) ++ seq (S k) (length rounds)
    ∧ respects g rounds
    ∧ shrinks g rounds
    ∧ (∀ n, n ∈ nodes g → n ∈ concat rounds)
    ∧ last (stdout w') = Some PlanningComplete.
Proof.
  intros Hwf Hac Hrob Hrand Hfull Hsolver Hfuel.
  destruct (planner_loop_from rand linprog robots g Hwf Hac Hrob Hrand Hfull Hsolver
              fuel [] k w Hfuel)
    as (rounds & w' & Hloop & Hg' & Hr & Hc & Hs & Hres & Hsh & Hlast).
  cbn in Hloop, Hg', Hr, Hres, Hsh.
  exists rounds, w'. split; [done|].
  split; [unfold nx.number_of_nodes; by rewrite Hg'|].
  do 5 (split; [done|]). split; [|done].
  intros n Hn. destruct (decide (n ∈ concat rounds)) as [|Hnot]; [done|]. exfalso.
  assert (Hin : n ∈ nodes (nx.remove_nodes_from g (concat rounds)))
    by (by apply elem_of_nodes_remove_nodes_from).
  rewrite Hg' in Hin. by apply elem_of_nil in Hin.
Qed.

Lemma nodes_remove_nodes_from ns :
  ∀ g, nodes (nx.remove_nodes_from g ns) = filter (λ m, m ∉ ns) (nodes g).
Proof.
  induction ns as [|n ns IH]; intros g; cbn.
  - symmetry. induction (nodes g) as [|m l IHl]; [done|].
    rewrite filter_cons_True by apply not_elem_of_nil. by rewrite IHl.
  - rewrite IH. unfold nx.remove_node. cbn. rewrite list_filter_filter.
    apply list_filter_iff. intros m. rewrite not_elem_of_cons. tauto.
Qed.

Lemma edges_remove_nodes_from ns :
  ∀ g, edges (nx.remove_nodes_from g ns)
       = filter (λ e, (e.1 ∉ ns) ∧ (e.2 ∉ ns)) (edges g).
Proof.
  induction ns as [|n ns IH]; intros g; cbn.
  - symmetry. induction (edges g) as [|e l IHl]; [done|].
    rewrite filter_cons_True by (split; apply not_elem_of_nil). by rewrite IHl.
  - rewrite IH. unfold nx.remove_node. cbn. rewrite list_filter_filter.
    apply list_filter_iff. intros e. rewrite !not_elem_of_cons. tauto.
Qed.

(** One robot, one skill: giving the robot the skill is optimal. *)
Lemma single_pair_optimal (wt : Q) :
  (0 <= wt)%Q → lp_optimal (allocation_problem 1 1 [[wt]]) [1%Q].
Proof.
  intros Hw. split.
  - split; [reflexivity|]. split; repeat constructor; by vm_compute.
  - intros y (Hlen & _ & Hb). cbn in Hlen, Hb.
    destruct y as [|y0 [|? ?]]; [done| |done].
    apply Forall2_cons_1 in Hb as [[_ Hy] _]. cbn in Hy.
    cbn. unfold dot. cbn.
    assert (0 <= wt * (1 - y0))%Q by (apply Qmult_le_0_compat; lra).
    lra.
Qed.

Lemma planner_loop_completes_witness :
  let arm := {| name := "Arm_Robot_1"; type := "arm_robot" |} in
  let a := "pick_and_place(blue block, middle of the table)" in
  let b := "pick_and_place(red block, blue block)" in
  let g := {| nodes := [a; b]; edges := [(a, b)] |} in
  let linprog := λ _ : scipy.LinProg,
      Some {| scipy.success := true; scipy.x := [1]%Q |} in
  ∃ rounds w',
    planner_loop (λ _, 1 # 2)%Q linprog 2 [arm] g 0 world0
    = (Returned, nx.remove_nodes_from g (concat rounds), length rounds, w')
    ∧ completed_lines (stdout w') = rounds
    ∧ (length rounds ≤ 2)%nat
    ∧ (a ∈ concat rounds) ∧ (b ∈ concat rounds).
Proof.
  intros arm a b g linprog.
  destruct (planner_loop_completes (λ _, 1 # 2)%Q linprog [arm] g 2 0 world0)
    as (rounds & w' & Hloop & _ & Hr & Hc & _ & _ & _ & Hall & _).
  - split.
    + apply (bool_decide_unpack _). by vm_compute.
    + intros u v Huv%list_elem_of_singleton. injection Huv as -> ->.
      split; [by left|by right; left].
  - exists (λ s, if decide (s = a) then 0%nat else 1%nat).
    intros u v Huv%list_elem_of_singleton. injection Huv as -> ->. by vm_compute.
  - done.
  - intros i. cbn. lra.
  - intros robot skill ->%list_elem_of_singleton Hs.
    apply elem_of_cons in Hs as [-> | -> %list_elem_of_singleton]; by vm_compute.
  - intros completed j frontier Hne.
    assert (Hone : ∃ s, frontier = [s] ∧ can_perform arm s = true).
    { subst frontier. rewrite get_executable_skills_filter in *.
      rewrite nodes_remove_nodes_from in *. unfold nx.in_degree_of in *.
      rewrite edges_remove_nodes_from in *. subst g. cbn [nodes edges] in *.
      rewrite !filter_cons, !filter_nil in *. cbn [fst snd] in *.
      destruct (decide (a ∉ completed)), (decide (b ∉ completed));
        repeat (case_decide || cbn in * ); try done; try tauto;
        eexists; (split; [reflexivity|by vm_compute]). }
    destruct Hone as (s & -> & Hcan).
    exists {| scipy.success := true; scipy.x := [1]%Q |}.
    split; [done|]. split; [done|]. split.
    + apply (single_pair_optimal (pair_weight arm s ((λ _, 1 # 2)%Q (j + (0 * 1 + 0))%nat))).
      apply Qlt_le_weak. apply pair_weight_pos; [done|]. cbn. lra.
    + constructor; [right; reflexivity|constructor].
  - cbn. lia.
  - exists rounds, w'. split; [exact Hloop|]. split; [exact Hc|].
    split; [exact Hr|]. split; apply Hall; [by left|by right; left].
Defined.

(** * Further properties of the code *)

(** ** Removing nodes and the frontier *)

Lemma graph_eq (g1 g2 : Graph) :
  nodes g1 = nodes g2 → edges g1 = edges g2 → g1 = g2.
Proof. destruct g1, g2. cbn. by intros -> ->. Qed.

(** X1. [graph.remove_nodes_from(completed_tasks)], line 57: the graph
    that is left depends only on which nodes are listed, not on their
    order or on how often one is listed. *)
Theorem remove_nodes_from_same_elements (g : Graph) (l1 l2 : list string) :
  (∀ x, x ∈ l1 ↔ x ∈ l2) →
  nx.remove_nodes_from g l1 = nx.remove_nodes_from g l2.
Proof.
  intros Hsame. apply graph_eq.
  - rewrite !nodes_remove_nodes_from. apply list_filter_iff.
    intros m. by rewrite Hsame.
  - rewrite !edges_remove_nodes_from. apply list_filter_iff.
    intros e. by rewrite !Hsame.
Qed.

Lemma remove_nodes_from_same_elements_witness :
  let a := "pick_and_place(blue block, middle of the table)" in
  let b := "pick_and_place(red block, blue block)" in
  let c := "transport(table)" in
  let g := {| nodes := [a; b; c]; edges := [(a, b); (b, c)] |} in
  nx.remove_nodes_from g [a; b] = nx.remove_nodes_from g [b; a; b].
Proof.
  intros a b c g. apply remove_nodes_from_same_elements.
  intros x. rewrite !elem_of_cons, !elem_of_nil. tauto.
Defined.

(** X2. How removal unblocks successors (lines 12 and 57): after the
    nodes [tasks] are removed, a node is executable exactly when it is a
    node of the graph that was not removed and all its predecessors were
    removed.  So a removed node never comes back, and an executable node
    that was not removed stays executable. *)
Theorem frontier_after_removal (g : Graph) (tasks : list string) (n : string) :
  n ∈ get_executable_skills (nx.remove_nodes_from g tasks)
  ↔ n ∈ nodes g ∧ (n ∉ tasks) ∧ ∀ u, (u, n) ∈ edges g → u ∈ tasks.
Proof.
  rewrite elem_of_get_executable_skills, elem_of_nodes_remove_nodes_from. split.
  - intros [[Hn Hnt] Hno]. split; [done|]. split; [done|].
    intros u Hu. destruct (decide (u ∈ tasks)) as [|Hut]; [done|].
    exfalso. apply (Hno u). by apply elem_of_edges_remove_nodes_from.
  - intros (Hn & Hnt & Hpred). split; [done|].
    intros u Hu. apply elem_of_edges_remove_nodes_from in Hu as (Hu & Hut & _).
    apply Hut. by apply Hpred.
Qed.

(** ** The acyclicity test *)

Lemma peel_complete (fuel : nat) :
  ∀ g, wf_graph g → acyclic g → (length (nodes g) ≤ fuel)%nat → nx.peel fuel g = true.
Proof.
  induction fuel as [|fuel IH]; intros g Hwf Hac Hlen.
  - cbn. destruct (nodes g); [done|cbn in Hlen; lia].
  - cbn. destruct (nodes g) as [|n l] eqn:Hn; [done|]. rewrite <- Hn.
    pose proof (frontier_nonempty g Hwf Hac) as Hfr.
    rewrite get_executable_skills_filter in Hfr.
    remember (filter (λ n, nx.in_degree_of g n = 0%nat) (nodes g)) as zs eqn:Hzs.
    assert (Hsub : ∀ z, z ∈ zs → z ∈ nodes g).
    { intros z Hz. rewrite Hzs in Hz. by apply list_elem_of_filter in Hz as [_ ?]. }
    clear Hzs. destruct zs as [|z zs']; [exfalso; apply Hfr; [by rewrite Hn|done]|].
    apply (IH (nx.remove_nodes_from g (z :: zs'))).
    + by apply (wf_remove_nodes_from (z :: zs')).
    + by apply (acyclic_remove_nodes_from g (z :: zs')).
    + pose proof (length_nodes_remove_nodes_from_lt (z :: zs') g z) as Hlt.
      cbn in Hlen.
      assert (length (nodes g) = S (length l)) as Hl by (by rewrite Hn).
      specialize (Hlt ltac:(by left) ltac:(apply Hsub; by left)). lia.
Qed.

(** X3. Line 77: an attempt's graph is accepted exactly when it has a
    topological numbering (every edge goes from a lower to a higher
    number). *)
Theorem attempt_accepted_iff_acyclic (reply : Reply) (skill_list : list string)
    (g : Graph) (b : bool) :
  graph_attempt reply skill_list = Some (g, b) →
  (b = true ↔ acyclic g).
Proof.
  intros Hg. apply graph_attempt_Some in Hg as (t & es & _ & _ & _ & -> & Hwf & _).
  split.
  - by apply is_directed_acyclic_graph_sound.
  - intros Hac. by apply peel_complete.
Qed.

Lemma attempt_accepted_iff_acyclic_witness :
  let skill_list := ["pick_and_place(blue block, middle of the table)";
                     "pick_and_place(red block, blue block)"] in
  ∃ g, graph_attempt (Text "Dependencies: 1 -> 2") skill_list = Some (g, true)
       ∧ acyclic g.
Proof.
  intros skill_list. eexists. split; [vm_compute; reflexivity|].
  refine (proj1 (attempt_accepted_iff_acyclic (Text "Dependencies: 1 -> 2")
                   skill_list _ true _) eq_refl).
  vm_compute. reflexivity.
Defined.


(** A round that ends the loop printed its step and no completed task. *)
Lemma planner_round_stop_lines (rand : nat → Q)
    (linprog : scipy.LinProg → option scipy.OptimizeResult)
    (robots : list Robot) (g : Graph) (k : nat) (w w1 : World) :
  planner_round rand linprog robots g k w = RoundBreak w1
  ∨ planner_round rand linprog robots g k w = RoundRaise w1 →
  completed_lines (stdout w1) = completed_lines (stdout w)
  ∧ step_lines (stdout w1) = step_lines (stdout w) ++ [k].
Proof.
  unfold planner_round.
  destruct (get_executable_skills g) as [|s ss] eqn:Hf.
  - intros [[= <-]|[=]].
    by rewrite !completed_lines_print, !step_lines_print, !app_nil_r.
  - set (w0 := print (ExecutableSkills (s :: ss)) (print (Step k) w)).
    pose proof (solve_task_allocation_lines rand linprog robots (s :: ss) w0) as [Hc Hst].
    destruct (solve_task_allocation _ _ _ _ _) as [[asg|] w2].
    + by destruct (dict.values asg); intros [[=]|[=]].
    + cbn [snd] in Hc, Hst. intros [[=]|[= <-]].
      rewrite Hc, Hst. unfold w0.
      by rewrite !completed_lines_print, !step_lines_print, !app_nil_r.
Qed.

(** X5. Lines 35-59, whatever the solver answers and however the loop
    ends.  Let [rounds] be the lists that the loop printed as [Completed
    Tasks], in the order of printing: the graph at the end is the graph at
    the start without these tasks; every completed task was a node of the
    graph; and for every edge [u -> v], if [v] is in one of the lists then
    [u] is in an earlier one.  The [Step] lines printed are numbered from
    [k + 1] to the final value of the step counter, one per round
    started, and no more lists were printed than rounds started. *)
Theorem planner_loop_respects_precedence (rand : nat → Q)
    (linprog : scipy.LinProg → option scipy.OptimizeResult)
    (fuel : nat) (robots : list Robot) (g : Graph) (k : nat) (w : World)
    (o : Outcome) (g' : Graph) (k' : nat) (w' : World) :
  planner_loop rand linprog fuel robots g k w = (o, g', k', w') →
  ∃ rounds : list (list string),
    completed_lines (stdout w') = completed_lines (stdout w) ++ rounds
    ∧ g' = nx.remove_nodes_from g (concat rounds)
    ∧ (∀ t, t ∈ concat rounds → t ∈ nodes g)
    ∧ (∀ u v i tasks, (u, v) ∈ edges g → rounds !! i = Some tasks → v ∈ tasks →
         ∃ j tasks', (j < i)%nat ∧ rounds !! j = Some tasks' ∧ u ∈ tasks')
    ∧ step_lines (stdout w') = step_lines (stdout w) ++ seq (S k) (k' - k)
    ∧ (k ≤ k')%nat ∧ (length rounds ≤ k' - k)%nat ∧ (k' - k ≤ fuel)%nat.
Proof.
  intros Hloop.
  assert (H : ∃ rounds, respects g rounds
                ∧ completed_lines (stdout w') = completed_lines (stdout w) ++ rounds
                ∧ g' = nx.remove_nodes_from g (concat rounds)
                ∧ step_lines (stdout w') = step_lines (stdout w) ++ seq (S k) (k' - k)
                ∧ (k ≤ k')%nat ∧ (length rounds ≤ k' - k)%nat ∧ (k' - k ≤ fuel)%nat).
  { revert g k w Hloop.
    induction fuel as [|fuel IH]; intros g k w Hloop.
    - exists []. cbn [planner_loop] in Hloop.
      destruct (0 <? nx.number_of_nodes g)%nat; injection Hloop as <- <- <- <-;
        rewrite ?completed_lines_print, ?step_lines_print, Nat.sub_diag, !app_nil_r;
        repeat split; (done || cbn; lia).
    - cbn [planner_loop] in Hloop.
      destruct (0 <? nx.number_of_nodes g)%nat.
      2:{ exists []. injection Hloop as <- <- <- <-.
          rewrite completed_lines_print, step_lines_print, Nat.sub_diag, !app_nil_r.
          repeat split; (done || cbn; lia). }
      destruct (planner_round rand linprog robots g (S k) w) as [w1|g1 w1|w1] eqn:Hround.
      + exists []. injection Hloop as <- <- <- <-.
        destruct (planner_round_stop_lines rand linprog robots g (S k) w w1) as [Hc Hs];
          [by left|].
        rewrite completed_lines_print, step_lines_print, Hc, Hs, !app_nil_r.
        replace (S k - k)%nat with 1%nat by lia.
        repeat split; (done || cbn; lia).
      + apply planner_round_Continue in Hround as (tasks & -> & Hfr & Hc1 & Hs1 & _).
        apply IH in Hloop as (rounds & Hres & Hc & -> & Hs & Hk & Hlen & Hfuel).
        exists (match tasks with [] => [] | _ => [tasks] end ++ rounds).
        split; [destruct tasks; [exact Hres|by split]|].
        split; [by rewrite Hc, Hc1, <- app_assoc|].
        split; [destruct tasks; [done|]; cbn [app concat];
                by rewrite remove_nodes_from_app|].
        split.
        { rewrite Hs, Hs1, <- app_assoc. f_equal.
          replace (k' - k)%nat with (S (k' - S k)) by lia. done. }
        split; [lia|]. split; [|lia].
        destruct tasks; cbn [app length]; lia.
      + exists []. injection Hloop as <- <- <- <-.
        destruct (planner_round_stop_lines rand linprog robots g (S k) w w1) as [Hc Hs];
          [by right|].
        rewrite Hc, Hs, !app_nil_r.
        replace (S k - k)%nat with 1%nat by lia.
        repeat split; (done || cbn; lia). }
  destruct H as (rounds & Hres & Hc & Hg' & Hs & Hk). exists rounds.
  split; [done|]. split; [done|]. split; [by apply respects_nodes|]. split; [|done].
  by apply respects_precedence.
Qed.

Lemma planner_loop_respects_precedence_witness :
  let arm := {| name := "Arm_Robot_1"; type := "arm_robot" |} in
  let a := "pick_and_place(blue block, middle of the table)" in
  let b := "pick_and_place(red block, blue block)" in
  let g := {| nodes := [a; b]; edges := [(a, b)] |} in
  let linprog := λ _ : scipy.LinProg,
      Some {| scipy.success := true; scipy.x := [1]%Q |} in
  let r := planner_loop (λ _, 1 # 2)%Q linprog 5 [arm] g 0 world0 in
  ∃ rounds : list (list string),
    completed_lines (stdout r.2) = rounds
    ∧ r.1.1.2 = nx.remove_nodes_from g (concat rounds).
Proof.
  intros arm a b g linprog r.
  destruct r as [[[o g'] k'] w'] eqn:Hloop.
  destruct (planner_loop_respects_precedence _ _ _ _ _ _ _ _ _ _ _ Hloop)
    as (rounds & Hc & Hg' & _).
  exists rounds. split; [exact Hc|exact Hg'].
Defined.

(** The messages the round loop itself can print. *)
Lemma planner_loop_acyclic_inv (rand : nat → Q)
    (linprog : scipy.LinProg → option scipy.OptimizeResult)
    (robots : list Robot) (m : Msg) (fuel : nat) :
  (∀ n, m ≠ Step n) → (∀ l, m ≠ ExecutableSkills l) → (∀ a, m ≠ Assignments a) →
  (∀ l, m ≠ CompletedTasks l) → (∀ n, m ≠ RemainingTasks n) →
  (m ≠ NoTasksAssigned) → (m ≠ OptimizationFailed) → (m ≠ PlanningComplete) →
  ∀ g k w o g' k' w',
    wf_graph g → acyclic g → (m ∉ stdout w) →
    planner_loop rand linprog fuel robots g k w = (o, g', k', w') →
    (m ∉ stdout w')
    ∧ (o = Returned → nodes g' = [] ∧ last (stdout w') = Some PlanningComplete)
    ∧ wf_graph g' ∧ acyclic g'
    ∧ llm_calls w' = llm_calls w.
Proof.
  intros H1 H2 H3 H4 H5 H6 H7 H8.
  induction fuel as [|fuel IH]; intros g k w o g' k' w' Hwf Hac Hw Hloop.
  - cbn in Hloop. unfold nx.number_of_nodes in Hloop.
    destruct (nodes g) as [|n l] eqn:Hn; cbn in Hloop; injection Hloop as <- <- <- <-.
    + split; [quiet|]. split; [|done]. intros _. split; [done|]. cbn. by rewrite last_snoc.
    + done.
  - cbn [planner_loop] in Hloop. unfold nx.number_of_nodes in Hloop.
    destruct (nodes g) as [|n l] eqn:Hn; cbn [length Nat.ltb Nat.leb] in Hloop.
    { injection Hloop as <- <- <- <-.
      split; [quiet|]. split; [|done]. intros _. split; [done|]. cbn. by rewrite last_snoc. }
    destruct (planner_round rand linprog robots g (S k) w) as [w1|g1 w1|w1] eqn:Hround.
    + apply planner_round_Break in Hround. exfalso.
      apply (frontier_nonempty g Hwf Hac); [by rewrite Hn|done].
    + destruct (planner_round_world rand linprog robots g (S k) w m Hw
                  H1 H2 H3 H4 H5 H6 H7 g1 w1 Hround) as [Hw1 Hl1].
      apply planner_round_Continue in Hround as (tasks & -> & _).
      destruct (IH _ _ _ _ _ _ _ (wf_remove_nodes_from tasks g Hwf)
                  (acyclic_remove_nodes_from g tasks Hac) Hw1 Hloop)
        as (Ha & Hb & Hc & Hd & He).
      split; [done|]. split; [done|]. split; [done|]. split; [done|]. congruence.
    + injection Hloop as <- <- <- <-.
      unfold planner_round in Hround.
      destruct (get_executable_skills g) as [|s ss]; [done|].
      set (w0 := print (ExecutableSkills (s :: ss)) (print (Step (S k)) w)) in *.
      pose proof (solve_task_allocation_world rand linprog robots (s :: ss) w0) as (Hl & _ & Hs).
      destruct (solve_task_allocation rand linprog robots (s :: ss) w0) as [[asg|] w2].
      { by destruct (dict.values asg). }
      injection Hround as <-. cbn in Hl, Hs.
      split; [|done].
      assert (Hw0 : m ∉ stdout w0) by (unfold w0; quiet).
      destruct Hs as [-> | ->]; [done|].
      rewrite elem_of_app, list_elem_of_singleton. intros [?|?]; done.
Qed.

(** X6. Lines 35-61 on a graph that networkx keeps well formed and that
    has a topological numbering (what the builder hands over): the loop
    never takes the branch of line 43, so the error line about missing
    executable skills is not printed; and when the loop returns, no node
    is left and the completion line is the last one printed. *)
Theorem planner_loop_on_acyclic_graph (rand : nat → Q)
    (linprog : scipy.LinProg → option scipy.OptimizeResult)
    (fuel : nat) (robots : list Robot) (g : Graph) (k : nat) (w : World)
    (o : Outcome) (g' : Graph) (k' : nat) (w' : World) :
  wf_graph g → acyclic g →
  (ErrorNoExecutableSkills ∉ stdout w) →
  planner_loop rand linprog fuel robots g k w = (o, g', k', w') →
  (ErrorNoExecutableSkills ∉ stdout w')
  ∧ (o = Returned →
       nx.number_of_nodes g' = 0%nat ∧ last (stdout w') = Some PlanningComplete)
  ∧ (o = OutOfFuel → nodes g' ≠ [] ∧ get_executable_skills g' ≠ []).
Proof.
  intros Hwf Hac Hw Hloop.
  destruct (planner_loop_acyclic_inv rand linprog robots ErrorNoExecutableSkills fuel
              ltac:(done) ltac:(done) ltac:(done) ltac:(done) ltac:(done)
              ltac:(done) ltac:(done) ltac:(done) _ _ _ _ _ _ _ Hwf Hac Hw Hloop)
    as (Hq & Hret & Hwf' & Hac' & _).
  split; [done|]. split.
  - intros Ho. destruct (Hret Ho) as [Hn Hlast]. unfold nx.number_of_nodes.
    by rewrite Hn.
  - intros ->.
    assert (Hne : nodes g' ≠ []).
    { clear -Hloop. revert g k w Hloop.
      induction fuel as [|fuel IH]; intros g k w Hloop.
      - cbn in Hloop. unfold nx.number_of_nodes in Hloop.
        destruct (nodes g) eqn:Hn; cbn in Hloop; [done|].
        injection Hloop as <- _ _. by rewrite Hn.
      - cbn [planner_loop] in Hloop.
        destruct (0 <? nx.number_of_nodes g)%nat; [|done].
        destruct (planner_round rand linprog robots g (S k) w); [done| |done].
        by eapply IH. }
    split; [done|]. by apply frontier_nonempty.
Qed.

Lemma planner_loop_on_acyclic_graph_witness :
  let arm := {| name := "Arm_Robot_1"; type := "arm_robot" |} in
  let a := "pick_and_place(blue block, middle of the table)" in
  let b := "pick_and_place(red block, blue block)" in
  let g := {| nodes := [a; b]; edges := [(a, b)] |} in
  let linprog := λ _ : scipy.LinProg,
      Some {| scipy.success := true; scipy.x := [1]%Q |} in
  ErrorNoExecutableSkills ∉
    stdout (planner_loop (λ _, 1 # 2)%Q linprog 5 [arm] g 0 world0).2.
Proof.
  intros arm a b g linprog.
  destruct (planner_loop (λ _, 1 # 2)%Q linprog 5 [arm] g 0 world0)
    as [[[o g'] k'] w'] eqn:Hloop.
  refine (proj1 (planner_loop_on_acyclic_graph _ _ _ _ g _ _ _ _ _ _ _ _ _ Hloop)).
  - split.
    + apply (bool_decide_unpack _). by vm_compute.
    + intros u v Huv%list_elem_of_singleton. injection Huv as -> ->.
      split; [by left|by right; left].
  - exists (λ s, if decide (s = a) then 0%nat else 1%nat).
    intros u v Huv%list_elem_of_singleton. injection Huv as -> ->. by vm_compute.
  - cbn. apply not_elem_of_nil.
Defined.

(** ** Skill list generation *)

Lemma elem_of_list_remove (s x : string) (l : list string) :
  x ∈ list_remove s l → x ∈ l.
Proof.
  induction l as [|a l IH]; cbn; [done|].
  case_bool_decide; [by right|]. intros [->|Hx]%elem_of_cons; [by left|].
  right. by apply IH.
Qed.

Lemma length_list_remove (s : string) (l : list string) :
  s ∈ l → S (length (list_remove s l)) = length l.
Proof.
  induction l as [|a l IH]; cbn; [by intros ?%elem_of_nil|].
  case_bool_decide as Ha; [done|].
  intros [->|Hs]%elem_of_cons; [done|]. cbn. by rewrite IH.
Qed.

Lemma NoDup_list_remove (s : string) (l : list string) :
  NoDup l → NoDup (list_remove s l) ∧ s ∉ list_remove s l.
Proof.
  induction 1 as [|a l Ha Hl IH]; cbn; [split; [constructor|apply not_elem_of_nil]|].
  case_bool_decide as Hs.
  - subst a. done.
  - destruct IH as [IH1 IH2]. split.
    + constructor; [|done]. intros Hin. by apply elem_of_list_remove in Hin.
    + rewrite not_elem_of_cons. split; [congruence|done].
Qed.

Section SkillList.

Variable gemini : nat → Reply.

Lemma choose_best_skill_world (skill_set : list string) (w : World) (m : Msg) :
  (m ∉ stdout w) → (∀ s, m ≠ InvalidSkill s) → (m ≠ ErrorCallingGemini) →
  let r := choose_best_skill gemini skill_set w in
  (m ∉ stdout r.2) ∧ llm_calls r.2 = S (llm_calls w) ∧ rng_calls r.2 = rng_calls w
  ∧ ∀ s, r.1 = Some s → s ∈ skill_set.
Proof.
  intros Hw H1 H2. unfold choose_best_skill.
  destruct (gemini (llm_calls w)) as [t|]; [case_bool_decide as Hin|]; cbn.
  - split; [done|]. split; [done|]. split; [done|]. by intros s [= <-].
  - split; [|done]. rewrite elem_of_app, list_elem_of_singleton.
    intros [?|?]; [done|by eapply H1].
  - split; [|done]. rewrite elem_of_app, list_elem_of_singleton.
    intros [?|?]; done.
Qed.

Lemma generate_skill_loop_world (m : Msg) (fuel : nat) :
  (∀ s, m ≠ InvalidSkill s) → (m ≠ ErrorCallingGemini) →
  ∀ generated remaining w sl w',
    (m ∉ stdout w) →
    generate_skill_loop gemini fuel generated remaining w = Some (sl, w') →
    (m ∉ stdout w') ∧ rng_calls w' = rng_calls w.
Proof.
  intros H1 H2. induction fuel as [|fuel IH]; intros generated remaining w sl w' Hw; [done|].
  cbn [generate_skill_loop].
  pose proof (choose_best_skill_world remaining w m Hw H1 H2) as (Hq & _ & Hr & _).
  destruct (choose_best_skill gemini remaining w) as [[best|] w1]; cbn in Hq, Hr.
  - case_bool_decide.
    + intros [= <- <-]. done.
    + intros Hloop. apply IH in Hloop as [? ?]; [|done]. split; [done|congruence].
  - intros [= <- <-]. done.
Qed.

Lemma choose_best_skill_calls (skill_set : list string) (w : World) :
  let r := choose_best_skill gemini skill_set w in
  llm_calls r.2 = S (llm_calls w) ∧ ∀ s, r.1 = Some s → s ∈ skill_set.
Proof.
  unfold choose_best_skill.
  destruct (gemini (llm_calls w)) as [t|]; [case_bool_decide as Hin|]; cbn;
    (split; [done|]); [by intros s [= <-]|done..].
Qed.

Lemma generate_skill_loop_terminates (fuel : nat) :
  ∀ generated remaining w,
    (length remaining < fuel)%nat →
    ∃ new w', generate_skill_loop gemini fuel generated remaining w
              = Some (generated ++ new, w')
      ∧ (∀ s, s ∈ new → s ∈ remaining ∧ s ≠ "done")
      ∧ (NoDup remaining → NoDup new)
      ∧ (length new ≤ length remaining)%nat
      ∧ llm_calls w' = (llm_calls w + length new + 1)%nat.
Proof.
  induction fuel as [|fuel IH]; intros generated remaining w Hlen; [lia|].
  cbn [generate_skill_loop].
  pose proof (choose_best_skill_calls remaining w) as [Hc Hin].
  destruct (choose_best_skill gemini remaining w) as [[best|] w1]; cbn in Hc, Hin.
  - specialize (Hin best eq_refl). case_bool_decide as Hdone.
    + exists [], w1. rewrite app_nil_r. split; [done|].
      split; [by intros s ?%elem_of_nil|]. split; [by constructor|]. cbn. lia.
    + rewrite bool_decide_eq_true_2 by done.
      pose proof (length_list_remove best remaining Hin) as Hl.
      destruct (IH (generated ++ [best]) (list_remove best remaining) w1)
        as (new & w' & Hloop & Hnew & Hnd & Hle & Hcalls); [lia|].
      exists (best :: new), w'. rewrite Hloop, <- app_assoc. split; [done|].
      split; [|split; [|split]].
      * intros s [->|Hs]%elem_of_cons; [done|].
        destruct (Hnew s Hs) as [Hr ?]. split; [|done]. by eapply elem_of_list_remove.
      * intros Hrem. destruct (NoDup_list_remove best remaining Hrem) as [Hnd' Hnot].
        constructor; [|by apply Hnd]. intros Hb. by apply Hnew in Hb as [? _].
      * cbn. lia.
      * cbn. lia.
  - exists [], w1. rewrite app_nil_r. split; [done|].
    split; [by intros s ?%elem_of_nil|]. split; [by constructor|]. cbn. lia.
Qed.

End SkillList.

(** X7. The [while True] loop of [generate_skill_list] ends: one more
    iteration than there are candidate skills is always enough.  The list
    it returns consists of candidate skills other than "done", is no longer
    than the candidate list, has no repetition when the candidates have
    none, and cost one oracle call per skill plus the call that ended the
    loop. *)
Theorem generate_skill_list_terminates (gemini : nat → Reply) (fuel : nat)
    (skill_set : list string) (w : World) :
  (length skill_set < fuel)%nat →
  ∃ skill_list w',
    generate_skill_list gemini fuel skill_set w = Some (skill_list, w')
    ∧ (∀ s, s ∈ skill_list → s ∈ skill_set ∧ s ≠ "done")
    ∧ (NoDup skill_set → NoDup skill_list)
    ∧ (length skill_list ≤ length skill_set)%nat
    ∧ llm_calls w' = (llm_calls w + length skill_list + 1)%nat.
Proof.
  intros Hfuel. unfold generate_skill_list.
  destruct (generate_skill_loop_terminates gemini fuel [] skill_set w Hfuel)
    as (new & w' & Hloop & Hnew & Hnd & Hle & Hcalls).
  exists new, w'. cbn in Hloop. done.
Qed.

Lemma generate_skill_list_terminates_witness :
  let gemini := λ k, match k with
                     | 0%nat => Text "  transport(table) "
                     | 1%nat => Text "pick_and_place(red block, blue bowl)"
                     | _ => Text "transport(table)"
                     end in
  ∃ skill_list w',
    generate_skill_list gemini 33 get_skill_set world0 = Some (skill_list, w')
    ∧ NoDup skill_list ∧ llm_calls w' = (length skill_list + 1)%nat.
Proof.
  intros gemini.
  destruct (generate_skill_list_terminates gemini 33 get_skill_set world0)
    as (sl & w' & Hgen & _ & Hnd & _ & Hcalls).
  - vm_compute. lia.
  - exists sl, w'. split; [exact Hgen|]. split; [|exact Hcalls].
    apply Hnd. apply (bool_decide_unpack _). by vm_compute.
Defined.

(** ** The driver as a whole *)

Lemma graph_attempts_world (gemini : nat → Reply) (skill_list : list string) (m : Msg) :
  (m ≠ DagGenerated) → (∀ n, m ≠ CycleDetected n) → (m ≠ ErrorGeneratingGraph) →
  (m ≠ NoAcyclicGraphAfterAttempts) →
  ∀ attempts w, (m ∉ stdout w) →
    (m ∉ stdout (graph_attempts gemini attempts skill_list w).2)
    ∧ rng_calls (graph_attempts gemini attempts skill_list w).2 = rng_calls w.
Proof.
  intros H1 H2 H3 H4. induction attempts as [|a attempts IH]; intros w Hw; cbn.
  - split; [quiet|done].
  - destruct (graph_attempt (gemini (llm_calls w)) skill_list) as [[g [|]]|]; cbn.
    + split; [quiet|done].
    + destruct (IH (print (CycleDetected (a + 1)) (llm_called w))) as [Ha Hb]; [quiet|].
      split; [done|]. by rewrite Hb.
    + split; [quiet|done].
Qed.

Lemma generate_dependency_graph_inv (gemini : nat → Reply) (skill_list : list string)
    (w : World) :
  let r := generate_dependency_graph gemini skill_list w in
  nodes r.1 = [] ∨ (wf_graph r.1 ∧ acyclic r.1 ∧ ∀ n, n ∈ nodes r.1 ↔ n ∈ skill_list).
Proof.
  destruct skill_list as [|s l]; [by left|].
  cbn [generate_dependency_graph].
  destruct (graph_attempts_result gemini (s :: l) (seq 0 3) w) as [[Hl|(k & _ & Hk)] _].
  - left. by rewrite Hl.
  - right. apply graph_attempt_Some in Hk as (t & es & _ & _ & _ & Hdag & Hwf & Hn & _).
    split; [done|]. split; [|done]. by apply is_directed_acyclic_graph_sound.
Qed.

(** X8. [main_planner] as a whole, for every oracle, every random source
    and every solver: the error line of line 44 is never printed, because
    the loop only ever runs on a graph that passed the acyclicity test; and
    when [main_planner] returns, the last line printed is one of the two
    abort lines or the completion line. *)
Theorem main_planner_never_reports_missing_frontier (gemini : nat → Reply)
    (rand : nat → Q) (linprog : scipy.LinProg → option scipy.OptimizeResult)
    (fuel : nat) (instruction : string) (robots : list Robot) (w : World) :
  (ErrorNoExecutableSkills ∉ stdout w) →
  let r := main_planner gemini rand linprog fuel instruction robots w in
  (ErrorNoExecutableSkills ∉ stdout r.2)
  ∧ (r.1 = Returned →
       last (stdout r.2) = Some CouldNotGenerateSkillList
       ∨ last (stdout r.2) = Some CouldNotGenerateGraph
       ∨ last (stdout r.2) = Some PlanningComplete).
Proof.
  intros Hw. unfold main_planner.
  set (w0 := print (ProcessingInstruction instruction) w).
  assert (Hw0 : ErrorNoExecutableSkills ∉ stdout w0) by (unfold w0; quiet).
  destruct (generate_skill_list gemini fuel get_skill_set w0) as [[sl w1]|] eqn:Hsl;
    [|by split].
  apply (generate_skill_loop_world gemini ErrorNoExecutableSkills) in Hsl as [Hw1 _];
    [|done..].
  destruct sl as [|s sl].
  { cbn. split; [quiet|]. intros _. left. by rewrite last_snoc. }
  set (w2 := print GeneratingDependencyGraph (skill_list_printed (s :: sl) w1)).
  assert (Hw2 : ErrorNoExecutableSkills ∉ stdout w2).
  { unfold w2, skill_list_printed. quiet. apply not_elem_of_stdout_prints; [|quiet].
    intros Hin. apply elem_of_lookup_imap_1 in Hin as (i & x & Heq & _). done. }
  pose proof (generate_dependency_graph_inv gemini (s :: sl) w2) as Hinv.
  pose proof (graph_attempts_world gemini (s :: sl) ErrorNoExecutableSkills
                ltac:(done) ltac:(done) ltac:(done) ltac:(done) (seq 0 3) w2 Hw2)
    as [Hw3 _].
  change (graph_attempts gemini (seq 0 3) (s :: sl) w2)
    with (generate_dependency_graph gemini (s :: sl) w2) in Hw3.
  destruct (generate_dependency_graph gemini (s :: sl) w2) as [g w3].
  cbn [fst snd] in Hinv, Hw3. unfold no_nodes.
  destruct (nodes g) as [|n l] eqn:Hn.
  { cbn. split; [quiet|]. intros _. right. left. by rewrite last_snoc. }
  destruct Hinv as [?|(Hwf & Hac & _)]; [done|].
  set (w4 := print Simulating (print (Dependencies (nx.edges_view g)) w3)).
  assert (Hw4 : ErrorNoExecutableSkills ∉ stdout w4) by (unfold w4; quiet).
  destruct (planner_loop rand linprog fuel robots g 0 w4) as [[[o g'] k'] w'] eqn:Hloop.
  destruct (planner_loop_acyclic_inv rand linprog robots ErrorNoExecutableSkills fuel
              ltac:(done) ltac:(done) ltac:(done) ltac:(done) ltac:(done)
              ltac:(done) ltac:(done) ltac:(done) _ _ _ _ _ _ _ Hwf Hac Hw4 Hloop)
    as (Hq & Hret & _).
  cbn. split; [done|]. intros Ho. right. right. by apply Hret.
Qed.

Lemma main_planner_never_reports_missing_frontier_witness :
  let gemini := λ k, match k with
                     | 0%nat => Text "pick_and_place(red block, blue block)"
                     | 1%nat => Text "done"
                     | _ => Text "Dependencies: None"
                     end in
  let linprog := λ _ : scipy.LinProg,
      Some {| scipy.success := true; scipy.x := [1]%Q |} in
  let robots := [ {| name := "Arm_Robot_1"; type := "arm_robot" |} ] in
  ErrorNoExecutableSkills ∉
    stdout (main_planner gemini (λ _, 1 # 2)%Q linprog 40
              "Stack the red block on the blue block." robots world0).2.
Proof.
  intros gemini linprog robots.
  refine (proj1 (main_planner_never_reports_missing_frontier gemini (λ _, 1 # 2)%Q
                   linprog 40 "Stack the red block on the blue block." robots world0 _)).
  cbn. apply not_elem_of_nil.
Defined.

(** ** Completion and the frontier *)

Section Completion.

Variable rand : nat → Q.
Variable linprog : scipy.LinProg → option scipy.OptimizeResult.



End Completion.




(** ** Rounding, weights and the constraint matrices *)

(** X9. Lines 92-96: an entry of the solution counts as selected
    ([np.round] gives 1) exactly when it lies strictly between 1/2 and
    3/2; the ties 1/2 and 3/2 go to the even neighbours 0 and 2. *)
Theorem round_selects_open_interval (q : Q) :
  (np.round q = 1%Z ↔ (1 # 2 < q)%Q ∧ (q < 3 # 2)%Q)
  ∧ np.round (1 # 2) = 0%Z ∧ np.round (3 # 2) = 2%Z.
Proof.
  split; [|done]. split; [apply round_one_inv|].
  intros [Hlo Hhi]. unfold np.round.
  pose proof (Qfloor_le q) as Hfl. pose proof (Qlt_floor q) as Hfh.
  rewrite inject_Z_plus in Hfh. change (inject_Z 1) with 1%Q in Hfh.
  assert (Hf0 : (-1 < Qfloor q)%Z).
  { rewrite Zlt_Qlt. change (inject_Z (-1)) with (-1)%Q. lra. }
  assert (Hf1 : (Qfloor q < 2)%Z).
  { rewrite Zlt_Qlt. change (inject_Z 2) with 2%Q. lra. }
  assert (Hf : Qfloor q = 0%Z ∨ Qfloor q = 1%Z) by lia.
  destruct Hf as [Hf|Hf]; rewrite Hf in *.
  - change (inject_Z 0) with 0%Q in *.
    destruct (q - 0 ?= 1 # 2)%Q eqn:Hc; [| |done].
    + apply Qeq_alt in Hc. lra.
    + apply Qlt_alt in Hc. lra.
  - change (inject_Z 1) with 1%Q in *.
    destruct (q - 1 ?= 1 # 2)%Q eqn:Hc; [|done|].
    + apply Qeq_alt in Hc. lra.
    + apply Qgt_alt in Hc. lra.
Qed.

(** X10. Lines 20-42: the weight matrix has one row per robot and one
    column per skill; the entry of a pair is computed from the draw made
    for that pair (rows first); with draws in [0, 1) it is exactly 0 when
    the robot cannot perform the skill, and otherwise lies above
    1000000/1000001 and is at most 1000000. *)
Theorem calculate_weights_entries (rand : nat → Q) (k : nat) (robots : list Robot)
    (skills : list string) (r s : nat) (robot : Robot) (skill : string) :
  robots !! r = Some robot → skills !! s = Some skill →
  (∀ i, (0 <= rand i)%Q ∧ (rand i < 1)%Q) →
  has_shape (length robots) (length skills) (calculate_weights rand k robots skills)
  ∧ ∃ wt, get2 (calculate_weights rand k robots skills) r s = Some wt
      ∧ wt = pair_weight robot skill (rand (k + (r * length skills + s)))
      ∧ (can_perform robot skill = false → wt = 0%Q)
      ∧ (can_perform robot skill = true →
           (1000000 # 1000001 < wt)%Q ∧ (wt <= 1000000)%Q).
Proof.
  intros Hr Hs Hrand. split.
  - unfold calculate_weights. split; [by rewrite length_imap|].
    apply Forall_lookup_2. intros i row Hrow.
    rewrite list_lookup_imap in Hrow.
    destruct (robots !! i); [|done]. cbn in Hrow. injection Hrow as <-.
    by rewrite length_imap.
  - eexists. split.
    { unfold get2, calculate_weights. rewrite list_lookup_imap, Hr. cbn.
      rewrite list_lookup_imap, Hs. cbn. reflexivity. }
    split; [done|]. split; [apply pair_weight_zero|].
    intros Hc. rewrite pair_weight_can_perform, Hc.
    destruct (Hrand (k + (r * length skills + s))%nat) as [Hd0 Hd1].
    split.
    + apply Qlt_shift_div_l; lra.
    + apply Qle_shift_div_r; lra.
Qed.

Lemma calculate_weights_entries_witness :
  let robots := [ {| name := "Arm_Robot_1"; type := "arm_robot" |};
                  {| name := "Mobile_Robot_1"; type := "mobile_robot" |} ] in
  let skills := ["pick_and_place(red block, blue block)"; "transport(table)"] in
  get2 (calculate_weights (λ _, 1 # 2)%Q 0 robots skills) 1 0 = Some 0%Q.
Proof.
  intros robots skills.
  destruct (calculate_weights_entries (λ _, 1 # 2)%Q 0 robots skills 1 0
              {| name := "Mobile_Robot_1"; type := "mobile_robot" |}
              "pick_and_place(red block, blue block)")
    as (_ & wt & Hget & _ & Hzero & _).
  - reflexivity.
  - reflexivity.
  - intros i. cbn. split; lra.
  - rewrite Hget. f_equal. apply Hzero. by vm_compute.
Defined.

Lemma get2_set2_ne A i j i' j' v :
  (i, j) ≠ (i', j') → get2 (np.set2 A i j v) i' j' = get2 A i' j'.
Proof.
  intros Hne. unfold get2, np.set2.
  destruct (decide (i = i')) as [->|Hi].
  - rewrite list_lookup_alter_eq. destruct (A !! i') as [row|]; [|done]. cbn.
    apply list_lookup_insert_ne. congruence.
  - by rewrite list_lookup_alter_ne.
Qed.

Lemma ones_at_not_elem ps :
  ∀ A i j, (i, j) ∉ ps → get2 (ones_at ps A) i j = get2 A i j.
Proof.
  induction ps as [|p ps IH]; intros A i j Hnot; [done|].
  apply not_elem_of_cons in Hnot as [Hne Hnot].
  change (ones_at (p :: ps) A) with (ones_at ps (np.set2 A p.1 p.2 1%Q)).
  rewrite IH by done. apply get2_set2_ne. destruct p. cbn. congruence.
Qed.

Lemma get2_zeros rows cols i j :
  (i < rows)%nat → (j < cols)%nat → get2 (np.zeros rows cols) i j = Some 0%Q.
Proof.
  intros Hi Hj. unfold get2, np.zeros.
  rewrite lookup_replicate_2 by done. cbn. by apply lookup_replicate_2.
Qed.

Lemma A_eq_robot_one nr ns j k :
  (j < nr)%nat → (k < ns)%nat →
  get2 (A_eq_robot nr ns) j (j * ns + k) = Some 1%Q.
Proof.
  intros Hj Hk. rewrite A_eq_robot_ones_at.
  eapply ones_at_elem; [apply zeros_shape| |done|].
  - apply list_elem_of_bind. exists j. split; [|apply elem_of_seq; lia].
    apply list_elem_of_bind. exists k. split; [by left|apply elem_of_seq; lia].
  - apply Nat.lt_le_trans with (j * ns + ns)%nat; [lia|].
    replace (j * ns + ns)%nat with (S j * ns)%nat by lia.
    by apply Nat.mul_le_mono_r.
Qed.

(** X11. Lines 63-75: the constraint matrices are what the comments say.
    In the row of skill [k] the entry of variable [i] is 1 when [i] is the
    variable of a pair with skill [k] ([i mod num_skills = k]) and 0
    otherwise; in the row of robot [j] it is 1 when [i] is the variable of
    a pair with robot [j] ([i / num_skills = j]) and 0 otherwise. *)
Theorem constraint_matrices_entries (nr ns i : nat) :
  (i < nr * ns)%nat →
  (∀ k, (k < ns)%nat →
     get2 (A_eq_skill nr ns) k i
     = Some (if decide (i mod ns = k) then 1%Q else 0%Q))
  ∧ (∀ j, (j < nr)%nat →
       get2 (A_eq_robot nr ns) j i
       = Some (if decide (i / ns = j) then 1%Q else 0%Q)).
Proof.
  intros Hi.
  assert (Hns : (0 < ns)%nat) by (destruct ns; lia).
  pose proof (Nat.div_mod_eq i ns) as Hdm.
  pose proof (Nat.mod_upper_bound i ns ltac:(lia)) as Hmod.
  assert (Hdiv : (i / ns < nr)%nat) by (apply Nat.Div0.div_lt_upper_bound; lia).
  split.
  - intros k Hk. case_decide as Hik.
    + replace i with (i / ns * ns + k)%nat at 1 by lia.
      by apply A_eq_skill_one.
    + rewrite A_eq_skill_ones_at, ones_at_not_elem; [by apply get2_zeros|].
      intros Hin. apply list_elem_of_bind in Hin as (k' & Hin & _).
      apply list_elem_of_bind in Hin as (j' & Hin & _).
      apply list_elem_of_singleton in Hin. injection Hin as -> ->.
      apply Hik. rewrite Nat.add_comm, Nat.Div0.mod_add. by apply Nat.mod_small.
  - intros j Hj. case_decide as Hij.
    + replace i with (j * ns + i mod ns)%nat at 1 by (subst j; lia).
      by apply A_eq_robot_one.
    + rewrite A_eq_robot_ones_at, ones_at_not_elem; [by apply get2_zeros|].
      intros Hin. apply list_elem_of_bind in Hin as (j' & Hin & _).
      apply list_elem_of_bind in Hin as (k' & Hin & Hk').
      apply list_elem_of_singleton in Hin. injection Hin as -> ->.
      apply elem_of_seq in Hk'.
      apply Hij. rewrite Nat.add_comm, Nat.div_add by lia.
      rewrite Nat.div_small by lia. done.
Qed.

Lemma constraint_matrices_entries_witness :
  get2 (A_eq_skill 2 3) 1 4 = Some 1%Q ∧ get2 (A_eq_robot 2 3) 0 4 = Some 0%Q.
Proof.
  destruct (constraint_matrices_entries 2 3 4) as [Hs Hr]; [lia|].
  split; [apply (Hs 1%nat); lia|apply (Hr 0%nat); lia].
Defined.

Lemma feasible_robot_row (nr ns : nat) (W : list (list Q)) (x : list Q) (j : nat) :
  lp_feasible (allocation_problem nr ns W) x → (j < nr)%nat →
  ∃ row, A_eq_robot nr ns !! j = Some row ∧ binary row ∧ (dot row x <= 1)%Q.
Proof.
  intros (_ & HA & _) Hj. cbn in HA.
  destruct (A_eq_skill_shape nr ns) as [Hlens _].
  destruct (A_eq_robot_shape nr ns) as [Hlenr _].
  destruct (lookup_lt_is_Some_2 (A_eq_robot nr ns) j) as [row Hrow]; [lia|].
  exists row. split; [done|]. split.
  - eapply Forall_lookup_1; [apply A_eq_robot_binary|done].
  - destruct (Forall2_lookup_l _ _ _ (ns + j) row HA) as (b & Hb & Hle).
    { rewrite lookup_app_r by lia. rewrite Hlens.
      by replace (ns + j - ns)%nat with j by lia. }
    rewrite lookup_app_r in Hb by (unfold np.ones; rewrite length_replicate; lia).
    apply lookup_replicate_1 in Hb as [-> _]. done.
Qed.

(** X12. Lines 61-96 together: when the solution satisfies the
    constraints it was computed for, the rounded matrix has at most one 1
    in each robot's row and at most one 1 in each skill's column, so the
    choice of the lowest column at line 98 never discards a second skill
    and no skill is given to two robots. *)
Theorem feasible_rounding_is_partial_matching (nr ns : nat) (W : list (list Q))
    (x : list Q) (M : list (list Z)) :
  lp_feasible (allocation_problem nr ns W) x →
  np.reshape nr ns (map np.round x) = Some M →
  (∀ r k1 k2, (r < nr)%nat →
     (M !!! r) !! k1 = Some 1%Z → (M !!! r) !! k2 = Some 1%Z → k1 = k2)
  ∧ (∀ r1 r2 k, (r1 < nr)%nat → (r2 < nr)%nat →
       (M !!! r1) !! k = Some 1%Z → (M !!! r2) !! k = Some 1%Z → r1 = r2).
Proof.
  intros Hfeas HM.
  assert (Hentry : ∀ r k, (r < nr)%nat → (M !!! r) !! k = Some 1%Z →
            (k < ns)%nat ∧ ∃ v, x !! (r * ns + k)%nat = Some v ∧ (1 # 2 < v)%Q).
  { intros r k Hr Hat. apply (reshape_entry _ _ _ _ _ _ _ HM Hr) in Hat as [Hk Hx].
    split; [done|]. change (map np.round x) with (np.round <$> x) in Hx.
    rewrite list_lookup_fmap in Hx.
    destruct (x !! (r * ns + k)%nat) as [v|]; [|done]. cbn in Hx. injection Hx as Hv.
    exists v. split; [done|]. by apply round_one_inv in Hv as [? _]. }
  split.
  - intros r k1 k2 Hr H1 H2.
    destruct (Hentry r k1 Hr H1) as (Hk1 & v1 & Hx1 & Hv1).
    destruct (Hentry r k2 Hr H2) as (Hk2 & v2 & Hx2 & Hv2).
    destruct (decide (k1 = k2)) as [|Hne]; [done|]. exfalso.
    destruct (feasible_robot_row nr ns W x r Hfeas Hr) as (row & Hrow & Hbin & Hle).
    pose proof (A_eq_robot_one nr ns r k1 Hr Hk1) as Ha1.
    pose proof (A_eq_robot_one nr ns r k2 Hr Hk2) as Ha2.
    unfold get2 in Ha1, Ha2. rewrite Hrow in Ha1, Ha2. cbn in Ha1, Ha2.
    assert (Hidx : (r * ns + k1)%nat ≠ (r * ns + k2)%nat) by lia.
    pose proof (dot_ge_two row x _ _ v1 v2 Hbin (feasible_nonneg _ _ _ _ Hfeas)
                  Hidx Ha1 Ha2 Hx1 Hx2).
    lra.
  - intros r1 r2 k Hr1 Hr2 H1 H2.
    destruct (Hentry r1 k Hr1 H1) as (Hk & v1 & Hx1 & Hv1).
    destruct (Hentry r2 k Hr2 H2) as (_ & v2 & Hx2 & Hv2).
    by apply (column_exclusive nr ns W x Hfeas r1 r2 k v1 v2).
Qed.

Lemma feasible_rounding_is_partial_matching_witness :
  let x := [6 # 10; 4 # 10; 0; 1 # 2]%Q in
  let M := [[1; 0]; [0; 0]]%Z in
  np.reshape 2 2 (map np.round x) = Some M
  ∧ (∀ r k1 k2, (r < 2)%nat →
       (M !!! r) !! k1 = Some 1%Z → (M !!! r) !! k2 = Some 1%Z → k1 = k2)
  ∧ (∀ r1 r2 k, (r1 < 2)%nat → (r2 < 2)%nat →
       (M !!! r1) !! k = Some 1%Z → (M !!! r2) !! k = Some 1%Z → r1 = r2).
Proof.
  intros x M. split; [by vm_compute|].
  refine (feasible_rounding_is_partial_matching 2 2 [[1; 1]; [1; 1]]%Q x M _ _).
  - split; [reflexivity|]. split; repeat constructor; by vm_compute.
  - by vm_compute.
Defined.

(** ** Uncaught exceptions *)

Section NoRaise.

Variable rand : nat → Q.
Variable linprog : scipy.LinProg → option scipy.OptimizeResult.
Hypothesis linprog_returns :
  ∀ lp, ∃ res, linprog lp = Some res
               ∧ length (scipy.x res) = length (scipy.bounds lp).

Lemma solve_task_allocation_returns (robots : list Robot) (skills : list string)
    (w : World) :
  is_Some (solve_task_allocation rand linprog robots skills w).1.
Proof.
  unfold solve_task_allocation. case_bool_decide; [by eexists|].
  destruct (linprog_returns (allocation_problem (length robots) (length skills)
              (calculate_weights rand (rng_calls w) robots skills))) as (res & -> & Hlen).
  destruct (scipy.success res); cbn [negb]; [|by eexists].
  unfold np.reshape. rewrite length_map, Hlen. cbn. rewrite length_replicate.
  rewrite bool_decide_eq_true_2 by done. by eexists.
Qed.

Lemma planner_loop_returns (robots : list Robot) (fuel : nat) :
  ∀ g k w, (planner_loop rand linprog fuel robots g k w).1.1.1 ≠ Raised.
Proof.
  induction fuel as [|fuel IH]; intros g k w; cbn [planner_loop].
  - by destruct (0 <? nx.number_of_nodes g)%nat.
  - destruct (0 <? nx.number_of_nodes g)%nat; [|done].
    destruct (planner_round rand linprog robots g (S k) w) as [w1|g1 w1|w1] eqn:Hround;
      [done|apply IH|].
    exfalso. unfold planner_round in Hround.
    destruct (get_executable_skills g) as [|s ss]; [done|].
    pose proof (solve_task_allocation_returns robots (s :: ss)
                  (print (ExecutableSkills (s :: ss)) (print (Step (S k)) w))) as [asg Ha].
    destruct (solve_task_allocation _ _ _ _ _) as [[asg'|] w2]; [|done].
    by destruct (dict.values asg').
Qed.

End NoRaise.

(** X13. [main_planner] has no [try] of its own; the only calls in it that
    can raise are the solver call and the reshaping of its answer (lines
    85 and 92).  So when the solver returns, for every program, a solution
    with one entry per variable, [main_planner] does not end with an
    uncaught exception, whatever the oracle answers. *)
Theorem main_planner_raises_only_through_solver (gemini : nat → Reply)
    (rand : nat → Q) (linprog : scipy.LinProg → option scipy.OptimizeResult)
    (fuel : nat) (instruction : string) (robots : list Robot) (w : World) :
  (∀ lp, ∃ res, linprog lp = Some res
                ∧ length (scipy.x res) = length (scipy.bounds lp)) →
  (main_planner gemini rand linprog fuel instruction robots w).1 ≠ Raised.
Proof.
  intros Hlin. unfold main_planner.
  destruct (generate_skill_list _ _ _ _) as [[[|s sl] w1]|]; [done| |done].
  destruct (generate_dependency_graph _ _ _) as [g w2].
  destruct (no_nodes g); [done|].
  pose proof (planner_loop_returns rand linprog Hlin robots fuel g 0
                (print Simulating (print (Dependencies (nx.edges_view g)) w2))) as Hloop.
  by destruct (planner_loop _ _ _ _ _ _ _) as [[[o g'] k'] w'].
Qed.

Lemma main_planner_raises_only_through_solver_witness :
  let gemini := λ k, match k with
                     | 0%nat => Text "pick_and_place(red block, blue block)"
                     | 1%nat => Text "done"
                     | _ => Text "Dependencies: None"
                     end in
  let linprog := λ lp : scipy.LinProg,
      Some {| scipy.success := true;
              scipy.x := replicate (length (scipy.bounds lp)) 0%Q |} in
  let robots := [ {| name := "Arm_Robot_1"; type := "arm_robot" |} ] in
  (main_planner gemini (λ _, 1 # 2)%Q linprog 40
     "Stack the red block on the blue block." robots world0).1 ≠ Raised.
Proof.
  intros gemini linprog robots.
  apply main_planner_raises_only_through_solver.
  intros lp. eexists. split; [reflexivity|]. cbn. apply length_replicate.
Defined.

(** ** Parsing the oracle's edges *)

Lemma span_digits_spec (s ds rest : string) :
  Text.span_digits s = (ds, rest) → s = ds +:+ rest ∧ all_digits ds = true.
Proof.
  revert ds rest. induction s as [|c s IH]; intros ds rest; cbn.
  - by intros [= <- <-].
  - destruct (Text.is_digit c) eqn:Hc.
    + destruct (Text.span_digits s) as [ds' rest'].
      intros [= <- <-]. destruct (IH ds' rest' eq_refl) as [-> Hd].
      split; [done|]. cbn. by rewrite Hc, Hd.
    + by intros [= <- <-].
Qed.

Lemma skip_spaces_spec (s : string) :
  ∃ pre, s = pre +:+ Text.skip_spaces s ∧ all_space pre = true.
Proof.
  induction s as [|c s IH]; cbn.
  - by exists "".
  - destruct (Text.is_space c) eqn:Hc.
    + destruct IH as (pre & Hs & Hpre). exists (String c pre).
      split; [|by cbn; rewrite Hc, Hpre].
      change (String c pre +:+ Text.skip_spaces s)
        with (String c (pre +:+ Text.skip_spaces s)).
      by rewrite <- Hs.
    + by exists "".
Qed.

Lemma drop_prefix_spec (pat s rest : string) :
  Text.drop_prefix pat s = Some rest → s = pat +:+ rest.
Proof.
  revert s. induction pat as [|a pat IH]; intros s; cbn.
  - by intros [= ->].
  - destruct s as [|b s]; [done|].
    destruct (Ascii.eqb_spec a b) as [->|]; [|done].
    intros H. apply IH in H. by rewrite H.
Qed.

Lemma contains_cons (pat : string) (c : ascii) (s : string) :
  Text.contains pat (String c s)
  = match Text.drop_prefix pat (String c s) with
    | Some _ => true
    | None => Text.contains pat s
    end.
Proof. reflexivity. Qed.

Lemma contains_app_r (pat pre s : string) :
  Text.contains pat s = true → Text.contains pat (pre +:+ s) = true.
Proof.
  intros Hs. induction pre as [|c pre IH]; [done|].
  change (String c pre +:+ s) with (String c (pre +:+ s)).
  rewrite contains_cons. by destruct (Text.drop_prefix pat _).
Qed.

Lemma drop_prefix_app (pat rest : string) :
  Text.drop_prefix pat (pat +:+ rest) = Some rest.
Proof.
  induction pat as [|a pat IH]; [done|].
  change (String a pat +:+ rest) with (String a (pat +:+ rest)).
  cbn [Text.drop_prefix]. by rewrite Ascii.eqb_refl.
Qed.

Lemma contains_drop_prefix (pat s rest : string) :
  Text.drop_prefix pat s = Some rest → Text.contains pat s = true.
Proof. destruct s; cbn [Text.contains]; by intros ->. Qed.

Lemma contains_prefix (pat rest : string) :
  Text.contains pat (pat +:+ rest) = true.
Proof. eapply contains_drop_prefix, drop_prefix_app. Qed.

Lemma match_arrow_spec (s d1 d2 rest : string) :
  Text.match_arrow s = Some (d1, d2, rest) →
  all_digits d1 = true ∧ all_digits d2 = true ∧ Text.contains "->" s = true.
Proof.
  unfold Text.match_arrow.
  destruct (Text.span_digits s) as [ds1 r1] eqn:H1.
  apply span_digits_spec in H1 as [-> Hd1].
  destruct ds1 as [|c ds1]; [done|].
  destruct (Text.drop_prefix "->" (Text.skip_spaces r1)) as [r2|] eqn:H2; [|done].
  apply drop_prefix_spec in H2.
  destruct (Text.span_digits (Text.skip_spaces r2)) as [ds2 r3] eqn:H3.
  apply span_digits_spec in H3 as [_ Hd2].
  destruct ds2 as [|c2 ds2]; [done|].
  intros [= <- <- <-]. split; [done|]. split; [done|].
  apply contains_app_r.
  destruct (skip_spaces_spec r1) as (pre & Hr1 & _). rewrite Hr1.
  apply contains_app_r. rewrite H2. apply contains_prefix.
Qed.

Lemma contains_tail (pat : string) (c : ascii) (s : string) :
  Text.contains pat (String c s) = false → Text.contains pat s = false.
Proof. rewrite contains_cons. by destruct (Text.drop_prefix pat _). Qed.

Lemma findall_fuel_digits (fuel : nat) :
  ∀ s p q, (p, q) ∈ Text.findall_fuel fuel s →
    all_digits p = true ∧ all_digits q = true.
Proof.
  induction fuel as [|fuel IH]; intros s p q; cbn; [by intros ?%elem_of_nil|].
  destruct s as [|c s]; [by intros ?%elem_of_nil|].
  destruct (Text.match_arrow (String c s)) as [[[d1 d2] rest]|] eqn:Hm.
  - apply match_arrow_spec in Hm as (H1 & H2 & _).
    intros [[= -> ->]|Hin]%elem_of_cons; [done|]. by eapply IH.
  - apply IH.
Qed.

Lemma findall_fuel_no_arrow (fuel : nat) :
  ∀ s, Text.contains "->" s = false → Text.findall_fuel fuel s = [].
Proof.
  induction fuel as [|fuel IH]; intros s Hs; cbn; [done|].
  destruct s as [|c s]; [done|].
  destruct (Text.match_arrow (String c s)) as [[[d1 d2] rest]|] eqn:Hm.
  - apply match_arrow_spec in Hm as (_ & _ & Hc). congruence.
  - apply IH. by eapply contains_tail.
Qed.

Lemma int_acc_nonneg (s : string) :
  ∀ acc, (0 ≤ acc)%Z → all_digits s = true → (0 ≤ Text.int_acc acc s)%Z.
Proof.
  induction s as [|c s IH]; intros acc Hacc; cbn; [done|].
  intros [Hc Hs]%andb_prop. apply IH; [|done].
  unfold Text.is_digit in Hc. apply andb_prop in Hc as [Hc _].
  apply Nat.leb_le in Hc. lia.
Qed.

Lemma py_index_is_Some {A} (l : list A) (i : Z) :
  (- Z.of_nat (length l) ≤ i < Z.of_nat (length l))%Z → is_Some (py_index l i).
Proof.
  intros Hi. unfold py_index. destruct (Z.leb_spec 0 i).
  - apply lookup_lt_is_Some_2. lia.
  - destruct (Z.leb_spec (- Z.of_nat (length l)) i); [|lia].
    apply lookup_lt_is_Some_2. lia.
Qed.

Lemma py_index_skill_of_index (skill_list : list string) (i : Z) :
  (0 ≤ i ≤ Z.of_nat (length skill_list))%Z → skill_list ≠ [] →
  py_index skill_list (i - 1) = Some (skill_of_index skill_list i).
Proof.
  intros Hi Hne. unfold py_index, skill_of_index.
  assert (0 < length skill_list)%nat by (destruct skill_list; [done|cbn; lia]).
  case_bool_decide as H0.
  - subst i. change (0 - 1)%Z with (-1)%Z. change (0 <=? -1)%Z with false.
    cbv iota.
    destruct (Z.leb_spec (- Z.of_nat (length skill_list)) (-1)); [|lia].
    replace (Z.to_nat (Z.of_nat (length skill_list) + -1)) with (length skill_list - 1)%nat
      by lia.
    apply list_lookup_lookup_total_lt. lia.
  - destruct (Z.leb_spec 0 (i - 1)); [|lia].
    apply list_lookup_lookup_total_lt. lia.
Qed.

Lemma mapM_fmap_Some {A B} (f : A → option B) (g : A → B) (l : list A) :
  (∀ x, x ∈ l → f x = Some (g x)) → mapM f l = Some (g <$> l).
Proof.
  intros H. apply mapM_Some_2. induction l as [|a l IH]; [constructor|].
  cbn. constructor; [apply H; by left|]. apply IH. intros x Hx. apply H. by right.
Qed.

Lemma int_Some (idx : string) (i : Z) :
  Text.int idx = Some i →
  i = value idx ∧ (String.length idx ≤ Text.int_max_str_digits)%nat.
Proof.
  unfold Text.int, value.
  destruct (Nat.ltb_spec Text.int_max_str_digits (String.length idx)); [done|].
  by intros [= <-].
Qed.

Lemma int_None (idx : string) :
  Text.int idx = None ↔ (Text.int_max_str_digits < String.length idx)%nat.
Proof.
  unfold Text.int.
  destruct (Nat.ltb_spec Text.int_max_str_digits (String.length idx)); split;
    (done || lia).
Qed.

Lemma bad_index_iff (skill_list : list string) (idx : string) :
  bad_index skill_list idx
  ↔ (Text.int_max_str_digits < String.length idx)%nat
    ∨ (Z.of_nat (length skill_list) < value idx)%Z.
Proof.
  unfold bad_index. destruct (Text.int idx) as [i|] eqn:Hi.
  - apply int_Some in Hi as [-> Hlen]. split; [by right|]. intros [?|?]; [lia|done].
  - apply int_None in Hi. split; [by left|done].
Qed.

Lemma good_index_int (skill_list : list string) (idx : string) :
  ¬ bad_index skill_list idx →
  Text.int idx = Some (value idx) ∧ (value idx ≤ Z.of_nat (length skill_list))%Z.
Proof.
  unfold bad_index. destruct (Text.int idx) as [i|] eqn:Hi; [|done].
  apply int_Some in Hi as [-> _]. split; [done|lia].
Qed.

Lemma value_nonneg (idx : string) : all_digits idx = true → (0 ≤ value idx)%Z.
Proof. apply int_acc_nonneg. lia. Qed.

(** The edge that a match denotes when both indices are good. *)
Lemma parse_one_edge (skill_list : list string) (p s : string) :
  skill_list ≠ [] → all_digits p = true → all_digits s = true →
  ¬ bad_index skill_list p → ¬ bad_index skill_list s →
  (ip ← Text.int p; u ← py_index skill_list (ip - 1);
   js ← Text.int s; v ← py_index skill_list (js - 1); Some (u, v))
  = Some (skill_of_index skill_list (value p), skill_of_index skill_list (value s)).
Proof.
  intros Hne Hdp Hds Hp Hs.
  destruct (good_index_int _ _ Hp) as [-> Hp']. destruct (good_index_int _ _ Hs) as [-> Hs'].
  pose proof (value_nonneg p Hdp). pose proof (value_nonneg s Hds). cbn.
  rewrite (py_index_skill_of_index skill_list (value p)) by (done || lia). cbn.
  rewrite (py_index_skill_of_index skill_list (value s)) by (done || lia). done.
Qed.

(** X14. Lines 46-54, the conversion of the oracle's indices: when every
    matched index is one that [int] accepts (at most 4300 digits) and is
    at most the number of skills, every match [p -> s] of the section
    after the marker becomes the edge from the skill that [p] denotes to
    the skill that [s] denotes, in the order of the matches; index [i]
    from 1 on denotes [skill_list[i - 1]], and index 0 is not rejected but
    denotes the last skill ([skill_list[-1]]). *)
Theorem parse_dependencies_converts_indices (t sec : string) (skill_list : list string) :
  skill_list ≠ [] →
  Text.split_second "Dependencies:" t = Some sec →
  (∀ p s, (p, s) ∈ Text.findall sec →
     ¬ bad_index skill_list p ∧ ¬ bad_index skill_list s) →
  parse_dependencies t skill_list
  = Some ((λ m, (skill_of_index skill_list (value m.1),
                 skill_of_index skill_list (value m.2))) <$> Text.findall sec)
  ∧ (∀ i, (1 ≤ i ≤ Z.of_nat (length skill_list))%Z →
       skill_list !! Z.to_nat (i - 1) = Some (skill_of_index skill_list i))
  ∧ last skill_list = Some (skill_of_index skill_list 0).
Proof.
  intros Hne Hsec Hrange. split; [|split].
  - unfold parse_dependencies.
    assert (Hc : Text.contains "Dependencies:" t = true).
    { apply contains_after_first. unfold Text.split_second in Hsec.
      destruct (Text.after_first "Dependencies:" t); [by eexists|done]. }
    rewrite Hc, Hsec. apply mapM_fmap_Some. intros [p s] Hin.
    destruct (Hrange p s Hin) as [Hp Hs].
    destruct (findall_fuel_digits _ _ _ _ Hin) as [Hdp Hds].
    by apply parse_one_edge.
  - intros i Hi. unfold skill_of_index. rewrite bool_decide_eq_false_2 by lia.
    apply list_lookup_lookup_total_lt. lia.
  - unfold skill_of_index. cbn. rewrite last_lookup.
    assert (0 < length skill_list)%nat by (destruct skill_list; [done|cbn; lia]).
    replace (pred (length skill_list)) with (length skill_list - 1)%nat by lia.
    apply list_lookup_lookup_total_lt. lia.
Qed.

Lemma parse_dependencies_converts_indices_witness :
  let a := "pick_and_place(blue block, middle of the table)" in
  let b := "pick_and_place(red block, blue block)" in
  let c := "transport(table)" in
  parse_dependencies "Reasoning: ... Dependencies: 1 -> 2 0->1" [a; b; c]
  = Some [(a, b); (c, a)].
Proof.
  intros a b c.
  destruct (parse_dependencies_converts_indices
              "Reasoning: ... Dependencies: 1 -> 2 0->1" " 1 -> 2 0->1" [a; b; c])
    as (Hparse & _).
  - done.
  - reflexivity.
  - intros p s Hin. vm_compute in Hin.
    apply elem_of_cons in Hin as [[= -> ->]|Hin]; [split; by vm_compute|].
    apply list_elem_of_singleton in Hin as [= -> ->]. split; by vm_compute.
  - rewrite Hparse. by vm_compute.
Defined.

(** X15. Lines 49-53 and 83-86, when the parse raises: with a non-empty
    skill list, [parse_dependencies] raises exactly when some matched
    index has more than 4300 digits ([int] raises [ValueError]) or
    exceeds the number of skills ([IndexError]); nothing else in the
    oracle's text can make it raise, and a text without the marker gives
    no edge. *)
Theorem parse_dependencies_raises_iff (t : string) (skill_list : list string) :
  skill_list ≠ [] →
  (Text.contains "Dependencies:" t = false → parse_dependencies t skill_list = Some [])
  ∧ (∀ sec, Text.split_second "Dependencies:" t = Some sec →
       (parse_dependencies t skill_list = None
        ↔ ∃ p s, (p, s) ∈ Text.findall sec
                 ∧ (bad_index skill_list p ∨ bad_index skill_list s)))
  ∧ (∀ idx, bad_index skill_list idx
            ↔ (Text.int_max_str_digits < String.length idx)%nat
              ∨ (Z.of_nat (length skill_list) < value idx)%Z).
Proof.
  intros Hne. split; [|split].
  - intros Hc. unfold parse_dependencies. by rewrite Hc.
  - intros sec Hsec. split.
    + intros Hnone.
      destruct (decide (Forall (λ m : string * string,
                  ¬ bad_index skill_list m.1 ∧ ¬ bad_index skill_list m.2)
                  (Text.findall sec))) as [Hall|Hnot].
      * exfalso.
        assert (Hsome : is_Some (parse_dependencies t skill_list)).
        { unfold parse_dependencies.
          assert (Hc : Text.contains "Dependencies:" t = true).
          { apply contains_after_first. unfold Text.split_second in Hsec.
            destruct (Text.after_first "Dependencies:" t); [by eexists|done]. }
          rewrite Hc, Hsec. apply mapM_is_Some_2.
          apply Forall_forall. intros [p s] Hin.
          rewrite Forall_forall in Hall. destruct (Hall _ Hin) as [Hp Hs]. cbn in Hp, Hs.
          destruct (findall_fuel_digits _ _ _ _ Hin) as [Hdp Hds].
          eexists. by apply parse_one_edge. }
        rewrite Hnone in Hsome. by destruct Hsome.
      * apply not_Forall_Exists in Hnot; [|apply _].
        apply Exists_exists in Hnot as ([p s] & Hin & Hbad).
        unfold compose in Hbad. cbn [fst snd] in Hbad.
        exists p, s. split; [done|].
        destruct (decide (bad_index skill_list p)); [by left|right].
        destruct (decide (bad_index skill_list s)); [done|].
        exfalso. by apply Hbad.
    + intros (p & s & Hin & Hout).
      by eapply parse_dependencies_out_of_range.
  - apply bad_index_iff.
Qed.

Lemma parse_dependencies_raises_iff_witness :
  parse_dependencies "Dependencies: 1 -> 2 2 -> 7"
    ["pick_and_place(red block, blue block)"; "transport(table)"] = None.
Proof.
  destruct (parse_dependencies_raises_iff "Dependencies: 1 -> 2 2 -> 7"
              ["pick_and_place(red block, blue block)"; "transport(table)"])
    as (_ & H & _); [done|].
  apply (H " 1 -> 2 2 -> 7"); [reflexivity|].
  exists "2", "7". split; [vm_compute; right; left|right; by vm_compute].
Defined.

(** ** Answers without edges *)

Lemma add_nodes_from_NoDup (l : list string) :
  ∀ g, NoDup (nodes g ++ l) →
    nodes (nx.add_nodes_from g l) = nodes g ++ l
    ∧ edges (nx.add_nodes_from g l) = edges g.
Proof.
  induction l as [|n l IH]; intros g Hnd.
  - cbn. by rewrite app_nil_r.
  - change (nx.add_nodes_from g (n :: l)) with (nx.add_nodes_from (nx.add_node g n) l).
    assert (Hn : n ∉ nodes g).
    { apply NoDup_app in Hnd as (_ & Hdis & _). intros Hin.
      apply (Hdis n Hin). by left. }
    assert (Hadd : nx.add_node g n = {| nodes := nodes g ++ [n]; edges := edges g |}).
    { unfold nx.add_node. by rewrite bool_decide_eq_false_2. }
    rewrite Hadd. destruct (IH {| nodes := nodes g ++ [n]; edges := edges g |}) as [H1 H2].
    { cbn. by rewrite <- app_assoc. }
    cbn in H1, H2. rewrite H1, H2. by rewrite <- app_assoc.
Qed.

Lemma acyclic_no_edges (g : Graph) : edges g = [] → acyclic g.
Proof.
  intros He. exists (λ _, 0%nat). intros u v Huv. rewrite He in Huv.
  by apply elem_of_nil in Huv.
Qed.

(** X16. Lines 46-48 and 71-79: when the first answer has no marker
    "Dependencies:", or no arrow in the section after it, and the skills
    are pairwise distinct, the builder returns at once the graph with the
    skills as nodes, in their order, and no edge: all skills are then
    executable from the first round. *)
Theorem answer_without_arrows_gives_edge_free_graph (gemini : nat → Reply)
    (skill_list : list string) (w : World) (t : string) :
  skill_list ≠ [] → NoDup skill_list →
  gemini (llm_calls w) = Text t →
  (Text.contains "Dependencies:" t = false
   ∨ ∃ sec, Text.split_second "Dependencies:" t = Some sec
            ∧ Text.contains "->" sec = false) →
  generate_dependency_graph gemini skill_list w
  = ({| nodes := skill_list; edges := [] |}, print DagGenerated (llm_called w))
  ∧ get_executable_skills {| nodes := skill_list; edges := [] |} = skill_list.
Proof.
  intros Hne Hnd Hg Hno.
  assert (Hparse : parse_dependencies t skill_list = Some []).
  { unfold parse_dependencies. destruct Hno as [->|(sec & Hsec & Harrow)]; [done|].
    destruct (Text.contains "Dependencies:" t); [|done]. rewrite Hsec.
    unfold Text.findall. by rewrite findall_fuel_no_arrow. }
  destruct (add_nodes_from_NoDup skill_list nx.DiGraph Hnd) as [Hn He].
  assert (Hgraph : nx.add_nodes_from nx.DiGraph skill_list
                   = {| nodes := skill_list; edges := [] |}) by (by apply graph_eq).
  assert (Hdag : nx.is_directed_acyclic_graph {| nodes := skill_list; edges := [] |} = true).
  { apply peel_complete; [|by apply acyclic_no_edges|done].
    split; [done|]. intros u v Huv. by apply elem_of_nil in Huv. }
  split.
  - rewrite generate_dependency_graph_attempts by done.
    cbn [seq graph_attempts]. rewrite Hg. unfold graph_attempt.
    rewrite Hparse, Hgraph. cbn [nx.add_edges_from foldl]. by rewrite Hdag.
  - rewrite get_executable_skills_filter. cbn.
    clear. induction skill_list as [|s l IH]; [done|].
    rewrite filter_cons_True by done. by rewrite IH.
Qed.

Lemma answer_without_arrows_gives_edge_free_graph_witness :
  let skill_list := ["pick_and_place(red block, blue bowl)";
                     "pick_and_place(green block, corner of the table)"] in
  generate_dependency_graph (λ _, Text "Reasoning: independent. Dependencies: None")
    skill_list world0
  = ({| nodes := skill_list; edges := [] |}, print DagGenerated (llm_called world0)).
Proof.
  intros skill_list.
  refine (proj1 (answer_without_arrows_gives_edge_free_graph
                   (λ _, Text "Reasoning: independent. Dependencies: None")
                   skill_list world0 "Reasoning: independent. Dependencies: None"
                   _ _ _ _)).
  - done.
  - apply (bool_decide_unpack _). by vm_compute.
  - reflexivity.
  - right. exists " None". split; reflexivity.
Defined.

(** ** White space around the oracle's choice *)

Lemma skip_spaces_all_space (pre s : string) :
  all_space pre = true → Text.skip_spaces (pre +:+ s) = Text.skip_spaces s.
Proof.
  induction pre as [|c pre IH]; [done|].
  intros [Hc Hpre]%andb_prop.
  change (String c pre +:+ s) with (String c (pre +:+ s)).
  cbn [Text.skip_spaces]. rewrite Hc. by apply IH.
Qed.

Lemma rstrip_all_space (post : string) : all_space post = true → Text.rstrip post = "".
Proof.
  induction post as [|c post IH]; [done|].
  intros [Hc Hpost]%andb_prop. cbn [Text.rstrip]. by rewrite IH, Hc.
Qed.

Lemma rstrip_app_all_space (s post : string) :
  all_space post = true → Text.rstrip (s +:+ post) = Text.rstrip s.
Proof.
  intros Hpost. induction s as [|c s IH]; [by apply rstrip_all_space|].
  change (String c s +:+ post) with (String c (s +:+ post)).
  cbn [Text.rstrip]. by rewrite IH.
Qed.

Lemma skip_spaces_length (s : string) :
  (String.length (Text.skip_spaces s) ≤ String.length s)%nat.
Proof.
  induction s as [|c s IH]; cbn; [done|].
  destruct (Text.is_space c); cbn; lia.
Qed.

Lemma skip_spaces_fixed_app (s post : string) :
  s ≠ "" → Text.skip_spaces s = s → Text.skip_spaces (s +:+ post) = s +:+ post.
Proof.
  destruct s as [|c s]; [done|]. intros _ Hfix.
  change (String c s +:+ post) with (String c (s +:+ post)).
  cbn [Text.skip_spaces] in *. destruct (Text.is_space c); [|done].
  pose proof (skip_spaces_length s) as Hlen. rewrite Hfix in Hlen. cbn in Hlen. lia.
Qed.

(** X17. Lines 73-77 of the skill generator: an answer that is a
    candidate skill with white space before and after it (a trailing line
    feed, say) is accepted as that skill, provided the skill itself does
    not begin or end with white space. *)
Theorem choose_best_skill_ignores_surrounding_space (gemini : nat → Reply)
    (skill_set : list string) (w : World) (pre skill post : string) :
  gemini (llm_calls w) = Text (pre +:+ skill +:+ post) →
  all_space pre = true → all_space post = true →
  skill ≠ "" → Text.skip_spaces skill = skill → Text.rstrip skill = skill →
  Text.strip (pre +:+ skill +:+ post) = skill
  ∧ (skill ∈ skill_set →
       choose_best_skill gemini skill_set w = (Some skill, llm_called w))
  ∧ (skill ∉ skill_set →
       choose_best_skill gemini skill_set w
       = (None, print (InvalidSkill skill) (llm_called w))).
Proof.
  intros Hg Hpre Hpost Hne Hl Hr.
  assert (Hstrip : Text.strip (pre +:+ skill +:+ post) = skill).
  { unfold Text.strip. rewrite skip_spaces_all_space by done.
    rewrite skip_spaces_fixed_app by done. rewrite rstrip_app_all_space by done. done. }
  split; [done|]. unfold choose_best_skill. rewrite Hg, Hstrip. split; intros Hin.
  - by rewrite bool_decide_eq_true_2.
  - by rewrite bool_decide_eq_false_2.
Qed.

Lemma choose_best_skill_ignores_surrounding_space_witness :
  let nbsp := String (ascii_of_nat 160) "" in
  let nel := String (ascii_of_nat 133) "" in
  Text.strip ((" " +:+ nbsp) +:+ "transport(table)" +:+ (nel +:+ " "))
  = "transport(table)".
Proof.
  intros nbsp nel.
  refine (proj1 (choose_best_skill_ignores_surrounding_space
                   (λ _, Text ((" " +:+ nbsp) +:+ "transport(table)" +:+ (nel +:+ " ")))
                   get_skill_set world0
                   (" " +:+ nbsp) "transport(table)" (nel +:+ " ") _ _ _ _ _ _));
    first [reflexivity | done].
Defined.

(** ** The format of an edge line *)

Lemma is_space_not_digit (c : ascii) : Text.is_space c = true → Text.is_digit c = false.
Proof.
  unfold Text.is_space, Text.is_digit. generalize (nat_of_ascii c). intros n H.
  apply andb_false_iff.
  apply orb_prop in H as [H|H]; [apply orb_prop in H as [H|H]|].
  - apply orb_prop in H as [H|H]; apply andb_prop in H as [H1 H2];
      apply Nat.leb_le in H1, H2; left; apply Nat.leb_gt; lia.
  - apply Nat.eqb_eq in H. right. apply Nat.leb_gt. lia.
  - apply Nat.eqb_eq in H. right. apply Nat.leb_gt. lia.
Qed.

Lemma is_digit_not_space (c : ascii) : Text.is_digit c = true → Text.is_space c = false.
Proof.
  intros Hd. destruct (Text.is_space c) eqn:Hs; [|done].
  apply is_space_not_digit in Hs. congruence.
Qed.

Lemma span_digits_app (d tail : string) :
  all_digits d = true → Text.span_digits tail = ("", tail) →
  Text.span_digits (d +:+ tail) = (d, tail).
Proof.
  intros Hd Htail. induction d as [|c d IH]; [done|].
  apply andb_prop in Hd as [Hc Hd].
  change (String c d +:+ tail) with (String c (d +:+ tail)).
  cbn [Text.span_digits]. by rewrite Hc, IH.
Qed.

Lemma span_digits_space_arrow (ws x : string) :
  all_space ws = true →
  Text.span_digits (ws +:+ "->" +:+ x) = ("", ws +:+ "->" +:+ x).
Proof.
  destruct ws as [|c ws]; [done|]. intros [Hc _]%andb_prop.
  change (String c ws +:+ "->" +:+ x) with (String c (ws +:+ "->" +:+ x)).
  cbn [Text.span_digits]. by rewrite (is_space_not_digit c Hc).
Qed.

Lemma skip_spaces_digits (d rest : string) :
  d ≠ "" → all_digits d = true → Text.skip_spaces (d +:+ rest) = d +:+ rest.
Proof.
  destruct d as [|c d]; [done|]. intros _ [Hc _]%andb_prop.
  change (String c d +:+ rest) with (String c (d +:+ rest)).
  cbn [Text.skip_spaces]. by rewrite (is_digit_not_space c Hc).
Qed.

Lemma match_arrow_line (d1 ws1 ws2 d2 rest : string) :
  d1 ≠ "" → all_digits d1 = true → d2 ≠ "" → all_digits d2 = true →
  all_space ws1 = true → all_space ws2 = true →
  Text.span_digits rest = ("", rest) →
  Text.match_arrow (d1 +:+ ws1 +:+ "->" +:+ ws2 +:+ d2 +:+ rest) = Some (d1, d2, rest).
Proof.
  intros Hn1 Hd1 Hn2 Hd2 Hw1 Hw2 Hrest. unfold Text.match_arrow.
  rewrite span_digits_app by (done || by apply span_digits_space_arrow).
  destruct d1 as [|c1 d1']; [done|].
  rewrite skip_spaces_all_space by done.
  change (Text.skip_spaces ("->" +:+ ws2 +:+ d2 +:+ rest)) with ("->" +:+ ws2 +:+ d2 +:+ rest).
  rewrite drop_prefix_app, skip_spaces_all_space by done.
  rewrite skip_spaces_digits by done. rewrite span_digits_app by done.
  by destruct d2.
Qed.

Lemma int_digits (d : string) :
  all_digits d = true →
  match Text.int d with
  | Some i => (0 ≤ i)%Z
  | None => (Text.int_max_str_digits < String.length d)%nat
  end.
Proof.
  intros Hd. destruct (Text.int d) as [i|] eqn:Hi.
  - apply int_Some in Hi as [-> _]. by apply value_nonneg.
  - by apply int_None.
Qed.

(** X18. Line 43, the format the prompt asks for: a text made of one
    number, optional white space, the arrow [->], optional white space and
    a second number is found by the pattern as exactly that pair of
    numbers; the white space may be of any length and of any kind that
    [\s] matches, line feeds and no-break spaces included.  [int] turns
    each number into a non-negative integer unless it has more than 4300
    digits. *)
Theorem findall_recognises_edge_line (d1 ws1 ws2 d2 : string) :
  d1 ≠ "" → all_digits d1 = true → d2 ≠ "" → all_digits d2 = true →
  all_space ws1 = true → all_space ws2 = true →
  Text.findall (d1 +:+ ws1 +:+ "->" +:+ ws2 +:+ d2) = [(d1, d2)]
  ∧ match Text.int d1 with
    | Some i => (0 ≤ i)%Z
    | None => (Text.int_max_str_digits < String.length d1)%nat
    end
  ∧ match Text.int d2 with
    | Some i => (0 ≤ i)%Z
    | None => (Text.int_max_str_digits < String.length d2)%nat
    end.
Proof.
  intros Hn1 Hd1 Hn2 Hd2 Hw1 Hw2. split.
  - pose proof (match_arrow_line d1 ws1 ws2 d2 "" Hn1 Hd1 Hn2 Hd2 Hw1 Hw2 eq_refl) as Hm.
    assert (Hnil : ∀ s, s +:+ "" = s).
    { induction s as [|c s IH]; [done|].
      change (String c s +:+ "") with (String c (s +:+ "")). by rewrite IH. }
    rewrite Hnil in Hm. unfold Text.findall.
    destruct (d1 +:+ ws1 +:+ "->" +:+ ws2 +:+ d2) as [|c s] eqn:Hs.
    { by destruct d1. }
    cbn [Text.findall_fuel]. rewrite Hm. f_equal; by destruct (String.length (String c s)).
  - split; by apply int_digits.
Qed.

Lemma findall_recognises_edge_line_witness :
  let nbsp := String (ascii_of_nat 160) "" in
  Text.findall ("12" +:+ (" " +:+ nbsp) +:+ "->" +:+ "" +:+ "3") = [("12", "3")].
Proof.
  intros nbsp.
  refine (proj1 (findall_recognises_edge_line "12" (" " +:+ nbsp) "" "3" _ _ _ _ _ _));
    done.
Defined.

(** ** Oracle calls *)

Section Calls.

Variable gemini : nat → Reply.
Variable rand : nat → Q.
Variable linprog : scipy.LinProg → option scipy.OptimizeResult.

Lemma generate_skill_loop_calls (fuel : nat) :
  ∀ generated remaining w sl w',
    generate_skill_loop gemini fuel generated remaining w = Some (sl, w') →
    (llm_calls w ≤ llm_calls w' ≤ llm_calls w + length remaining + 1)%nat.
Proof.
  induction fuel as [|fuel IH]; intros generated remaining w sl w'; [done|].
  cbn [generate_skill_loop].
  pose proof (choose_best_skill_calls gemini remaining w) as [Hc Hin].
  destruct (choose_best_skill gemini remaining w) as [[best|] w1]; cbn in Hc, Hin.
  - specialize (Hin best eq_refl). case_bool_decide.
    + intros [= <- <-]. lia.
    + rewrite bool_decide_eq_true_2 by done. intros Hloop.
      apply IH in Hloop. pose proof (length_list_remove best remaining Hin). lia.
  - intros [= <- <-]. lia.
Qed.

Lemma planner_round_llm_calls (robots : list Robot) (g : Graph) (k : nat) (w : World) :
  match planner_round rand linprog robots g k w with
  | RoundBreak w1 | RoundContinue _ w1 | RoundRaise w1 => llm_calls w1 = llm_calls w
  end.
Proof.
  unfold planner_round. destruct (get_executable_skills g) as [|s ss]; [done|].
  pose proof (solve_task_allocation_world rand linprog robots (s :: ss)
                (print (ExecutableSkills (s :: ss)) (print (Step k) w))) as (Hl & _).
  destruct (solve_task_allocation _ _ _ _ _) as [[asg|] w2]; cbn in Hl; [|done].
  by destruct (dict.values asg).
Qed.

Lemma planner_loop_llm_calls (robots : list Robot) (fuel : nat) :
  ∀ g k w, llm_calls (planner_loop rand linprog fuel robots g k w).2 = llm_calls w.
Proof.
  induction fuel as [|fuel IH]; intros g k w; cbn [planner_loop].
  - by destruct (0 <? nx.number_of_nodes g)%nat.
  - destruct (0 <? nx.number_of_nodes g)%nat; [|done].
    pose proof (planner_round_llm_calls robots g (S k) w) as Hr.
    destruct (planner_round rand linprog robots g (S k) w) as [w1|g1 w1|w1]; [done| |done].
    by rewrite IH.
Qed.

End Calls.

Lemma llm_calls_prints (ms : list Msg) :
  ∀ w, llm_calls (prints ms w) = llm_calls w.
Proof.
  induction ms as [|m ms IH]; intros w; [done|].
  change (prints (m :: ms) w) with (prints ms (print m w)). by rewrite IH.
Qed.

(** X19. The whole of [main_planner] asks the oracle at most 36 times:
    one call per chosen skill and one that ends the choice (at most 33,
    the skill set having 32 entries), and at most 3 for the dependency
    graph; the round loop asks nothing. *)
Theorem main_planner_oracle_calls (gemini : nat → Reply) (rand : nat → Q)
    (linprog : scipy.LinProg → option scipy.OptimizeResult)
    (fuel : nat) (instruction : string) (robots : list Robot) (w : World) :
  (llm_calls w
   ≤ llm_calls (main_planner gemini rand linprog fuel instruction robots w).2
   ≤ llm_calls w + 36)%nat.
Proof.
  unfold main_planner.
  destruct (generate_skill_list gemini fuel get_skill_set
              (print (ProcessingInstruction instruction) w)) as [[sl w1]|] eqn:Hsl;
    [|cbn; lia].
  apply generate_skill_loop_calls in Hsl.
  change (length get_skill_set) with 32%nat in Hsl. cbn in Hsl.
  destruct sl as [|s sl]; [cbn; lia|].
  set (w2 := print GeneratingDependencyGraph (skill_list_printed (s :: sl) w1)).
  assert (Hw2 : llm_calls w2 = llm_calls w1).
  { unfold w2, skill_list_printed. cbn [print llm_calls]. by rewrite llm_calls_prints. }
  pose proof (graph_attempts_result gemini (s :: sl) (seq 0 3) w2) as [_ Hg].
  change (graph_attempts gemini (seq 0 3) (s :: sl) w2)
    with (generate_dependency_graph gemini (s :: sl) w2) in Hg.
  destruct (generate_dependency_graph gemini (s :: sl) w2) as [g w3].
  cbn [fst snd length seq] in Hg.
  destruct (no_nodes g); [cbn; lia|].
  pose proof (planner_loop_llm_calls rand linprog robots fuel g 0
                (print Simulating (print (Dependencies (nx.edges_view g)) w3))) as Hloop.
  destruct (planner_loop _ _ _ _ _ _ _) as [[[o g'] k'] w'].
  cbn in Hloop |- *. lia.
Qed.

(** ** The graph handed to the round loop *)

Lemma add_node_present (g : Graph) (n : string) : n ∈ nodes g → nx.add_node g n = g.
Proof. intros Hn. unfold nx.add_node. by rewrite bool_decide_eq_true_2. Qed.

Lemma add_edges_from_present (es : list (string * string)) :
  ∀ g, (∀ e, e ∈ es → e.1 ∈ nodes g ∧ e.2 ∈ nodes g) → NoDup (edges g) →
    nodes (nx.add_edges_from g es) = nodes g ∧ NoDup (edges (nx.add_edges_from g es)).
Proof.
  induction es as [|e es IH]; intros g Hin Hnd; [done|].
  change (nx.add_edges_from g (e :: es)) with (nx.add_edges_from (nx.add_edge g e) es).
  destruct (Hin e ltac:(by left)) as [H1 H2].
  assert (Hnodes : nodes (nx.add_edge g e) = nodes g).
  { unfold nx.add_edge. rewrite (add_node_present g e.1 H1), (add_node_present g e.2 H2).
    by case_bool_decide. }
  assert (Hedges : NoDup (edges (nx.add_edge g e))).
  { unfold nx.add_edge. rewrite (add_node_present g e.1 H1), (add_node_present g e.2 H2).
    case_bool_decide as He; [done|]. cbn. apply NoDup_app. split; [done|].
    split; [|apply NoDup_singleton]. intros x Hx ->%list_elem_of_singleton. done. }
  destruct (IH (nx.add_edge g e)) as [Hn' Hnd']; [|done|].
  - intros e' He'. rewrite Hnodes. apply Hin. by right.
  - by rewrite Hn', Hnodes.
Qed.

(** X20. Lines 71-79 for pairwise distinct skills (what
    [generate_skill_list] produces from a set without repetition): the
    graph that the builder returns is either empty, or its node list is the
    skill list itself, in the same order, and its edges are exactly the
    edges parsed from the answer of one of the at most three oracle calls,
    each edge once. *)
Theorem generate_dependency_graph_shape (gemini : nat → Reply)
    (skill_list : list string) (w : World) :
  NoDup skill_list →
  let r := generate_dependency_graph gemini skill_list w in
  (nodes r.1 = [] ∧ edges r.1 = [])
  ∨ (nodes r.1 = skill_list ∧ NoDup (edges r.1)
     ∧ ∃ k t es, (llm_calls w ≤ k < llm_calls w + 3)%nat
         ∧ gemini k = Text t ∧ parse_dependencies t skill_list = Some es
         ∧ ∀ e, e ∈ edges r.1 ↔ e ∈ es).
Proof.
  intros Hnd r. subst r. destruct skill_list as [|s l]; [by left|].
  rewrite generate_dependency_graph_attempts by done.
  destruct (graph_attempts_result gemini (s :: l) (seq 0 3) w) as [[Hl|(k & Hk & Hgk)] _].
  { left. by rewrite Hl. }
  right. apply graph_attempt_Some in Hgk as (t & es & Hrep & Hparse & Hg & _ & _ & _ & Hes).
  destruct (add_nodes_from_NoDup (s :: l) nx.DiGraph Hnd) as [Hn He].
  destruct (add_edges_from_present es (nx.add_nodes_from nx.DiGraph (s :: l)))
    as [Hn' Hnd'].
  - intros [u v] Hin. rewrite Hn. cbn [fst snd app nodes nx.DiGraph].
    by apply (parse_dependencies_elem_of _ _ _ Hparse).
  - rewrite He. constructor.
  - rewrite Hg, Hn', Hn. split; [done|]. split; [done|].
    exists k, t, es. cbn in Hk. split; [lia|]. split; [done|]. split; [done|].
    by rewrite <- Hg.
Qed.

Lemma generate_dependency_graph_shape_witness :
  let skill_list := ["pick_and_place(blue block, middle of the table)";
                     "pick_and_place(red block, blue block)"] in
  let r := generate_dependency_graph (λ _, Text "Dependencies: 1 -> 2 1->2")
             skill_list world0 in
  nodes r.1 = skill_list ∧ NoDup (edges r.1).
Proof.
  intros skill_list r.
  destruct (generate_dependency_graph_shape (λ _, Text "Dependencies: 1 -> 2 1->2")
              skill_list world0) as [[Hn _]|(Hn & Hnd & _)].
  - apply (bool_decide_unpack _). by vm_compute.
  - exfalso. revert Hn. by vm_compute.
  - split; [exact Hn|exact Hnd].
Defined.
